(** * Profile resolution and hierarchy merge: a shallow embedding

    The service layer of the customer-data service
    ([CreateOrUpdateProfile], [GetProfile], [DeleteProfile],
    [waitForProfile], [GetAllProfiles], [GetAllProfilesWithFilter],
    [parseTypedValueForFilters]) is transcribed statement by statement
    into a state monad over an explicit world.  The repositories, the
    advisory lock and the model structs live in packages whose sources
    are not part of the service file; they are modelled from the external
    interface the design document lists for the storage collaborator, as
    in-memory tables with fault injection. *)

From Stdlib Require Import ZArith String Ascii List Bool Lia DecimalString DecimalPos.
From stdpp Require Import base tactics option list strings gmap.

Local Open Scope string_scope.
Local Open Scope Z_scope.
Local Open Scope list_scope.

(** ** Data model (package [models]) *)

(** A Go [float64], kept as its IEEE-754 bit pattern: the service never
    computes on floats, it only carries them from [strconv.ParseFloat] to
    [fmt.Sprintf]. *)
Inductive float64 : Type :=
  | Float64frombits (bits : Z).

(** The dynamic values that flow through [interface{}] in the service. *)
Inductive any : Type :=
  | AInt (i : Z)
  | AFloat (f : float64)
  | ABool (b : bool)
  | AString (s : string).

(** Modelled from the spec: [models.ApplicationData], one per-application
    record of a profile. *)
Record ApplicationData : Type := {
  AppId : string;
  AppSpecificData : gmap string any;
}.

(** Modelled from the spec: [models.ChildProfile], one child reference of a
    parent's child list; the service reads its [ChildProfileId]. *)
Record ChildProfile : Type := {
  ChildProfileId : string;
  RuleName : string;
}.

Record ProfileHierarchy : Type := {
  IsParent : bool;
  ParentProfileID : string;
  ListProfile : bool;
  ChildProfiles : list ChildProfile;
}.

(** [ProfileHierarchy] is a pointer field in the source
    ([ProfileHierarchy: &models.ProfileHierarchy{...}]), hence the option:
    [None] is the nil pointer.  The fields [ProfileHierarchy] and
    [ApplicationData] are named [Hierarchy] and [ApplicationDataOf] here,
    their own names being taken by the record types. *)
Record Profile : Type := {
  ProfileId : string;
  Hierarchy : option ProfileHierarchy;
  IdentityAttributes : gmap string any;
  Traits : gmap string any;
  ApplicationDataOf : list ApplicationData;
}.

Module Event.
Record t : Type := mk {
  ProfileId : string;
  EventType : string;
}.
End Event.

(** Modelled from the spec: one profile enrichment rule as the schema
    collaborator returns it, [{propertyName, valueType}]. *)
Record ProfileEnrichmentRule : Type := {
  PropertyName : string;
  ValueType : string;
}.

(** ** Errors (package [errors], [fmt.Errorf]) *)

Inductive ErrorMessage : Type :=
  | ErrProfileNotFound
  | ErrWhileFetchingProfile
  | ErrWhileDeletingProfile
  | ErrWhileFetchingProfileEnrichmentRules.

#[warnings="-register-all"] Inductive error : Type :=
  | CollaboratorError                   (* whatever a repository or the driver reports *)
  | ClientError (m : ErrorMessage) (StatusCode : Z)
  | ServerError (m : ErrorMessage) (cause : option error)
  | Errorf (format : string) (args : list string) (wrapped : option error).

Definition StatusNotFound : Z := 404.

(** ** The world the service runs in *)

(** Modelled from the spec: the tables behind the storage collaborator of
    the design document (section 6).  Rows keep their insertion order. *)
Record DB : Type := {
  profiles : list Profile;
  application_data : list (string * ApplicationData);
  child_profiles : list (string * ChildProfile);
  events : list Event.t;
}.

(** Every call the service makes on a collaborator. *)
Inductive Call : Type :=
  | CConn
  | CConnClose
  | CAcquire (key : string)
  | CRelease (key : string)
  | CSleep
  | CInsertProfile (p : Profile)
  | CGetProfile (id : string)
  | CFetchApplicationData (id : string)
  | CFetchChildProfiles (id : string)
  | CDeleteProfile (id : string)
  | CDetachChildProfileFromParent (parent child : string)
  | CGetAllProfiles
  | CGetAllProfilesWithFilter (filters : list string)
  | CDeleteEventsByProfileId (id : string)
  | CGetProfileEnrichmentRules.

(** A trace entry: the call, whether the collaborator carried it out, and
    the tables as they were when the call was issued. *)
Record Entry : Type := {
  call : Call;
  ok : bool;
  before : DB;
}.

(** What the advisory lock answers to one [Acquire]. *)
Inductive LockAnswer : Type :=
  | Granted
  | Busy
  | Broken.

(** [faults] is consumed one flag per repository or driver call ([true]:
    the call fails and changes nothing; an exhausted list: no fault);
    [lock_answers] one answer per [Acquire] (an exhausted list: the lock is
    free). *)
Record World : Type := {
  db : DB;
  rules : list ProfileEnrichmentRule;
  faults : list bool;
  lock_answers : list LockAnswer;
  held : list string;
  trace : list Entry;
}.

(** ** The monad: state, plus Go's run-time panic *)

Inductive Res (A : Type) : Type :=
  | Ret (a : A)
  | Panic (reason : string).
Arguments Ret {A} a.
Arguments Panic {A} reason.

Definition M (A : Type) : Type := World → Res A * World.

#[global] Instance M_ret : MRet M := λ A a w, (Ret a, w).
#[global] Instance M_bind : MBind M := λ A B f m w,
  match m w with
  | (Ret a, w') => f a w'
  | (Panic r, w') => (Panic r, w')
  end.

Definition panic {A} (reason : string) : M A := λ w, (Panic reason, w).

Definition nil_dereference : string :=
  "invalid memory address or nil pointer dereference".

(** [*p] for a pointer [p]. *)
Definition deref {A} (p : option A) : M A :=
  match p with
  | Some a => mret a
  | None => panic nil_dereference
  end.

Definition with_db (d : DB) (w : World) : World :=
  {| db := d; rules := rules w; faults := faults w;
     lock_answers := lock_answers w; held := held w; trace := trace w |}.

(** The world after one collaborator call: the call is logged with its
    outcome and one fault flag is consumed. *)
Definition logged (c : Call) (b : bool) (w : World) : World :=
  {| db := db w; rules := rules w; faults := tail (faults w);
     lock_answers := lock_answers w; held := held w;
     trace := trace w ++ [ {| call := c; ok := b; before := db w |} ] |}.

Definition next_fault (w : World) : bool :=
  match faults w with
  | [] => false
  | b :: _ => b
  end.

(** One collaborator call: log it, consume a fault flag, report success. *)
Definition tick (c : Call) : M bool := λ w,
  let b := negb (next_fault w) in (Ret b, logged c b w).

Definition get_db : M DB := λ w, (Ret (db w), w).
Definition put_db (d : DB) : M unit := λ w, (Ret tt, with_db d w).
Definition get_rules : M (list ProfileEnrichmentRule) := λ w, (Ret (rules w), w).

(** ** The storage collaborator *)

Definition row_of (id : string) (rows : list Profile) : option Profile :=
  find (λ p, String.eqb (ProfileId p) id) rows.

Definition application_data_of (id : string) (d : DB) : list ApplicationData :=
  map snd (filter (λ r, r.1 = id) (application_data d)).

Definition children_of (id : string) (d : DB) : list ChildProfile :=
  map snd (filter (λ r, r.1 = id) (child_profiles d)).

Definition events_of (id : string) (d : DB) : list Event.t :=
  filter (λ e, Event.ProfileId e = id) (events d).

Module repo.

(** Modelled from the spec: [getProfile(profileId) -> Profile?, error]. *)
Definition GetProfile (id : string) : M (option Profile * option error) :=
  ok ← tick (CGetProfile id);
  if ok : bool then d ← get_db; mret (row_of id (profiles d), None)
  else mret (None, Some CollaboratorError).

(** Modelled from the spec:
    [fetchApplicationData(profileId) -> sequence of ApplicationData, error]. *)
Definition FetchApplicationData (id : string)
  : M (list ApplicationData * option error) :=
  ok ← tick (CFetchApplicationData id);
  if ok : bool then d ← get_db; mret (application_data_of id d, None)
  else mret ([], Some CollaboratorError).

(** Modelled from the spec:
    [fetchChildProfiles(parentId) -> sequence of ChildRef, error]. *)
Definition FetchChildProfiles (id : string)
  : M (list ChildProfile * option error) :=
  ok ← tick (CFetchChildProfiles id);
  if ok : bool then d ← get_db; mret (children_of id d, None)
  else mret ([], Some CollaboratorError).

(** Modelled from the spec: [insertProfile(Profile) -> error], insert if
    absent on [profileId]. *)
Definition InsertProfile (p : Profile) : M (option error) :=
  ok ← tick (CInsertProfile p);
  if ok : bool then
    d ← get_db;
    match row_of (ProfileId p) (profiles d) with
    | Some _ => mret None
    | None =>
        put_db {| profiles := profiles d ++ [p];
                  application_data := application_data d;
                  child_profiles := child_profiles d;
                  events := events d |};;
        mret None
    end
  else mret (Some CollaboratorError).

(** Modelled from the spec: [deleteProfile(profileId) -> error],
    idempotent. *)
Definition DeleteProfile (id : string) : M (option error) :=
  ok ← tick (CDeleteProfile id);
  if ok : bool then
    d ← get_db;
    put_db {| profiles := filter (λ p, ProfileId p ≠ id) (profiles d);
              application_data := application_data d;
              child_profiles := child_profiles d;
              events := events d |};;
    mret None
  else mret (Some CollaboratorError).

(** Modelled from the spec:
    [detachChildProfileFromParent(parentId, childId) -> error]. *)
Definition DetachChildProfileFromParent (parent child : string)
  : M (option error) :=
  ok ← tick (CDetachChildProfileFromParent parent child);
  if ok : bool then
    d ← get_db;
    put_db {| profiles := profiles d;
              application_data := application_data d;
              child_profiles :=
                filter (λ r, ¬ (r.1 = parent ∧ ChildProfileId r.2 = child))
                       (child_profiles d);
              events := events d |};;
    mret None
  else mret (Some CollaboratorError).

(** Modelled from the spec: [getAllProfiles() -> sequence of Profile,
    error].  The spec does not say which rows the query selects (whether
    it leaves out the rows whose [listProfile] is false); here it returns
    every stored row.  What depends on the selection is stated for the
    filtered query, whose selection is a parameter. *)
Definition GetAllProfiles : M (list Profile * option error) :=
  ok ← tick CGetAllProfiles;
  if ok : bool then d ← get_db; mret (profiles d, None)
  else mret ([], Some CollaboratorError).

(** Modelled from the spec: the event store's
    [DeleteEventsByProfileId], which removes every event that references
    the identifier. *)
Definition DeleteEventsByProfileId (id : string) : M (option error) :=
  ok ← tick (CDeleteEventsByProfileId id);
  if ok : bool then
    d ← get_db;
    put_db {| profiles := profiles d;
              application_data := application_data d;
              child_profiles := child_profiles d;
              events := filter (λ e, Event.ProfileId e ≠ id) (events d) |};;
    mret None
  else mret (Some CollaboratorError).

End repo.

(** ** The service: [GetProfile] *)

Definition set_ApplicationData (a : list ApplicationData) (p : Profile) : Profile :=
  {| ProfileId := ProfileId p; Hierarchy := Hierarchy p;
     IdentityAttributes := IdentityAttributes p; Traits := Traits p;
     ApplicationDataOf := a |}.

Definition set_ProfileId (id : string) (p : Profile) : Profile :=
  {| ProfileId := id; Hierarchy := Hierarchy p;
     IdentityAttributes := IdentityAttributes p; Traits := Traits p;
     ApplicationDataOf := ApplicationDataOf p |}.

Definition set_Hierarchy (h : ProfileHierarchy) (p : Profile) : Profile :=
  {| ProfileId := ProfileId p; Hierarchy := Some h;
     IdentityAttributes := IdentityAttributes p; Traits := Traits p;
     ApplicationDataOf := ApplicationDataOf p |}.

Definition set_ChildProfiles (c : list ChildProfile) (h : ProfileHierarchy)
  : ProfileHierarchy :=
  {| IsParent := IsParent h; ParentProfileID := ParentProfileID h;
     ListProfile := ListProfile h; ChildProfiles := c |}.

Definition set_ParentProfileID (id : string) (h : ProfileHierarchy)
  : ProfileHierarchy :=
  {| IsParent := IsParent h; ParentProfileID := id;
     ListProfile := ListProfile h; ChildProfiles := ChildProfiles h |}.

(** A [*models.Profile] result is an option.  The three statements after
    the parent fetch go through [masterProfile] before [err] and
    [masterProfile == nil] are looked at, so the [return nil, nil] of the
    source is behind a dereference that has already panicked on nil. *)
Definition GetProfile (ProfileId_ : string) : M (option Profile * option error) :=
  '(profile, _) ← repo.GetProfile ProfileId_;
  match profile with
  | None => mret (None, Some (ClientError ErrProfileNotFound StatusNotFound))
  | Some profile =>
      h ← deref (Hierarchy profile);
      if IsParent h then mret (Some profile, None)
      else
        '(masterProfile, err) ← repo.GetProfile (ParentProfileID h);
        (* masterProfile.ProfileId is read to build the argument *)
        master ← deref masterProfile;
        '(appData, _) ← repo.FetchApplicationData (ProfileId master);
        let master := set_ApplicationData appData master in
        '(children, _) ← repo.FetchChildProfiles (ProfileId master);
        mh ← deref (Hierarchy master);
        let mh := set_ChildProfiles children mh in
        let mh := set_ParentProfileID (ProfileId master) mh in
        let master := set_ProfileId (ProfileId profile) master in
        let master := set_Hierarchy mh master in
        match err with
        | Some e => mret (None, Some (ServerError ErrWhileFetchingProfile (Some e)))
        | None => mret (Some master, None)
        end
  end.

(** ** The service: [DeleteProfile] *)

(** The [for _, childProfile := range ...] loop of the parent branch;
    [Some e] is the error of an early [return]. *)
Fixpoint deleteChildProfiles (children : list ChildProfile) : M (option error) :=
  match children with
  | [] => mret None
  | childProfile :: rest =>
      '(profile, err) ← repo.GetProfile (ChildProfileId childProfile);
      match profile with
      | None => mret (Some (ServerError ErrWhileDeletingProfile err))
      | Some _ =>
          match err with
          | Some e => mret (Some (ServerError ErrWhileDeletingProfile (Some e)))
          | None =>
              err ← repo.DeleteProfile (ChildProfileId childProfile);
              match err with
              | Some e => mret (Some (ServerError ErrWhileDeletingProfile (Some e)))
              | None => deleteChildProfiles rest
              end
          end
      end
  end.

(** The three [if] statements on the hierarchy role follow each other in
    the source, the first two ending in a [return]; they are chained here
    with [else]. *)
Definition DeleteProfile (ProfileId_ : string) : M (option error) :=
  '(profile, err) ← repo.GetProfile ProfileId_;
  match profile with
  | None => mret None
  | Some profile =>
  match err with
  | Some e => mret (Some (ServerError ErrWhileFetchingProfile (Some e)))
  | None =>
  err ← repo.DeleteEventsByProfileId ProfileId_;
  match err with
  | Some e => mret (Some (ServerError ErrWhileDeletingProfile (Some e)))
  | None =>
  h ← deref (Hierarchy profile);
  h ← (if IsParent h then
         '(children, _) ← repo.FetchChildProfiles (ProfileId profile);
         mret (set_ChildProfiles children h)
       else mret h);
  if IsParent h && Nat.eqb (length (ChildProfiles h)) 0 then
    err ← repo.DeleteProfile ProfileId_;
    match err with
    | Some e => mret (Some (ServerError ErrWhileDeletingProfile (Some e)))
    | None => mret None
    end
  else if IsParent h && Nat.ltb 0 (length (ChildProfiles h)) then
    stop ← deleteChildProfiles (ChildProfiles h);
    match stop with
    | Some e => mret (Some e)
    | None =>
        err ← repo.DeleteProfile ProfileId_;
        match err with
        | Some e => mret (Some (ServerError ErrWhileDeletingProfile (Some e)))
        | None => mret None
        end
    end
  else if negb (IsParent h) then
    '(parentProfile, err) ← repo.GetProfile (ParentProfileID h);
    parent ← deref parentProfile;
    '(children, _) ← repo.FetchChildProfiles (ProfileId parent);
    ph ← deref (Hierarchy parent);
    let ph := set_ChildProfiles children ph in
    if Nat.eqb (length (ChildProfiles ph)) 1 then
      err ← repo.DeleteProfile (ParentProfileID h);
      err ← repo.DeleteProfile ProfileId_;
      match err with
      | Some e => mret (Some (ServerError ErrWhileDeletingProfile (Some e)))
      | None => mret None
      end
    else
      err ← repo.DetachChildProfileFromParent (ParentProfileID h) ProfileId_;
      match err with
      | Some e => mret (Some (ServerError ErrWhileDeletingProfile (Some e)))
      | None =>
          err ← repo.DeleteProfile ProfileId_;
          match err with
          | Some e => mret (Some (ServerError ErrWhileDeletingProfile (Some e)))
          | None => mret None
          end
      end
  else mret None
  end end end.

(** ** The lock coordinator and the clock *)

Module lock.

(** Modelled from the spec: [acquireNamedLock(session, key) -> bool]; the
    answer comes from the world's [lock_answers]. *)
Definition Acquire (key : string) : M (bool * option error) := λ w,
  let answer := match lock_answers w with [] => Granted | a :: _ => a end in
  let w' (granted : bool) :=
    {| db := db w; rules := rules w; faults := faults w;
       lock_answers := tail (lock_answers w);
       held := if granted then key :: held w else held w;
       trace := trace w ++
         [ {| call := CAcquire key;
              ok := match answer with Broken => false | _ => true end;
              before := db w |} ] |} in
  match answer with
  | Granted => (Ret (true, None), w' true)
  | Busy => (Ret (false, None), w' false)
  | Broken => (Ret (false, Some CollaboratorError), w' false)
  end.

Definition drop_held (key : string) : M unit := λ w,
  (Ret tt,
   {| db := db w; rules := rules w; faults := faults w;
      lock_answers := lock_answers w;
      held := filter (λ k, k ≠ key) (held w);
      trace := trace w |}).

(** Modelled from the spec: [releaseNamedLock(session, key)]. *)
Definition Release (key : string) : M (option error) :=
  ok ← tick (CRelease key);
  if ok : bool then drop_held key;; mret None
  else mret (Some CollaboratorError).

End lock.

(** [time.Sleep]: only the trace sees it. *)
Definition Sleep : M unit := λ w,
  (Ret tt,
   {| db := db w; rules := rules w; faults := faults w;
      lock_answers := lock_answers w; held := held w;
      trace := trace w ++ [ {| call := CSleep; ok := true; before := db w |} ] |}).

(** Go's [defer]: the deferred call runs when the body is left, by a
    return or by a panic, and its own result is dropped. *)
Definition defer {A B} (deferred : M B) (body : M A) : M A := λ w,
  match body w with
  | (r, w') => (r, snd (deferred w'))
  end.

(** [strconv.Itoa] / [%d]. *)
Definition Itoa (z : Z) : string :=
  DecimalString.NilZero.string_of_int (Z.to_int z).

Section Resolver.

(** [constants.MaxRetryAttempts]; the constants package is not among the
    sources, so the bound is a parameter.  [constants.RetryDelay] only
    feeds [time.Sleep]. *)
Variable MaxRetryAttempts : Z.

(** The [for i := 0; i < maxRetries; i++] loop of [waitForProfile] and the
    statements after it; [n] iterations are left and [i] is the counter. *)
Fixpoint waitForProfile_from (n : nat) (i : Z) (profileID : string)
    (maxRetries : Z) (lastErr : option error) : M (option Profile * option error) :=
  match n with
  | O =>
      match lastErr with
      | Some e =>
          mret (None,
                Some (Errorf "profile %s not visible after %d retries, last error: %w"
                             [profileID; Itoa maxRetries] (Some e)))
      | None =>
          mret (None,
                Some (Errorf "profile %s not visible after %d retries"
                             [profileID; Itoa maxRetries] None))
      end
  | S n' =>
      (if 0 <? i then Sleep else mret tt);;
      '(profile, lastErr) ← repo.GetProfile profileID;
      match profile with
      | Some p => mret (Some p, None)
      | None => waitForProfile_from n' (i + 1) profileID maxRetries lastErr
      end
  end.

Definition waitForProfile (profileID : string) (maxRetries : Z)
  : M (option Profile * option error) :=
  waitForProfile_from (Z.to_nat maxRetries) 0 profileID maxRetries None.

(** The lock retry loop of [CreateOrUpdateProfile]: the final value of
    [acquired], and the error of an early [return]. *)
Fixpoint acquireWithRetry (n : nat) (event : Event.t) : M (bool * option error) :=
  match n with
  | O => mret (false, None)
  | S n' =>
      '(acquired, err) ← lock.Acquire (Event.ProfileId event);
      match err with
      | Some e =>
          mret (acquired,
                Some (Errorf "lock acquisition error for %s: %w"
                             [Event.ProfileId event] (Some e)))
      | None =>
          if acquired : bool then mret (true, None)
          else Sleep;; acquireWithRetry n' event
      end
  end.

Definition CreateOrUpdateProfile (event : Event.t)
  : M (option Profile * option error) :=
  ok ← tick CConn;
  if negb ok then
    mret (None, Some (Errorf "failed to get DB connection: %w" [] (Some CollaboratorError)))
  else
  defer (tick CConnClose) (
    let lockIdentifier := Event.ProfileId event in
    '(acquired, err) ← acquireWithRetry (Z.to_nat MaxRetryAttempts) event;
    match err with
    | Some e => mret (None, Some e)
    | None =>
    if negb acquired then
      mret (None,
            Some (Errorf "could not acquire lock for profile %s after %d retries"
                         [Event.ProfileId event; Itoa MaxRetryAttempts] None))
    else
    defer (lock.Release lockIdentifier) (
      let profileToUpsert :=
        {| ProfileId := Event.ProfileId event;
           Hierarchy := Some {| IsParent := true; ParentProfileID := "";
                                ListProfile := true; ChildProfiles := [] |};
           IdentityAttributes := ∅;
           Traits := ∅;
           ApplicationDataOf := [] |} in
      err ← repo.InsertProfile profileToUpsert;
      match err with
      | Some e =>
          mret (None,
                Some (Errorf "failed to insert or update profile %s: %w"
                             [Event.ProfileId event] (Some e)))
      | None =>
          '(profileFetched, errWait) ← waitForProfile (Event.ProfileId event) MaxRetryAttempts;
          match errWait, profileFetched with
          | None, Some p => mret (Some p, None)
          | _, _ =>
              mret (None,
                    Some (Errorf "profile %s not visible after insert/update: %w"
                                 [Event.ProfileId event] errWait))
          end
      end)
    end).

End Resolver.

(** ** The service: the list variants *)

(** The [for _, profile := range existingProfiles] loop, whose body is the
    same statement sequence in [GetAllProfiles] and in
    [GetAllProfilesWithFilter]; [result] is the slice built so far.  The
    struct behind [master.ProfileHierarchy] is [mh], written back once the
    statements that update it are through. *)
Fixpoint mergeRows (existingProfiles : list Profile) (result : list Profile)
  : M (list Profile) :=
  match existingProfiles with
  | [] => mret result
  | profile :: rest =>
      h ← deref (Hierarchy profile);
      if IsParent h then mergeRows rest (result ++ [profile])
      else
        '(master, err) ← repo.GetProfile (ParentProfileID h);
        match err, master with
        | None, Some master =>
            '(appData, _) ← repo.FetchApplicationData (ProfileId master);
            let master := set_ApplicationData appData master in
            '(children, _) ← repo.FetchChildProfiles (ProfileId master);
            mh ← deref (Hierarchy master);
            let mh := set_ChildProfiles children mh in
            let master := set_ProfileId (ProfileId profile) master in
            let mh := set_ParentProfileID (ProfileId master) mh in
            let master := set_Hierarchy mh master in
            mergeRows rest (result ++ [master])
        | _, _ => mergeRows rest result       (* continue *)
        end
  end.

(** A nil slice and an empty slice are both the empty list. *)
Definition GetAllProfiles : M (list Profile * option error) :=
  '(existingProfiles, err) ← repo.GetAllProfiles;
  match err with
  | Some e => mret ([], Some (ServerError ErrWhileFetchingProfile (Some e)))
  | None =>
      match existingProfiles with
      | [] => mret ([], None)
      | _ => result ← mergeRows existingProfiles []; mret (result, None)
      end
  end.

(** ** [strconv], as far as the filter translator uses it *)

Module strconv.

Inductive NumError : Type :=
  | ErrSyntax
  | ErrRange.

Definition byte (c : ascii) : Z := Z.of_N (N_of_ascii c).

(** Two's complement wrap-around of [int64] and [uint64] arithmetic. *)
Definition int64 (z : Z) : Z := (z + 2 ^ 63) mod 2 ^ 64 - 2 ^ 63.
Definition uint64 (z : Z) : Z := z mod 2 ^ 64.
Definition uint8 (z : Z) : Z := z mod 2 ^ 8.

Definition maxUint64 : Z := 2 ^ 64 - 1.

(** [lower(c)]: [c | ('x' - 'X')]. *)
Definition lower (c : Z) : Z := Z.lor c 32.

(** The loop of [ParseUint(s, 10, 0)] over the bytes that are left, [n]
    being the value read so far; [IntSize] is 64, so [maxVal] is
    [maxUint64] and [cutoff] is [maxUint64/10 + 1]. *)
Fixpoint ParseUint_from (s : string) (n : Z) : Z * option NumError :=
  match s with
  | EmptyString => (n, None)
  | String ch rest =>
      let c := byte ch in
      let cutoff := maxUint64 / 10 + 1 in
      let maxVal := maxUint64 in
      (* case c == '_' && base0: base0 is false *)
      let digit :=
        if (48 <=? c) && (c <=? 57) then Some (c - 48)
        else if (97 <=? lower c) && (lower c <=? 122) then Some (lower c - 97 + 10)
        else None in
      match digit with
      | None => (0, Some ErrSyntax)
      | Some d =>
          if 10 <=? d then (0, Some ErrSyntax)
          else if cutoff <=? n then (maxVal, Some ErrRange)   (* n*base overflows *)
          else
            let n := uint64 (n * 10) in
            let n1 := uint64 (n + d) in
            if (n1 <? n) || (maxVal <? n1) then (maxVal, Some ErrRange)
            else ParseUint_from rest n1
      end
  end.

(** [ParseUint(s, 10, 0)]. *)
Definition ParseUint (s : string) : Z * option NumError :=
  match s with
  | EmptyString => (0, Some ErrSyntax)
  | _ => ParseUint_from s 0
  end.

(** [ParseInt(s, 10, 0)]. *)
Definition ParseInt (s : string) : Z * option NumError :=
  match s with
  | EmptyString => (0, Some ErrSyntax)
  | String s0 tl =>
      let neg := Ascii.eqb s0 "-" in
      let s := if Ascii.eqb s0 "+" || Ascii.eqb s0 "-" then tl else s in
      match ParseUint s with
      | (_, Some ErrSyntax) => (0, Some ErrSyntax)
      | (un, _) =>
          let cutoff := 2 ^ 63 in
          if negb neg && (cutoff <=? un) then (cutoff - 1, Some ErrRange)
          else if neg && (cutoff <? un) then (- cutoff, Some ErrRange)
          else
            let n := int64 un in
            (if neg then int64 (- n) else n, None)
      end
  end.

(** The digit loop of the fast path of [Atoi]. *)
Fixpoint Atoi_digits (s : string) (n : Z) : option Z :=
  match s with
  | EmptyString => Some n
  | String ch rest =>
      let ch := uint8 (byte ch - 48) in
      if 9 <? ch then None
      else Atoi_digits rest (int64 (n * 10 + ch))
  end.

(** [Atoi(s)] where [int] is 64 bits wide ([IntSize = 64]). *)
Definition Atoi (s : string) : Z * option NumError :=
  let sLen := Z.of_nat (String.length s) in
  if (0 <? sLen) && (sLen <? 19) then
    (* fast path for small integers that fit the int type *)
    match s with
    | EmptyString => (0, Some ErrSyntax)
    | String s0 tl =>
        let signed := Ascii.eqb s0 "-" || Ascii.eqb s0 "+" in
        let s := if signed then tl else s in
        if signed && (Z.of_nat (String.length s) <? 1) then (0, Some ErrSyntax)
        else
          match Atoi_digits s 0 with
          | None => (0, Some ErrSyntax)
          | Some n => (if Ascii.eqb s0 "-" then int64 (- n) else n, None)
          end
    end
  else
    (* slow path for invalid, big, or underscored integers *)
    ParseInt s.

End strconv.

(** ** The filter translator *)

(** [strings.Index(s, " ")] together with the two slices taken at it:
    the text before the first space and the text after it. *)
Fixpoint cut_space (s : string) : option (string * string) :=
  match s with
  | EmptyString => None
  | String c rest =>
      if Ascii.eqb c " " then Some (EmptyString, rest)
      else
        match cut_space rest with
        | Some (a, b) => Some (String c a, b)
        | None => None
        end
  end.

(** [strings.SplitN(s, " ", n)] for [n >= 0]: at most [n] substrings, the
    last one being the unsplit remainder. *)
Fixpoint SplitN (s : string) (n : nat) : list string :=
  match n with
  | O => []
  | S n' =>
      match n' with
      | O => [s]
      | S _ =>
          match cut_space s with
          | Some (a, rest) => a :: SplitN rest n'
          | None => [s]
          end
      end
  end.

Section Filters.

(** [strconv.ParseFloat(raw, 64)] and the [%v] verb on a [float64] are
    taken from the Go library as they are. *)
Variable ParseFloat : string → float64 * option strconv.NumError.
Variable FormatFloat : float64 → string.

(** Modelled from the spec: the typed comparison the storage layer performs
    for [getAllProfilesWithFilter(predicates)], as a row predicate. *)
Variable selects : list string → Profile → bool.

Definition parseTypedValueForFilters (valueType raw : string) : any :=
  if String.eqb valueType "int" then
    let '(i, _) := strconv.Atoi raw in AInt i
  else if String.eqb valueType "float" || String.eqb valueType "double" then
    let '(f, _) := ParseFloat raw in AFloat f
  else if String.eqb valueType "boolean" then
    ABool (String.eqb raw "true")
  else if String.eqb valueType "string" then
    AString raw
  else
    AString raw.

(** [fmt.Sprintf("%v", v)]. *)
Definition Sprintf_v (v : any) : string :=
  match v with
  | AInt i => Itoa i
  | AFloat f => FormatFloat f
  | ABool b => if b then "true" else "false"
  | AString s => s
  end.

(** Step 2 of [GetAllProfilesWithFilter]: later rules overwrite earlier
    ones. *)
Definition buildPropertyTypeMap (rules : list ProfileEnrichmentRule)
  : gmap string string :=
  fold_left (λ m rule, <[PropertyName rule := ValueType rule]> m) rules ∅.

(** Step 3 of [GetAllProfilesWithFilter]: one filter. *)
Definition rewriteFilter (propertyTypeMap : gmap string string) (f : string)
  : option string :=
  match SplitN f 3 with
  | [field; operator; rawValue] =>
      let valueType := default "" (propertyTypeMap !! field) in
      let parsed := parseTypedValueForFilters valueType rawValue in
      let valueStr :=
        match parsed with
        | AString v => v
        | v => Sprintf_v v
        end in
      Some (field +:+ " " +:+ operator +:+ " " +:+ valueStr)
  | _ => None                          (* len(parts) != 3: continue *)
  end.

(** Step 3 of [GetAllProfilesWithFilter]: the loop. *)
Fixpoint rewriteFilters (propertyTypeMap : gmap string string)
    (filters : list string) (updatedFilters : list string) : list string :=
  match filters with
  | [] => updatedFilters
  | f :: rest =>
      match rewriteFilter propertyTypeMap f with
      | Some updated => rewriteFilters propertyTypeMap rest (updatedFilters ++ [updated])
      | None => rewriteFilters propertyTypeMap rest updatedFilters
      end
  end.

Definition schemaRepo_GetProfileEnrichmentRules
  : M (list ProfileEnrichmentRule * option error) :=
  ok ← tick CGetProfileEnrichmentRules;
  if ok : bool then r ← get_rules; mret (r, None)
  else mret ([], Some CollaboratorError).

Definition repo_GetAllProfilesWithFilter (filters : list string)
  : M (list Profile * option error) :=
  ok ← tick (CGetAllProfilesWithFilter filters);
  if ok : bool then d ← get_db; mret (List.filter (selects filters) (profiles d), None)
  else mret ([], Some CollaboratorError).

Definition GetAllProfilesWithFilter (filters : list string)
  : M (list Profile * option error) :=
  '(rules, err) ← schemaRepo_GetProfileEnrichmentRules;
  match err with
  | Some e => mret ([], Some (ServerError ErrWhileFetchingProfileEnrichmentRules (Some e)))
  | None =>
      let propertyTypeMap := buildPropertyTypeMap rules in
      let updatedFilters := rewriteFilters propertyTypeMap filters [] in
      '(existingProfiles, err) ← repo_GetAllProfilesWithFilter updatedFilters;
      match err with
      | Some e => mret ([], Some (ServerError ErrWhileFetchingProfile (Some e)))
      | None => result ← mergeRows existingProfiles []; mret (result, None)
      end
  end.

End Filters.

(** ** Vocabulary of the properties *)

(** No collaborator call of the run is made to fail. *)
Definition healthy (w : World) : bool := forallb negb (faults w).

(** The parent a stored child row points to. *)
Definition parent_of (d : DB) (C : string) : option string :=
  match row_of C (profiles d) with
  | Some row =>
      match Hierarchy row with
      | Some h => if IsParent h then None else Some (ParentProfileID h)
      | None => None
      end
  | None => None
  end.

Definition is_stored_parent (d : DB) (P : string) : bool :=
  match row_of P (profiles d) with
  | Some row =>
      match Hierarchy row with
      | Some h => IsParent h
      | None => false
      end
  | None => false
  end.

(** Calls that only read the tables. *)
Definition is_read (c : Call) : bool :=
  match c with
  | CGetProfile _ | CFetchApplicationData _ | CFetchChildProfiles _
  | CGetAllProfiles | CGetAllProfilesWithFilter _
  | CGetProfileEnrichmentRules => true
  | _ => false
  end.

(** Calls that change the tables when they succeed. *)
Definition is_mutation (c : Call) : bool :=
  match c with
  | CInsertProfile _ | CDeleteProfile _ | CDetachChildProfileFromParent _ _
  | CDeleteEventsByProfileId _ => true
  | _ => false
  end.

(** Calls on the profile, event or schema repositories, as opposed to the
    session, the lock and the clock. *)
Definition touches_storage (c : Call) : bool := is_read c || is_mutation c.

(** [grows E w w']: the trace of [w'] is the trace of [w] followed by
    entries that all satisfy [E]. *)
Definition grows (E : Entry → Prop) (w w' : World) : Prop :=
  ∃ new, trace w' = trace w ++ new ∧ Forall E new.

(** A Hoare triple on the tables, with a trace condition: from tables in
    [P] the action ends (returning or panicking) in [Q] and logs only
    entries in [E]. *)
Definition hoare {A} (P : DB → Prop) (E : Entry → Prop) (m : M A)
    (Q : Res A → DB → Prop) : Prop :=
  ∀ w, P (db w) → Q (m w).1 (db (m w).2) ∧ grows E w (m w).2.

(** Under [P], logging the call [c] is allowed by [E]. *)
Definition admits (P : DB → Prop) (E : Entry → Prop) (c : Call) : Prop :=
  ∀ d b, P d → E {| call := c; ok := b; before := d |}.

(** The claim on event clean-up, read on one trace entry: a row that a
    successful [DeleteProfile] call removes has no event left. *)
Definition own_events_purged (e : Entry) : Prop :=
  ∀ x, call e = CDeleteProfile x → ok e = true →
       is_Some (row_of x (profiles (before e))) →
       events_of x (before e) = [].

(** What the code ensures instead: when a row deletion is issued, the
    events of the identifier [id] the caller asked to delete are gone. *)
Definition target_events_purged (id : string) (e : Entry) : Prop :=
  ∀ x, call e = CDeleteProfile x → events_of id (before e) = [].

(** [DeleteProfile id] succeeds without touching the tables. *)
Definition delete_is_noop (id : string) (w : World) : Prop :=
  ∃ w', DeleteProfile id w = (Ret None, w') ∧ db w' = db w ∧
        grows (λ e, is_mutation (call e) = false) w w'.

(** The lock is not obtained within [n] attempts: the answers are [Busy]
    until an attempt breaks or the [n] attempts are used up. *)
Fixpoint lock_denied (n : nat) (answers : list LockAnswer) : bool :=
  match n with
  | O => true
  | S n' =>
      match answers with
      | Busy :: rest => lock_denied n' rest
      | Broken :: _ => true
      | _ => false
      end
  end.

Definition is_lock_acquisition_error (e : error) : Prop :=
  match e with
  | Errorf format _ _ =>
      format = "lock acquisition error for %s: %w" ∨
      format = "could not acquire lock for profile %s after %d retries"
  | _ => False
  end.

(** The number of spaces of a filter expression. *)
Fixpoint spaces (s : string) : nat :=
  match s with
  | EmptyString => O
  | String c rest => if Ascii.eqb c " " then S (spaces rest) else spaces rest
  end.

(** [strings.Split(s, " ")]: all the space-separated tokens. *)
Definition Split (s : string) : list string := SplitN s (S (String.length s)).

(** A sequence of decimal digits: its text and its positional value. *)
Definition digit_char (d : Z) : ascii := ascii_of_N (Z.to_N (48 + d)).

Fixpoint digits_text (ds : list Z) : string :=
  match ds with
  | [] => EmptyString
  | d :: rest => String (digit_char d) (digits_text rest)
  end.

Definition decimal_from (ds : list Z) (n : Z) : Z :=
  fold_left (λ n d, 10 * n + d) ds n.

Definition decimal (ds : list Z) : Z := decimal_from ds 0.

Definition are_digits (ds : list Z) : bool :=
  forallb (λ d, (0 <=? d) && (d <=? 9)) ds.

(** The text begins with a minus sign. *)
Definition negative_text (s : string) : bool :=
  match s with
  | String c _ => Ascii.eqb c "-"
  | EmptyString => false
  end.

(** [math.Inf(sign)] as a bit pattern. *)
Definition Inf (negative : bool) : float64 :=
  Float64frombits (if negative then 18442240474082181120 else 9218868437227405312).

(** What [strconv.ParseFloat(s, 64)] returns beside an error, in the Go
    library: 0 for a malformed text ([ErrSyntax]), and for a well-formed
    text out of range ([ErrRange]) the infinity of the sign of the
    text. *)
Definition ParseFloat_reports
    (ParseFloat : string → float64 * option strconv.NumError) : Prop :=
  ∀ s, match ParseFloat s with
       | (f, Some strconv.ErrSyntax) => f = Float64frombits 0
       | (f, Some strconv.ErrRange) => f = Inf (negative_text s)
       | (_, None) => True
       end.

(** A function of which [ParseFloat_reports] holds, for the examples: it
    knows three texts and rejects every other one as malformed. *)
Definition ParseFloat_sample (s : string) : float64 * option strconv.NumError :=
  if String.eqb s "1.5" then (Float64frombits 4609434218613702656, None)
  else if String.eqb s "1e999" then (Inf false, Some strconv.ErrRange)
  else if String.eqb s "-1e999" then (Inf true, Some strconv.ErrRange)
  else (Float64frombits 0, Some strconv.ErrSyntax).

(** ** A family used in examples: parent ["P"], its only child ["C"] *)

Definition parent_row : Profile :=
  {| ProfileId := "P";
     Hierarchy := Some {| IsParent := true; ParentProfileID := "";
                          ListProfile := true; ChildProfiles := [] |};
     IdentityAttributes := {[ "user_id" := AString "u-1" ]};
     Traits := {[ "a" := AInt 1 ]};
     ApplicationDataOf := [] |}.

Definition child_row : Profile :=
  {| ProfileId := "C";
     Hierarchy := Some {| IsParent := false; ParentProfileID := "P";
                          ListProfile := true; ChildProfiles := [] |};
     IdentityAttributes := ∅;
     Traits := {[ "b" := AInt 2 ]};
     ApplicationDataOf := [] |}.

Definition family_db : DB :=
  {| profiles := [parent_row; child_row];
     application_data := [("P", {| AppId := "x"; AppSpecificData := ∅ |})];
     child_profiles := [("P", {| ChildProfileId := "C"; RuleName := "email" |})];
     events := [Event.mk "P" "login"; Event.mk "C" "page_view"] |}.

Definition world_of (d : DB) (f : list bool) (a : list LockAnswer) : World :=
  {| db := d; rules := [ {| PropertyName := "age"; ValueType := "int" |} ];
     faults := f; lock_answers := a; held := []; trace := [] |}.

Definition family : World := world_of family_db [] [].

(** A child whose parent row is gone. *)
Definition orphan_db : DB :=
  {| profiles := [child_row]; application_data := [];
     child_profiles := []; events := [] |}.

(** ** The database client ([client.DBClient.ExecuteQuery]) *)

Module client.
Section DBClient.

(** The driver's values, the nil interface value of a fresh row slot, and
    [strings.ToLower] are taken as they are. *)
Variable V : Type.
Variable nilV : V.
Variable ToLower : string → string.

(** What [sql.DB.Query] hands back: the answer of [rows.Columns()]; for
    each [rows.Next()] that holds, the values [rows.Scan] stores or its
    error; and [rows.Err()], the error that ended the iteration, if
    any. *)
Record Rows : Type := {
  Columns : list string + error;
  Scans : list (list V + error);
  Err : option error;
}.

(** [for i, col := range columns { result[strings.ToLower(col)] = row[i] }],
    from index [i] on; a slot [Scan] did not fill holds nil. *)
Fixpoint fill (columns : list string) (i : nat) (row : list V)
    (result : gmap string V) : gmap string V :=
  match columns with
  | [] => result
  | col :: rest =>
      fill rest (S i) row (<[ToLower col := default nilV (row !! i)]> result)
  end.

(** The [for rows.Next()] loop; [results] is the slice built so far. *)
Fixpoint scanAll (columns : list string) (scans : list (list V + error))
    (results : list (gmap string V)) : list (gmap string V) * option error :=
  match scans with
  | [] => (results, None)
  | inr err :: _ => ([], Some err)
  | inl row :: rest => scanAll columns rest (results ++ [fill columns 0 row ∅])
  end.

Definition ExecuteQuery (queried : Rows + error)
  : list (gmap string V) * option error :=
  match queried with
  | inr err => ([], Some err)
  | inl rows =>
      match Columns rows with
      | inr err => ([], Some err)
      | inl columns => scanAll columns (Scans rows) []
      end
  end.

End DBClient.
End client.

(** ** The rule store ([store.PatchUnificationRule]) *)

Module store.
Section Store.

(** [time.Now().Unix()], the text constants of
    [errors2.UPDATE_UNIFICATION_RULE] and the outcome of
    [provider.NewDBProvider().GetDBClient()] and of the client's
    [ExecuteQuery] are parameters.  The log lines and the deferred
    [dbClient.Close()] do not bear on the result and are left out. *)
Variable now : Z.
Variable UPDATE_UNIFICATION_RULE : string * string.
Variable GetDBClient : option error.
Variable ExecuteQuery : string → list any → option error.

(** [errors2.ServerError], as [errors2.NewServerError] fills it. *)
Record ServerError : Type := {
  Code : string;
  Message : string;
  Description : string;
  Err : error;
}.

(** The [for key, value := range updates] loop; Go fixes no order for a
    map, [updates] lists the entries in the order the loop meets them. *)
Fixpoint setClausesFrom (updates : list (string * any)) (setClauses : list string)
    (args : list any) (argIndex : Z) : list string * list any * Z :=
  match updates with
  | [] => (setClauses, args, argIndex)
  | (key, value) :: rest =>
      setClausesFrom rest (setClauses ++ [key +:+ " = $" +:+ Itoa argIndex])
                     (args ++ [value]) (argIndex + 1)
  end.

(** The statement and the arguments handed to [ExecuteQuery]. *)
Definition patchStatement (ruleId : string) (updates : list (string * any))
  : string * list any :=
  let '(setClauses, args, argIndex) := setClausesFrom updates [] [] 1 in
  let args := args ++ [AInt now; AString ruleId] in
  let query :=
    "UPDATE unification_rules SET " +:+ String.concat ", " setClauses
    +:+ ", updated_at = $" +:+ Itoa argIndex
    +:+ " WHERE rule_id = $" +:+ Itoa (argIndex + 1) in
  (query, args).

Definition PatchUnificationRule (ruleId : string) (updates : list (string * any))
  : option ServerError :=
  match GetDBClient with
  | Some err =>
      Some {| Code := UPDATE_UNIFICATION_RULE.1;
              Message := UPDATE_UNIFICATION_RULE.2;
              Description :=
                "Failed to get database client for updating unification rule: "
                +:+ ruleId;
              Err := err |}
  | None =>
      let '(query, args) := patchStatement ruleId updates in
      match ExecuteQuery query args with
      | Some err =>
          Some {| Code := UPDATE_UNIFICATION_RULE.1;
                  Message := UPDATE_UNIFICATION_RULE.2;
                  Description :=
                    "Error occurred while updating unification rule for rule_id: "
                    +:+ ruleId;
                  Err := err |}
      | None => None
      end
  end.

End Store.
End store.

(** ** Vocabulary of the further properties *)

Definition fault_at (k : nat) (w : World) : bool := nth k (faults w) false.

Definition is_stored (d : DB) (id : string) : bool :=
  match row_of id (profiles d) with
  | Some _ => true
  | None => false
  end.

Definition ids_of (children : list ChildProfile) : list string :=
  map ChildProfileId children.

(** The calls of a polling loop that reads [k + 1] times. *)
Definition polling_calls (id : string) (k : nat) : list Call :=
  CGetProfile id :: concat (replicate k [CSleep; CGetProfile id]).

(** The [n] flags from position [from] on are all faults. *)
Fixpoint faults_from (from n : nat) (w : World) : bool :=
  match n with
  | O => true
  | S n' => fault_at from w && faults_from (S from) n' w
  end.

(** Flags [from .. from + k - 1] are faults and flag [from + k] is not. *)
Definition first_success_at (from k : nat) (w : World) : bool :=
  faults_from from k w && negb (fault_at (from + k) w).

(** The calls of a polling loop of [n] iterations that never sees the
    profile. *)
Definition exhausted_calls (id : string) (n : nat) : list Call :=
  match n with
  | O => []
  | S k => polling_calls id k
  end.

(** The error [waitForProfile] ends with, according to the error of its
    last read. *)
Definition not_visible (profileID : string) (maxRetries : Z)
    (lastErr : option error) (e : error) : Prop :=
  match lastErr with
  | Some cause =>
      e = Errorf "profile %s not visible after %d retries, last error: %w"
                 [profileID; Itoa maxRetries] (Some cause)
  | None =>
      e = Errorf "profile %s not visible after %d retries"
                 [profileID; Itoa maxRetries] None
  end.

(** The error of the last of [n] reads. *)
Definition last_read_error (n : nat) (w : World) : option error :=
  match n with
  | O => None
  | S k => if fault_at k w then Some CollaboratorError else None
  end.

(** The lock is busy [k] times and then granted. *)
Fixpoint granted_after (k : nat) (answers : list LockAnswer) : bool :=
  match k with
  | O =>
      match answers with
      | [] | Granted :: _ => true
      | _ => false
      end
  | S k' =>
      match answers with
      | Busy :: rest => granted_after k' rest
      | _ => false
      end
  end.

(** The skeleton [CreateOrUpdateProfile] upserts. *)
Definition skeleton (id : string) : Profile :=
  {| ProfileId := id;
     Hierarchy := Some {| IsParent := true; ParentProfileID := "";
                          ListProfile := true; ChildProfiles := [] |};
     IdentityAttributes := ∅;
     Traits := ∅;
     ApplicationDataOf := [] |}.

(** How many of the entries are calls of kind [p]. *)
Definition count_calls (p : Call → bool) (es : list Entry) : nat :=
  length (List.filter p (map call es)).

Definition is_GetProfile (c : Call) : bool :=
  match c with CGetProfile _ => true | _ => false end.

(** [k] attempts on the lock [key] that find it busy, each followed by a
    sleep. *)
Definition busy_attempts (key : string) (k : nat) : list Call :=
  concat (replicate k [CAcquire key; CSleep]).

(** The calls of a lock phase of at most [n] attempts that ends without
    the lock, by the answers of the lock: an attempt and a sleep for each
    busy answer, up to [n] of them or up to an attempt that breaks. *)
Fixpoint denied_attempts (key : string) (n : nat) (answers : list LockAnswer)
  : list Call :=
  match n with
  | O => []
  | S n' =>
      match answers with
      | Busy :: rest => CAcquire key :: CSleep :: denied_attempts key n' rest
      | _ => [CAcquire key]
      end
  end.

(** The reads of [waitForProfile] after the upsert, by the fault script
    [w] of the run, in which the session request has position 0, the
    upsert position 1 and the reads the positions from 2 on: up to the
    first read that is answered, or [n] failed reads. *)
Definition read_calls (id : string) (n : nat) (w : World) (l : list Call) : Prop :=
  (∃ j, (j < n)%nat ∧ first_success_at 2 j w = true ∧ l = polling_calls id j) ∨
  (faults_from 2 n w = true ∧ l = exhausted_calls id n).

(** The runs of [CreateOrUpdateProfile] from [w] to [w'], logging [new],
    by what the session, the lock and the storage answer. *)
Definition resolver_run (n : nat) (id : string) (w w' : World) (new : list Entry)
  : Prop :=
  (next_fault w = true ∧ map call new = [CConn] ∧ held w' = held w) ∨
  (next_fault w = false ∧ lock_denied n (lock_answers w) = true ∧
   map call new = CConn :: denied_attempts id n (lock_answers w) ++ [CConnClose] ∧
   held w' = held w) ∨
  (next_fault w = false ∧
   ∃ k l3 pre rel cls,
     (k < n)%nat ∧ granted_after k (lock_answers w) = true ∧
     new = pre ++ [rel; cls] ∧
     map call pre
     = CConn :: busy_attempts id k
             ++ CAcquire id :: CInsertProfile (skeleton id) :: l3 ∧
     call rel = CRelease id ∧ call cls = CConnClose ∧
     (if fault_at 1 w then l3 = [] else read_calls id n w l3) ∧
     (ok rel = true → held w' = filter (λ key, key ≠ id) (held w))).

(** A row the list loop can turn into a result row: it has a hierarchy,
    and when it is a child its parent is stored with a hierarchy. *)
Definition resolvable (d : DB) (row : Profile) : bool :=
  match Hierarchy row with
  | Some h =>
      IsParent h ||
      match row_of (ParentProfileID h) (profiles d) with
      | Some master => match Hierarchy master with Some _ => true | None => false end
      | None => false
      end
  | None => false
  end.

Definition is_parent_row (row : Profile) : bool :=
  match Hierarchy row with
  | Some h => IsParent h
  | None => false
  end.

(** What a list operation returns for a row it resolves: a parent row as
    it is stored; for a child the data of its parent under the child's
    identifier. *)
Definition listed_as (d : DB) (row v : Profile) : Prop :=
  ProfileId v = ProfileId row ∧
  match Hierarchy row with
  | Some h =>
      if IsParent h then v = row
      else ∃ master,
             row_of (ParentProfileID h) (profiles d) = Some master ∧
             Traits v = Traits master ∧
             IdentityAttributes v = IdentityAttributes master ∧
             ApplicationDataOf v = application_data_of (ProfileId master) d ∧
             (ChildProfiles <$> Hierarchy v) = Some (children_of (ProfileId master) d)
  | None => False
  end.

(** The digits of a [Decimal.uint], most significant first. *)
Fixpoint uint_digits (u : Decimal.uint) : list Z :=
  match u with
  | Decimal.Nil => []
  | Decimal.D0 u => 0 :: uint_digits u
  | Decimal.D1 u => 1 :: uint_digits u
  | Decimal.D2 u => 2 :: uint_digits u
  | Decimal.D3 u => 3 :: uint_digits u
  | Decimal.D4 u => 4 :: uint_digits u
  | Decimal.D5 u => 5 :: uint_digits u
  | Decimal.D6 u => 6 :: uint_digits u
  | Decimal.D7 u => 7 :: uint_digits u
  | Decimal.D8 u => 8 :: uint_digits u
  | Decimal.D9 u => 9 :: uint_digits u
  end.

(** The value type the property map declares for the field of a
    filter. *)
Definition declared_type (propertyTypeMap : gmap string string) (f : string)
  : string :=
  match SplitN f 3 with
  | field :: _ => default "" (propertyTypeMap !! field)
  | [] => ""
  end.

Definition is_float_type (t : string) : bool :=
  String.eqb t "float" || String.eqb t "double".

(** The tables [d] hold nothing the tables [d0] did not hold. *)
Definition shrinks (d0 d : DB) : Prop :=
  sublist (profiles d) (profiles d0) ∧
  sublist (events d) (events d0) ∧
  sublist (child_profiles d) (child_profiles d0) ∧
  application_data d = application_data d0.

(** ** Further families used in examples *)

Definition second_child_row : Profile :=
  {| ProfileId := "D";
     Hierarchy := Some {| IsParent := false; ParentProfileID := "P";
                          ListProfile := true; ChildProfiles := [] |};
     IdentityAttributes := ∅;
     Traits := {[ "c" := AInt 3 ]};
     ApplicationDataOf := [] |}.

(** Parent ["P"] with the two children ["C"] and ["D"]. *)
Definition siblings_db : DB :=
  {| profiles := [parent_row; child_row; second_child_row];
     application_data := [("P", {| AppId := "x"; AppSpecificData := ∅ |})];
     child_profiles := [("P", {| ChildProfileId := "C"; RuleName := "email" |});
                        ("P", {| ChildProfileId := "D"; RuleName := "phone" |})];
     events := [Event.mk "P" "login"; Event.mk "C" "page_view";
                Event.mk "D" "page_view"] |}.

(** Parent ["P"] without children. *)
Definition solo_db : DB :=
  {| profiles := [parent_row]; application_data := [];
     child_profiles := []; events := [Event.mk "P" "login"] |}.

(** Parent ["P"] whose child list names ["C"], stored, and ["G"], which
    has no row. *)
Definition dangling_db : DB :=
  {| profiles := [parent_row; child_row];
     application_data := [];
     child_profiles := [("P", {| ChildProfileId := "C"; RuleName := "email" |});
                        ("P", {| ChildProfileId := "G"; RuleName := "phone" |})];
     events := [Event.mk "P" "login"] |}.

(** A parent that is hidden from the list endpoints. *)
Definition hidden_row : Profile :=
  {| ProfileId := "H";
     Hierarchy := Some {| IsParent := true; ParentProfileID := "";
                          ListProfile := false; ChildProfiles := [] |};
     IdentityAttributes := ∅;
     Traits := ∅;
     ApplicationDataOf := [] |}.

Definition hidden_db : DB :=
  {| profiles := [parent_row; hidden_row; child_row];
     application_data := [];
     child_profiles := [("P", {| ChildProfileId := "C"; RuleName := "email" |})];
     events := [] |}.

(** * Reasoning about runs *)

Lemma run_bind {A B} (m : M A) (f : A → M B) (w : World) :
  (m ≫= f) w =
  match m w with
  | (Ret a, w') => f a w'
  | (Panic r, w') => (Panic r, w')
  end.
Proof. reflexivity. Qed.

Lemma run_ret {A} (a : A) (w : World) : (mret a : M A) w = (Ret a, w).
Proof. reflexivity. Qed.

Lemma db_logged c b w : db (logged c b w) = db w.
Proof. reflexivity. Qed.

Lemma db_with_db d w : db (with_db d w) = d.
Proof. reflexivity. Qed.

Lemma row_of_ProfileId id rows p : row_of id rows = Some p → ProfileId p = id.
Proof.
  unfold row_of. intros H. apply find_some in H as [_ H].
  by apply String.eqb_eq in H.
Qed.

(** ** Runs without faults *)

Lemma healthy_next_fault w : healthy w = true → next_fault w = false.
Proof.
  unfold healthy, next_fault. destruct (faults w) as [|b f]; [done|].
  simpl. destruct b; [done|]. done.
Qed.

Lemma healthy_logged c b w : healthy w = true → healthy (logged c b w) = true.
Proof.
  unfold healthy. simpl. destruct (faults w) as [|b' f]; [done|].
  simpl. by intros [_ H]%andb_true_iff.
Qed.

Lemma healthy_with_db d w : healthy w = true → healthy (with_db d w) = true.
Proof. done. Qed.

Create HintDb world.
#[local] Hint Resolve healthy_logged healthy_with_db : world.

Lemma tick_healthy c w : healthy w = true → tick c w = (Ret true, logged c true w).
Proof. intros H. unfold tick. by rewrite (healthy_next_fault w H). Qed.

Ltac healthy_call := intros H; rewrite run_bind, (tick_healthy _ _ H); reflexivity.

Lemma GetProfile_healthy id w :
  healthy w = true →
  repo.GetProfile id w =
  (Ret (row_of id (profiles (db w)), None), logged (CGetProfile id) true w).
Proof. unfold repo.GetProfile. healthy_call. Qed.

Lemma FetchApplicationData_healthy id w :
  healthy w = true →
  repo.FetchApplicationData id w =
  (Ret (application_data_of id (db w), None), logged (CFetchApplicationData id) true w).
Proof. unfold repo.FetchApplicationData. healthy_call. Qed.

Lemma FetchChildProfiles_healthy id w :
  healthy w = true →
  repo.FetchChildProfiles id w =
  (Ret (children_of id (db w), None), logged (CFetchChildProfiles id) true w).
Proof. unfold repo.FetchChildProfiles. healthy_call. Qed.

Lemma DeleteProfile_healthy id w :
  healthy w = true →
  repo.DeleteProfile id w =
  (Ret None,
   with_db {| profiles := filter (λ p, ProfileId p ≠ id) (profiles (db w));
              application_data := application_data (db w);
              child_profiles := child_profiles (db w);
              events := events (db w) |}
           (logged (CDeleteProfile id) true w)).
Proof. unfold repo.DeleteProfile. healthy_call. Qed.

Lemma DeleteEventsByProfileId_healthy id w :
  healthy w = true →
  repo.DeleteEventsByProfileId id w =
  (Ret None,
   with_db {| profiles := profiles (db w);
              application_data := application_data (db w);
              child_profiles := child_profiles (db w);
              events := filter (λ e, Event.ProfileId e ≠ id) (events (db w)) |}
           (logged (CDeleteEventsByProfileId id) true w)).
Proof. unfold repo.DeleteEventsByProfileId. healthy_call. Qed.

(** Symbolic execution of a run without faults. *)
Ltac run :=
  repeat first
    [ rewrite run_ret
    | rewrite run_bind
    | rewrite GetProfile_healthy by eauto 30 with world
    | rewrite FetchApplicationData_healthy by eauto 30 with world
    | rewrite FetchChildProfiles_healthy by eauto 30 with world
    | rewrite DeleteProfile_healthy by eauto 30 with world
    | rewrite DeleteEventsByProfileId_healthy by eauto 30 with world
    | rewrite db_logged
    | rewrite db_with_db
    | progress cbn [deref set_ApplicationData set_ProfileId set_Hierarchy
                    set_ChildProfiles set_ParentProfileID
                    ProfileId Hierarchy IdentityAttributes Traits ApplicationDataOf
                    IsParent ParentProfileID ListProfile ChildProfiles
                    profiles application_data child_profiles events fst snd]
    | progress cbn beta iota zeta ].

Lemma parent_of_Some d C P :
  parent_of d C = Some P →
  ∃ row h, row_of C (profiles d) = Some row ∧ Hierarchy row = Some h ∧
           IsParent h = false ∧ ParentProfileID h = P.
Proof.
  unfold parent_of. destruct (row_of C (profiles d)) as [row|]; [|done].
  destruct (Hierarchy row) as [h|] eqn:Hh; [|done].
  destruct (IsParent h) eqn:Hp; [done|]. intros [= <-]. by exists row, h.
Qed.

Lemma is_stored_parent_true d P :
  is_stored_parent d P = true →
  ∃ row h, row_of P (profiles d) = Some row ∧ Hierarchy row = Some h ∧
           IsParent h = true.
Proof.
  unfold is_stored_parent. destruct (row_of P (profiles d)) as [row|]; [|done].
  destruct (Hierarchy row) as [h|] eqn:Hh; [|done]. intros H. by exists row, h.
Qed.

(** C1: for a stored child [C] whose [parentProfileId] names the stored
    parent [P], [GetProfile C] returns a profile that carries the
    identifier [C], the parent's traits, identity attributes and
    application data (and child list), and [P] as its [parentProfileId];
    the tables are left as they were and only read calls are issued. *)
Theorem GetProfile_merge_transparency (w : World) (C P : string) :
  healthy w = true →
  parent_of (db w) C = Some P →
  is_stored_parent (db w) P = true →
  ∃ prow view vh w',
    row_of P (profiles (db w)) = Some prow ∧
    GetProfile C w = (Ret (Some view, None), w') ∧
    ProfileId view = C ∧
    Traits view = Traits prow ∧
    IdentityAttributes view = IdentityAttributes prow ∧
    ApplicationDataOf view = application_data_of P (db w) ∧
    Hierarchy view = Some vh ∧
    ParentProfileID vh = P ∧
    ChildProfiles vh = children_of P (db w) ∧
    db w' = db w ∧
    grows (λ e, is_read (call e) = true) w w'.
Proof.
  intros Hw (crow & ch & Hc & Hch & Hnp & Hpp)%parent_of_Some
         (prow & ph & Hp & Hph & _)%is_stored_parent_true.
  pose proof (row_of_ProfileId _ _ _ Hc) as HcId.
  pose proof (row_of_ProfileId _ _ _ Hp) as HpId.
  exists prow. unfold GetProfile.
  run. rewrite Hc. run. rewrite Hch. run. rewrite Hnp, Hpp. run.
  rewrite Hp. run. rewrite Hph. run.
  eexists _, _, _. split; [done|]. split; [reflexivity|].
  rewrite HpId. repeat split; try done.
  eexists. split. { cbn. rewrite <- !app_assoc. reflexivity. }
  repeat constructor.
Qed.

Lemma GetProfile_merge_transparency_witness :
  healthy family = true ∧
  parent_of (db family) "C" = Some "P" ∧
  is_stored_parent (db family) "P" = true ∧
  ∃ prow view vh w',
    row_of "P" (profiles (db family)) = Some prow ∧
    GetProfile "C" family = (Ret (Some view, None), w') ∧
    ProfileId view = "C" ∧
    Traits view = Traits prow ∧
    IdentityAttributes view = IdentityAttributes prow ∧
    ApplicationDataOf view = application_data_of "P" (db family) ∧
    Hierarchy view = Some vh ∧
    ParentProfileID vh = "P" ∧
    ChildProfiles vh = children_of "P" (db family) ∧
    db w' = db family ∧
    grows (λ e, is_read (call e) = true) family w'.
Proof.
  split; [reflexivity|]. split; [reflexivity|]. split; [reflexivity|].
  apply (GetProfile_merge_transparency family "C" "P"); reflexivity.
Defined.

(** ** Triples that hold in every run, faults and panics included *)

Lemma grows_refl E w : grows E w w.
Proof. exists []. by rewrite app_nil_r. Qed.

Lemma grows_trans E w1 w2 w3 : grows E w1 w2 → grows E w2 w3 → grows E w1 w3.
Proof.
  intros (n1 & H1 & F1) (n2 & H2 & F2). exists (n1 ++ n2). split.
  - by rewrite H2, H1, app_assoc.
  - by apply Forall_app.
Qed.

Lemma grows_logged (E : Entry → Prop) c b w :
  E {| call := c; ok := b; before := db w |} → grows E w (logged c b w).
Proof. intros H. eexists. split; [reflexivity|]. by constructor. Qed.

Lemma grows_impl (E E' : Entry → Prop) w w' :
  (∀ e, E e → E' e) → grows E w w' → grows E' w w'.
Proof.
  intros HE (new & Ht & HF). exists new. split; [done|].
  eapply Forall_impl; eauto.
Qed.

Section Hoare.
Context {A B : Type} (P : DB → Prop) (E : Entry → Prop).

Lemma hoare_ret (a : A) (Q : Res A → DB → Prop) :
  (∀ d, P d → Q (Ret a) d) → hoare P E (mret a) Q.
Proof. intros H w Hw. split; [by apply H | apply grows_refl]. Qed.

Lemma hoare_panic (s : string) (Q : Res A → DB → Prop) :
  (∀ d, P d → Q (Panic s) d) → hoare P E (panic s) Q.
Proof. intros H w Hw. split; [by apply H | apply grows_refl]. Qed.

Lemma hoare_bind (m : M A) (f : A → M B) (Q1 : Res A → DB → Prop)
    (Q : Res B → DB → Prop) :
  hoare P E m Q1 →
  (∀ a, hoare (Q1 (Ret a)) E (f a) Q) →
  (∀ s d, Q1 (Panic s) d → Q (Panic s) d) →
  hoare P E (m ≫= f) Q.
Proof.
  intros Hm Hf Hp w Hw. rewrite run_bind.
  destruct (Hm w Hw) as [H1 G1]. destruct (m w) as [[a|s] w1]; simpl in *.
  - destruct (Hf a w1 H1) as [H2 G2]. split; [done|]. by eapply grows_trans.
  - split; [by apply Hp | done].
Qed.

Lemma hoare_pre (P' : DB → Prop) (m : M A) (Q : Res A → DB → Prop) :
  (∀ d, P d → P' d) → hoare P' E m Q → hoare P E m Q.
Proof. intros HP H w Hw. apply H. by apply HP. Qed.

Lemma hoare_post (m : M A) (Q Q' : Res A → DB → Prop) :
  hoare P E m Q → (∀ r d, Q r d → Q' r d) → hoare P E m Q'.
Proof. intros H HQ w Hw. destruct (H w Hw). split; [by apply HQ | done]. Qed.

Lemma hoare_trace (E' : Entry → Prop) (m : M A) (Q : Res A → DB → Prop) :
  (∀ e, E' e → E e) → hoare P E' m Q → hoare P E m Q.
Proof.
  intros HE H w Hw. destruct (H w Hw) as [HQ HG]. split; [done|].
  by eapply grows_impl.
Qed.

End Hoare.

(** The collaborators keep any invariant [P] of the tables that their own
    update keeps, and log one call. *)
Section Collaborators.
Context (P : DB → Prop) (E : Entry → Prop).

Lemma hoare_tick c : admits P E c → hoare P E (tick c) (λ _, P).
Proof. intros H w Hw. split; [done|]. apply grows_logged. by apply H. Qed.

Lemma hoare_deref {A} (p : option A) : hoare P E (deref p) (λ _, P).
Proof. destruct p; [by apply hoare_ret | by apply hoare_panic]. Qed.

Lemma hoare_Sleep : admits P E CSleep → hoare P E Sleep (λ _, P).
Proof.
  intros H w Hw. split; [done|]. eexists. split; [reflexivity|].
  constructor; [|done]. by apply H.
Qed.

Ltac one_call H :=
  intros w Hw; rewrite run_bind; unfold tick;
  destruct (negb (next_fault w)); (split; [|by apply grows_logged, H]).

Lemma hoare_GetProfile id :
  admits P E (CGetProfile id) → hoare P E (repo.GetProfile id) (λ _, P).
Proof. intros H. unfold repo.GetProfile. one_call H; done. Qed.

Lemma hoare_FetchApplicationData id :
  admits P E (CFetchApplicationData id) →
  hoare P E (repo.FetchApplicationData id) (λ _, P).
Proof. intros H. unfold repo.FetchApplicationData. one_call H; done. Qed.

Lemma hoare_FetchChildProfiles id :
  admits P E (CFetchChildProfiles id) →
  hoare P E (repo.FetchChildProfiles id) (λ _, P).
Proof. intros H. unfold repo.FetchChildProfiles. one_call H; done. Qed.

Lemma hoare_GetAllProfiles :
  admits P E CGetAllProfiles → hoare P E repo.GetAllProfiles (λ _, P).
Proof. intros H. unfold repo.GetAllProfiles. one_call H; done. Qed.

Lemma hoare_DeleteProfile id :
  admits P E (CDeleteProfile id) →
  (∀ d, P d → P {| profiles := filter (λ p, ProfileId p ≠ id) (profiles d);
                   application_data := application_data d;
                   child_profiles := child_profiles d; events := events d |}) →
  hoare P E (repo.DeleteProfile id) (λ _, P).
Proof.
  intros H HP. unfold repo.DeleteProfile. one_call H; [|done]. by apply HP.
Qed.

Lemma hoare_DetachChildProfileFromParent parent child :
  admits P E (CDetachChildProfileFromParent parent child) →
  (∀ d, P d → P {| profiles := profiles d;
                   application_data := application_data d;
                   child_profiles :=
                     filter (λ r, ¬ (r.1 = parent ∧ ChildProfileId r.2 = child))
                            (child_profiles d);
                   events := events d |}) →
  hoare P E (repo.DetachChildProfileFromParent parent child) (λ _, P).
Proof.
  intros H HP. unfold repo.DetachChildProfileFromParent. one_call H; [|done].
  by apply HP.
Qed.

End Collaborators.

Lemma events_of_purged id d :
  events_of id {| profiles := profiles d;
                  application_data := application_data d;
                  child_profiles := child_profiles d;
                  events := filter (λ e, Event.ProfileId e ≠ id) (events d) |} = [].
Proof.
  unfold events_of. simpl.
  induction (events d) as [|e l IH]; [done|].
  rewrite filter_cons. case_decide; [|done].
  rewrite filter_cons. case_decide; [done|]. apply IH.
Qed.

(** The event store forgets the identifier when the deletion succeeds. *)
Lemma hoare_DeleteEventsByProfileId (E : Entry → Prop) id :
  (∀ d b, E {| call := CDeleteEventsByProfileId id; ok := b; before := d |}) →
  hoare (λ _, True) E (repo.DeleteEventsByProfileId id)
        (λ r d, r = Ret None → events_of id d = []).
Proof.
  intros H w _. unfold repo.DeleteEventsByProfileId. rewrite run_bind. unfold tick.
  destruct (negb (next_fault w)); (split; [|by apply grows_logged, H]); simpl.
  - intros _. apply events_of_purged.
  - discriminate.
Qed.

(** One step of a syntax-directed proof of a triple. *)
Ltac hoare_step :=
  lazymatch goal with
  | |- hoare _ _ (mret _) _ => apply hoare_ret; intros
  | |- hoare _ _ (panic _) _ => apply hoare_panic; intros
  | |- hoare _ _ (deref _) _ => apply hoare_deref
  | |- hoare _ _ (repo.GetProfile _ ≫= _) _ =>
      eapply hoare_bind; [apply hoare_GetProfile | intros [? ?] | intros ]
  | |- hoare _ _ (repo.FetchChildProfiles _ ≫= _) _ =>
      eapply hoare_bind; [apply hoare_FetchChildProfiles | intros [? ?] | intros ]
  | |- hoare _ _ (repo.FetchApplicationData _ ≫= _) _ =>
      eapply hoare_bind; [apply hoare_FetchApplicationData | intros [? ?] | intros ]
  | |- hoare _ _ (repo.DeleteProfile _ ≫= _) _ =>
      eapply hoare_bind; [apply hoare_DeleteProfile | intros ? | intros ]
  | |- hoare _ _ (repo.DetachChildProfileFromParent _ _ ≫= _) _ =>
      eapply hoare_bind; [apply hoare_DetachChildProfileFromParent | intros ? | intros ]
  | |- hoare _ _ (deref _ ≫= _) _ =>
      eapply hoare_bind; [apply hoare_deref | intros ? | intros ]
  | |- hoare _ _ ((if ?b then _ else _) ≫= _) _ => destruct b eqn:?
  | |- hoare _ _ (match ?x with _ => _ end) _ => destruct x eqn:?
  end.

Ltac side := try (unfold admits; intros; simpl in *; auto; done).

Lemma deleteChildProfiles_purged id children :
  hoare (λ d, events_of id d = []) (λ e, events_of id (before e) = [])
        (deleteChildProfiles children) (λ _ d, events_of id d = []).
Proof.
  induction children as [|c rest IH]; cbn [deleteChildProfiles].
  - by apply hoare_ret.
  - repeat (hoare_step; side). all: try apply IH. all: side.
Qed.

(** X29: in every execution of [DeleteProfile id], faults and panics
    included, whatever row deletion is issued (the target, a cascaded
    child, the parent of an only child) is issued on tables that hold no
    event of the requested identifier [id] any more. *)
Theorem DeleteProfile_purges_target_events_first (id : string) (w : World) :
  grows (target_events_purged id) w (DeleteProfile id w).2.
Proof.
  cut (hoare (λ _, True) (target_events_purged id) (DeleteProfile id) (λ _ _, True)).
  { intros H. by apply H. }
  unfold DeleteProfile.
  eapply hoare_bind;
    [apply hoare_GetProfile; intros d b _ x; discriminate
    | intros [profile err] | done].
  destruct profile as [profile|]; [|by apply hoare_ret].
  destruct err; [by apply hoare_ret|].
  eapply hoare_bind;
    [apply hoare_DeleteEventsByProfileId; intros d b x; discriminate
    | intros err | done].
  destruct err; [by apply hoare_ret|].
  apply (hoare_pre _ _ (λ d, events_of id d = [])); [by auto|].
  apply (hoare_trace _ _ (λ e, events_of id (before e) = [])); [by intros e He x _|].
  eapply hoare_bind; [apply hoare_deref| intros h | done].
  eapply hoare_bind with (Q1 := λ _ d, events_of id d = []); [| intros h' | done].
  { destruct (IsParent h); [|by apply hoare_ret].
    repeat (hoare_step; side). }
  repeat (hoare_step; side).
  all: try (eapply hoare_bind; [apply deleteChildProfiles_purged| intros ? | done]).
  all: repeat (hoare_step; side).
Qed.

(** C4: the events of the cascaded rows are left behind.  Deleting the
    only child ["C"] of ["P"] removes both rows and the event of ["C"],
    and the event of ["P"] stays; deleting the parent ["P"] removes both
    rows and the event of ["P"], and the event of ["C"] stays.  So it is
    not the case that every row [DeleteProfile] deletes has lost its
    events by then. *)
Theorem DeleteProfile_leaves_cascaded_events :
  (∃ w', DeleteProfile "C" family = (Ret None, w') ∧
         row_of "C" (profiles (db w')) = None ∧
         row_of "P" (profiles (db w')) = None ∧
         events_of "C" (db w') = [] ∧
         events_of "P" (db w') = [Event.mk "P" "login"]) ∧
  (∃ w', DeleteProfile "P" family = (Ret None, w') ∧
         row_of "P" (profiles (db w')) = None ∧
         row_of "C" (profiles (db w')) = None ∧
         events_of "P" (db w') = [] ∧
         events_of "C" (db w') = [Event.mk "C" "page_view"]) ∧
  ¬ (∀ id w, grows own_events_purged w (DeleteProfile id w).2).
Proof.
  split; [|split].
  - exists (DeleteProfile "C" family).2. repeat split.
  - exists (DeleteProfile "P" family).2. repeat split.
  - intros H. destruct (H "C" family) as (new & Ht & HF).
    vm_compute in Ht. subst new.
    pose proof (proj1 (Forall_lookup _ _) HF 4%nat _ eq_refl) as H4.
    specialize (H4 "P" eq_refl eq_refl).
    assert (events_of "P" family_db = []) as Hnil.
    { apply H4. by eexists. }
    vm_compute in Hnil. discriminate.
Qed.

(** ** [GetProfile] never writes *)

(** X1: in every run, faults and panics included, [GetProfile] leaves the
    tables as they are and issues read calls only. *)
Lemma GetProfile_read_only id w :
  db (GetProfile id w).2 = db w ∧
  grows (λ e, is_read (call e) = true) w (GetProfile id w).2.
Proof.
  cut (hoare (λ d, d = db w) (λ e, is_read (call e) = true) (GetProfile id)
             (λ _ d, d = db w)).
  { intros H. by apply H. }
  unfold GetProfile. repeat (hoare_step; side).
Qed.

(** ** [GetProfile]: the first fetch *)

Lemma repo_GetProfile_run id w :
  repo.GetProfile id w =
  (Ret (if next_fault w then (None, Some CollaboratorError)
        else (row_of id (profiles (db w)), None)),
   logged (CGetProfile id) (negb (next_fault w)) w).
Proof.
  unfold repo.GetProfile. rewrite run_bind. unfold tick.
  by destruct (next_fault w).
Qed.

(** An absent profile is reported as not found. *)
Lemma GetProfile_absent id w :
  row_of id (profiles (db w)) = None →
  (GetProfile id w).1 = Ret (None, Some (ClientError ErrProfileNotFound StatusNotFound)).
Proof.
  intros H. unfold GetProfile. rewrite run_bind, repo_GetProfile_run, H.
  by destruct (next_fault w).
Qed.

(** So is every failure of the first fetch: its error is dropped. *)
Lemma GetProfile_first_fetch_fails id w :
  next_fault w = true →
  (GetProfile id w).1 = Ret (None, Some (ClientError ErrProfileNotFound StatusNotFound)).
Proof.
  intros H. unfold GetProfile. by rewrite run_bind, repo_GetProfile_run, H.
Qed.

(** C7: the profile ["C"] is stored and the storage collaborator fails on
    the first fetch; [GetProfile] answers with the client-side not-found
    error, not with a server error. *)
Theorem GetProfile_reports_fetch_failure_as_not_found :
  row_of "C" (profiles family_db) = Some child_row ∧
  (repo.GetProfile "C" (world_of family_db [true] [])).1
    = Ret (None, Some CollaboratorError) ∧
  (GetProfile "C" (world_of family_db [true] [])).1
    = Ret (None, Some (ClientError ErrProfileNotFound StatusNotFound)).
Proof. repeat split. Qed.

(** ** [GetProfile]: the parent fetch *)

(** A child whose parent fetch yields no profile makes [GetProfile] panic,
    whether the fetch failed or found nothing. *)
Lemma GetProfile_missing_parent_panics id w row h :
  next_fault w = false →
  row_of id (profiles (db w)) = Some row →
  Hierarchy row = Some h →
  IsParent h = false →
  row_of (ParentProfileID h) (profiles (db w)) = None →
  (GetProfile id w).1 = Panic nil_dereference.
Proof.
  intros Hf Hrow Hh Hp Hnone.
  unfold GetProfile. rewrite run_bind, repo_GetProfile_run, Hf, Hrow.
  cbn beta iota zeta. rewrite Hh, run_bind. cbn [deref]. rewrite run_ret, Hp.
  rewrite run_bind, repo_GetProfile_run, db_logged, Hnone.
  destruct (next_fault (logged _ _ _)); reflexivity.
Qed.

(** C10: the stored child ["C"] names the parent ["P"], which is not
    stored; [GetProfile "C"] ends in a nil-pointer panic instead of a
    value or an error, and so it does when the parent fetch itself
    fails. *)
Theorem GetProfile_orphan_child_panics :
  parent_of orphan_db "C" = Some "P" ∧
  row_of "P" (profiles orphan_db) = None ∧
  (GetProfile "C" (world_of orphan_db [] [])).1 = Panic nil_dereference ∧
  (GetProfile "C" (world_of family_db [false; true] [])).1 = Panic nil_dereference.
Proof. repeat split. Qed.

(** ** The list variants against [GetProfile] *)

(** The list loop never stops on a row whose parent cannot be resolved:
    the row is skipped. *)
Lemma mergeRows_skips_unresolved profile h rest result w :
  Hierarchy profile = Some h →
  IsParent h = false →
  (next_fault w = true ∨ row_of (ParentProfileID h) (profiles (db w)) = None) →
  mergeRows (profile :: rest) result w
  = mergeRows rest result
      (logged (CGetProfile (ParentProfileID h)) (negb (next_fault w)) w).
Proof.
  intros Hh Hp Hno. cbn [mergeRows]. rewrite Hh, run_bind. cbn [deref].
  rewrite run_ret, Hp, run_bind, repo_GetProfile_run.
  destruct (next_fault w) eqn:Hf; [done|].
  destruct Hno as [|Hno]; [done|]. by rewrite Hno.
Qed.

(** Without faults, the row the list loop builds for a child names the
    child itself as parent. *)
Lemma mergeRows_child_row w crow ch prow ph :
  healthy w = true →
  Hierarchy crow = Some ch →
  IsParent ch = false →
  row_of (ParentProfileID ch) (profiles (db w)) = Some prow →
  Hierarchy prow = Some ph →
  ∃ view vh w',
    mergeRows [crow] [] w = (Ret [view], w') ∧
    ProfileId view = ProfileId crow ∧
    Hierarchy view = Some vh ∧
    ParentProfileID vh = ProfileId crow.
Proof.
  intros Hw Hch Hnp Hp Hph. cbn [mergeRows]. rewrite Hch. run.
  rewrite Hnp. run. rewrite Hp. run. rewrite Hph. run.
  by eexists _, _, _.
Qed.

(** C2: on the family of ["P"] and its child ["C"], both list operations
    return for the row of ["C"] a view whose [parentProfileId] is ["C"],
    where [GetProfile "C"] returns ["P"]; the two views differ. *)
Theorem list_variants_name_child_as_parent
    (ParseFloat : string → float64 * option strconv.NumError)
    (FormatFloat : float64 → string) :
  ∃ listed resolved,
    (GetAllProfiles family).1 = Ret ([parent_row; listed], None) ∧
    (GetAllProfilesWithFilter ParseFloat FormatFloat (λ _ _, true) [] family).1
      = Ret ([parent_row; listed], None) ∧
    (GetProfile "C" family).1 = Ret (Some resolved, None) ∧
    ProfileId listed = "C" ∧
    ProfileId resolved = "C" ∧
    ParentProfileID <$> Hierarchy listed = Some "C" ∧
    ParentProfileID <$> Hierarchy resolved = Some "P" ∧
    listed ≠ resolved.
Proof.
  eexists _, _. split; [vm_compute; reflexivity|].
  split; [vm_compute; reflexivity|].
  split; [vm_compute; reflexivity|].
  repeat split. discriminate.
Qed.

(** ** [DeleteProfile] *)

Lemma row_of_filter_self id rows :
  row_of id (filter (λ p, ProfileId p ≠ id) rows) = None.
Proof.
  unfold row_of. induction rows as [|p rows IH]; [done|].
  rewrite filter_cons. case_decide as Hne; [|done].
  simpl. destruct (String.eqb_spec (ProfileId p) id); [done|]. apply IH.
Qed.

Lemma row_of_filter_None id (f : Profile → Prop) `{∀ p, Decision (f p)} rows :
  row_of id rows = None → row_of id (filter f rows) = None.
Proof.
  unfold row_of. induction rows as [|p rows IH]; [done|].
  simpl. destruct (String.eqb (ProfileId p) id) eqn:He; [done|].
  intros Hn. rewrite filter_cons. case_decide; [|by apply IH].
  simpl. rewrite He. by apply IH.
Qed.

Lemma DetachChildProfileFromParent_healthy parent child w :
  healthy w = true →
  repo.DetachChildProfileFromParent parent child w =
  (Ret None,
   with_db {| profiles := profiles (db w);
              application_data := application_data (db w);
              child_profiles :=
                filter (λ r, ¬ (r.1 = parent ∧ ChildProfileId r.2 = child))
                       (child_profiles (db w));
              events := events (db w) |}
           (logged (CDetachChildProfileFromParent parent child) true w)).
Proof. unfold repo.DetachChildProfileFromParent. healthy_call. Qed.

(** Without faults the child loop ends by returning, in a world without
    faults. *)
Lemma deleteChildProfiles_healthy children w :
  healthy w = true →
  ∃ r w', deleteChildProfiles children w = (Ret r, w') ∧ healthy w' = true.
Proof.
  revert w. induction children as [|c rest IH]; intros w Hw; cbn [deleteChildProfiles].
  - by eexists _, _.
  - run. destruct (row_of _ _); run.
    + apply IH. eauto with world.
    + eexists _, _. split; [reflexivity|]. eauto with world.
Qed.

(** Without faults, a [DeleteProfile] that reports success leaves no row
    under the identifier. *)
Lemma DeleteProfile_success_removes id w w1 :
  healthy w = true →
  DeleteProfile id w = (Ret None, w1) →
  row_of id (profiles (db w1)) = None.
Proof.
  intros Hw. unfold DeleteProfile. run.
  destruct (row_of id (profiles (db w))) as [profile|] eqn:Hrow; run.
  2: { intros ?; simplify_eq. by rewrite db_logged. }
  destruct (Hierarchy profile) as [h|]; run; [|done].
  destruct (IsParent h) eqn:Hp; run.
  - destruct (children_of _ _) as [|c cs] eqn:Hc;
      cbn [length Nat.eqb Nat.ltb Nat.leb]; rewrite ?Hp; cbn [andb]; run.
    + intros ?; simplify_eq. apply row_of_filter_self.
    + match goal with |- context [deleteChildProfiles ?l ?w0] =>
        destruct (deleteChildProfiles_healthy l w0) as (r & w' & Hrun & Hw');
        [eauto 30 with world | rewrite Hrun] end.
      destruct r; run; [done|].
      intros ?; simplify_eq. apply row_of_filter_self.
  - rewrite ?Hp. cbn [andb negb]. run.
    destruct (row_of (ParentProfileID h) _) as [parent|]; run; [|done].
    destruct (Hierarchy parent) as [ph|]; run; [|done].
    destruct (Nat.eqb _ 1); run.
    + intros ?; simplify_eq. apply row_of_filter_self.
    + rewrite DetachChildProfileFromParent_healthy by eauto 30 with world. run.
      intros ?; simplify_eq. apply row_of_filter_self.
Qed.

Lemma DeleteProfile_absent id w :
  row_of id (profiles (db w)) = None → delete_is_noop id w.
Proof.
  intros Hrow. unfold delete_is_noop, DeleteProfile.
  rewrite run_bind, repo_GetProfile_run, Hrow.
  exists (logged (CGetProfile id) (negb (next_fault w)) w).
  split; [destruct (next_fault w); reflexivity|]. split; [done|].
  by apply grows_logged.
Qed.

(** C5: [DeleteProfile] on an identifier without a stored profile returns
    nil, leaves the tables as they are and issues no event deletion, no
    profile deletion and no detach; and once a [DeleteProfile] has
    succeeded in removing the profile, deleting the identifier again is
    such a no-op. *)
Theorem DeleteProfile_unknown_is_noop (id : string) (w : World) :
  (row_of id (profiles (db w)) = None → delete_is_noop id w) ∧
  (healthy w = true →
   ∀ w1, DeleteProfile id w = (Ret None, w1) → delete_is_noop id w1).
Proof.
  split; [apply DeleteProfile_absent|].
  intros Hw w1 Hrun. apply DeleteProfile_absent.
  by eapply DeleteProfile_success_removes.
Qed.

Lemma DeleteProfile_unknown_is_noop_witness :
  (row_of "nonexistent" (profiles (db family)) = None ∧
   delete_is_noop "nonexistent" family) ∧
  (healthy family = true ∧
   DeleteProfile "P" family = (Ret None, (DeleteProfile "P" family).2) ∧
   delete_is_noop "P" (DeleteProfile "P" family).2).
Proof.
  split.
  - split; [reflexivity|].
    apply (proj1 (DeleteProfile_unknown_is_noop "nonexistent" family)).
    reflexivity.
  - split; [reflexivity|]. split; [reflexivity|].
    apply (proj2 (DeleteProfile_unknown_is_noop "P" family)); reflexivity.
Defined.

(** C3: when the stored parent [P] has the single child reference [C]
    and [C] is a stored child of [P], [DeleteProfile C] reports success
    and leaves neither the row of [P] nor the row of [C]. *)
Theorem DeleteProfile_only_child_collapses_group
    (w : World) (C P : string) (cref : ChildProfile) :
  healthy w = true →
  parent_of (db w) C = Some P →
  is_stored_parent (db w) P = true →
  children_of P (db w) = [cref] →
  ChildProfileId cref = C →
  ∃ w', DeleteProfile C w = (Ret None, w') ∧
        row_of C (profiles (db w')) = None ∧
        row_of P (profiles (db w')) = None.
Proof.
  intros Hw (crow & ch & Hc & Hch & Hnp & Hpp)%parent_of_Some
         (prow & ph & Hp & Hph & _)%is_stored_parent_true Hkids _.
  pose proof (row_of_ProfileId _ _ _ Hp) as HpId.
  unfold DeleteProfile. run. rewrite Hc. run. rewrite Hch. run.
  rewrite Hnp. run. rewrite Hnp. cbn [andb negb]. run.
  rewrite Hpp, Hp. run. rewrite Hph. run.
  unfold children_of at 1. cbn [child_profiles]. fold (children_of (ProfileId prow) (db w)).
  rewrite HpId, Hkids. cbn [length Nat.eqb]. run.
  eexists. split; [reflexivity|]. rewrite db_with_db. cbn [profiles].
  split; [apply row_of_filter_self|].
  apply row_of_filter_None, row_of_filter_self.
Qed.

Lemma DeleteProfile_only_child_collapses_group_witness :
  healthy family = true ∧
  parent_of (db family) "C" = Some "P" ∧
  is_stored_parent (db family) "P" = true ∧
  children_of "P" (db family) = [ {| ChildProfileId := "C"; RuleName := "email" |} ] ∧
  ∃ w', DeleteProfile "C" family = (Ret None, w') ∧
        row_of "C" (profiles (db w')) = None ∧
        row_of "P" (profiles (db w')) = None.
Proof.
  split; [reflexivity|]. split; [reflexivity|]. split; [reflexivity|].
  split; [reflexivity|].
  apply (DeleteProfile_only_child_collapses_group family "C" "P"
           {| ChildProfileId := "C"; RuleName := "email" |}); reflexivity.
Defined.

(** ** [CreateOrUpdateProfile]: the lock *)

(** When the lock is denied the retry loop ends with [acquired = false],
    possibly with the error of a broken attempt, and has only talked to
    the lock and the clock. *)
Lemma acquireWithRetry_denied n event w :
  lock_denied n (lock_answers w) = true →
  ∃ oe w',
    acquireWithRetry n event w = (Ret (false, oe), w') ∧
    match oe with
    | Some e => is_lock_acquisition_error e
    | None => True
    end ∧
    db w' = db w ∧
    grows (λ e, touches_storage (call e) = false) w w'.
Proof.
  revert w. induction n as [|n IH]; intros w Hd; cbn [acquireWithRetry].
  - eexists _, _. split; [reflexivity|]. repeat split. apply grows_refl.
  - cbn [lock_denied] in Hd. rewrite run_bind. unfold lock.Acquire.
    destruct (lock_answers w) as [|[| |] rest] eqn:Ha; try done.
    + (* Busy: sleep, then try again *)
      cbn beta iota zeta. rewrite run_bind. cbn [Sleep].
      match goal with |- context [acquireWithRetry n event ?w0] =>
        destruct (IH w0) as (oe & w' & Hrun & Hoe & Hdb & Hg); [done|];
        rewrite Hrun end.
      exists oe, w'. split; [done|]. split; [done|]. split; [done|].
      eapply grows_trans; [|exact Hg].
      eexists. split; [cbn; rewrite <- app_assoc; reflexivity|].
      by repeat constructor.
    + (* Broken: the attempt reports an error *)
      eexists _, _. split; [reflexivity|]. split; [by left|]. split; [done|].
      eexists. split; [reflexivity|]. by repeat constructor.
Qed.

(** C6: once the session is obtained, if the lock on [event.profileId] is
    not granted within [MaxRetryAttempts] attempts then
    [CreateOrUpdateProfile] returns a lock-acquisition error, the tables
    are unchanged, and no call reached the repositories (no upsert, no
    read). *)
Theorem CreateOrUpdateProfile_lock_denied
    (MaxRetryAttempts : Z) (event : Event.t) (w : World) :
  next_fault w = false →
  lock_denied (Z.to_nat MaxRetryAttempts) (lock_answers w) = true →
  ∃ e w',
    CreateOrUpdateProfile MaxRetryAttempts event w = (Ret (None, Some e), w') ∧
    is_lock_acquisition_error e ∧
    db w' = db w ∧
    grows (λ en, touches_storage (call en) = false) w w'.
Proof.
  intros Hf Hd. unfold CreateOrUpdateProfile.
  rewrite run_bind. unfold tick at 1. rewrite Hf. cbn [negb]. unfold defer.
  destruct (acquireWithRetry_denied (Z.to_nat MaxRetryAttempts) event
              (logged CConn true w) Hd) as (oe & w1 & Hrun & Hoe & Hdb & Hg).
  rewrite run_bind, Hrun. cbn beta iota zeta.
  assert (grows (λ en, touches_storage (call en) = false) w
                (tick CConnClose w1).2) as Hgrows.
  { eapply grows_trans; [by apply (grows_logged _ CConn true w)|].
    eapply grows_trans; [exact Hg|]. by apply grows_logged. }
  destruct oe as [e|].
  - exists e. eexists. split; [reflexivity|]. split; [done|]. split; [|done].
    by rewrite <- (db_logged CConn true w), <- Hdb.
  - eexists _, _. split; [reflexivity|]. split; [by right|]. split; [|done].
    by rewrite <- (db_logged CConn true w), <- Hdb.
Qed.

Lemma CreateOrUpdateProfile_lock_denied_witness :
  next_fault (world_of family_db [] [Busy; Busy; Busy]) = false ∧
  lock_denied (Z.to_nat 3) (lock_answers (world_of family_db [] [Busy; Busy; Busy])) = true ∧
  ∃ e w',
    CreateOrUpdateProfile 3 (Event.mk "N" "identify")
      (world_of family_db [] [Busy; Busy; Busy]) = (Ret (None, Some e), w') ∧
    is_lock_acquisition_error e ∧
    db w' = db (world_of family_db [] [Busy; Busy; Busy]) ∧
    grows (λ en, touches_storage (call en) = false)
          (world_of family_db [] [Busy; Busy; Busy]) w'.
Proof.
  split; [reflexivity|]. split; [reflexivity|].
  apply (CreateOrUpdateProfile_lock_denied 3 (Event.mk "N" "identify")
           (world_of family_db [] [Busy; Busy; Busy])); reflexivity.
Defined.

(** ** The filter translator: splitting *)

Lemma cut_space_spaces s :
  match cut_space s with
  | Some (a, rest) => spaces s = S (spaces rest) ∧ spaces a = O
  | None => spaces s = O
  end.
Proof.
  induction s as [|c s IH]; [done|].
  cbn [cut_space spaces]. destruct (Ascii.eqb c " ") eqn:Hc; [done|].
  destruct (cut_space s) as [[a rest]|]; [|done].
  cbn [spaces]. by rewrite Hc.
Qed.

(** [SplitN] cuts at the first [n - 1] spaces and no further. *)
Lemma length_SplitN s n : length (SplitN s n) = Nat.min n (S (spaces s)).
Proof.
  revert s. induction n as [|n IH]; intros s; [done|].
  cbn [SplitN]. destruct n as [|n]; [done|].
  pose proof (cut_space_spaces s) as Hs.
  destruct (cut_space s) as [[a rest]|].
  - destruct Hs as [-> _]. cbn [length]. rewrite IH. lia.
  - rewrite Hs. cbn [length]. lia.
Qed.

Lemma spaces_le_length s : (spaces s ≤ String.length s)%nat.
Proof.
  induction s as [|c s IH]; [done|]. cbn [spaces String.length].
  destruct (Ascii.eqb c " "); lia.
Qed.

Lemma length_Split s : length (Split s) = S (spaces s).
Proof.
  unfold Split. rewrite length_SplitN. pose proof (spaces_le_length s). lia.
Qed.

(** ** [strings.SplitN]: nothing is lost *)

Lemma cut_space_Some s a b :
  cut_space s = Some (a, b) → s = a +:+ String " " b.
Proof.
  revert a. induction s as [|c s IH]; intros a; [done|].
  cbn [cut_space]. destruct (Ascii.eqb_spec c " ") as [->|Hc].
  - intros ?; simplify_eq. done.
  - destruct (cut_space s) as [[a' b']|]; [|done].
    intros ?; simplify_eq. change (String c a' +:+ String " " b) with (String c (a' +:+ String " " b)).
    f_equal. by apply IH.
Qed.

Lemma SplitN_nonempty s n : (0 < n)%nat → SplitN s n ≠ [].
Proof.
  destruct n as [|[|n]]; [lia|done|]. intros _. cbn [SplitN].
  by destruct (cut_space s) as [[a rest]|].
Qed.

(** Joining the parts with a space gives the text back. *)
Lemma SplitN_concat (n : nat) : ∀ s,
  (0 < n)%nat → String.concat " " (SplitN s n) = s.
Proof.
  induction n as [|n IH]; intros s Hn; [lia|].
  cbn [SplitN]. destruct n as [|n]; [done|].
  destruct (cut_space s) as [[a rest]|] eqn:Hcut; [|done].
  pose proof (SplitN_nonempty rest (S n) ltac:(lia)) as Hne.
  specialize (IH rest ltac:(lia)).
  destruct (SplitN rest (S n)) as [|b l] eqn:Hsp; [done|].
  cbn [String.concat]. cbn [String.concat] in IH. rewrite IH.
  symmetry. by apply cut_space_Some.
Qed.

(** Only the last part can hold a space. *)
Lemma SplitN_inner_parts (n : nat) : ∀ s i part,
  (S i < length (SplitN s n))%nat →
  SplitN s n !! i = Some part → spaces part = O.
Proof.
  induction n as [|n IH]; intros s i part; [done|].
  cbn [SplitN]. destruct n as [|n]; [cbn; lia|].
  pose proof (cut_space_spaces s) as Hs.
  destruct (cut_space s) as [[a rest]|]; [|cbn; lia].
  destruct i as [|i]; cbn [length lookup list_lookup].
  - intros _ ?; simplify_eq. by destruct Hs.
  - intros Hlen Hi. apply (IH rest i part); [lia|done].
Qed.

Section FilterFacts.
Context (ParseFloat : string → float64 * option strconv.NumError)
        (FormatFloat : float64 → string).

Lemma rewriteFilter_Some_iff pt f :
  is_Some (rewriteFilter ParseFloat FormatFloat pt f) ↔ length (SplitN f 3) = 3%nat.
Proof.
  unfold rewriteFilter.
  destruct (SplitN f 3) as [|a [|b [|c [|d l]]]]; cbn [length];
    split; intros H; try done; try by destruct H.
Qed.

Lemma rewriteFilters_omap pt fs acc :
  rewriteFilters ParseFloat FormatFloat pt fs acc = acc ++ omap (rewriteFilter ParseFloat FormatFloat pt) fs.
Proof.
  revert acc. induction fs as [|f fs IH]; intros acc; cbn [rewriteFilters omap list_omap].
  - by rewrite app_nil_r.
  - destruct (rewriteFilter ParseFloat FormatFloat pt f) as [u|]; rewrite IH; [|done].
    by rewrite <- app_assoc.
Qed.

(** The third part is the whole remainder: a raw value may hold spaces. *)
Lemma SplitN_three field operator rawValue :
  spaces field = O → spaces operator = O →
  SplitN (field +:+ " " +:+ operator +:+ " " +:+ rawValue) 3
  = [field; operator; rawValue].
Proof.
  assert (∀ a b, spaces a = O → cut_space (a +:+ String " " b) = Some (a, b)) as Hcut.
  { induction a as [|c a IH]; intros b Ha; [done|].
    cbn [spaces] in Ha.
    change (cut_space (String c (a +:+ String " " b)) = Some (String c a, b)).
    cbn [cut_space].
    destruct (Ascii.eqb c " "); [done|]. by rewrite (IH b Ha). }
  intros Hf Ho. cbn [SplitN].
  change (" " +:+ operator +:+ " " +:+ rawValue)
    with (String " " (operator +:+ String " " rawValue)).
  by rewrite (Hcut field _ Hf), (Hcut operator _ Ho).
Qed.

(** A filter of three parts is cut at its first two spaces. *)
Lemma SplitN_3_cut f :
  length (SplitN f 3) = 3%nat →
  ∃ field operator rawValue,
    SplitN f 3 = [field; operator; rawValue] ∧
    f = field +:+ " " +:+ operator +:+ " " +:+ rawValue ∧
    spaces field = O ∧ spaces operator = O.
Proof.
  intros Hlen.
  pose proof (SplitN_concat 3 f ltac:(lia)) as Hjoin.
  pose proof (SplitN_inner_parts 3 f) as Hsp.
  destruct (SplitN f 3) as [|a [|b [|c [|x l]]]]; try done.
  exists a, b, c. split; [done|]. split; [by rewrite <- Hjoin|]. split.
  - apply (Hsp 0%nat a); [cbn; lia|done].
  - apply (Hsp 1%nat b); [cbn; lia|done].
Qed.

(** C8, as amended: a filter contributes a translated predicate exactly
    when it has at least three space-separated tokens (at least two
    spaces).  Such a filter is cut at its first two spaces into field,
    operator and raw value, the field and the operator holding no space
    and the raw value being the whole remainder; its translation is the
    field, the operator and the value converted by the type declared for
    the field and printed with [%v], joined by single spaces.  Filters
    with fewer tokens are dropped, and the kept ones are translated one by
    one, in order. *)
Theorem rewriteFilter_kept_iff_three_or_more_tokens
    (propertyTypeMap : gmap string string) :
  (∀ f, is_Some (rewriteFilter ParseFloat FormatFloat propertyTypeMap f)
        ↔ (3 ≤ length (Split f))%nat) ∧
  (∀ f, (3 ≤ length (Split f))%nat →
        ∃ field operator rawValue,
          f = field +:+ " " +:+ operator +:+ " " +:+ rawValue ∧
          spaces field = O ∧ spaces operator = O) ∧
  (∀ field operator rawValue,
     spaces field = O → spaces operator = O →
     rewriteFilter ParseFloat FormatFloat propertyTypeMap
       (field +:+ " " +:+ operator +:+ " " +:+ rawValue)
     = Some (field +:+ " " +:+ operator +:+ " " +:+
             Sprintf_v FormatFloat
               (parseTypedValueForFilters ParseFloat
                  (default "" (propertyTypeMap !! field)) rawValue))) ∧
  (∀ filters,
     rewriteFilters ParseFloat FormatFloat propertyTypeMap filters []
     = omap (rewriteFilter ParseFloat FormatFloat propertyTypeMap) filters).
Proof.
  split; [|split; [|split]].
  - intros f. rewrite rewriteFilter_Some_iff, length_SplitN, length_Split. lia.
  - intros f Hf.
    destruct (SplitN_3_cut f) as (field & operator & rawValue & _ & Hcut).
    { rewrite length_SplitN. rewrite length_Split in Hf. lia. }
    by exists field, operator, rawValue.
  - intros field operator rawValue Hfield Hop. unfold rewriteFilter.
    rewrite (SplitN_three field operator rawValue Hfield Hop).
    by destruct (parseTypedValueForFilters _ _ _).
  - intros filters. by rewrite rewriteFilters_omap.
Qed.

End FilterFacts.

(** C8, as stated, fails: ["age > 30 40"] has four tokens and is
    translated all the same, with ["30 40"] as its raw value. *)
Lemma rewriteFilter_keeps_four_tokens :
  ¬ (∀ (ParseFloat : string → float64 * option strconv.NumError)
       (FormatFloat : float64 → string)
       (propertyTypeMap : gmap string string) (f : string),
       is_Some (rewriteFilter ParseFloat FormatFloat propertyTypeMap f)
       ↔ length (Split f) = 3%nat).
Proof.
  intros H.
  specialize (H (λ _, (Float64frombits 0, None)) (λ _, "") ∅ "age > 30 40").
  destruct H as [H _].
  assert (length (Split "age > 30 40") = 3%nat) as Hlen.
  { apply H. by exists "age > 30 40". }
  vm_compute in Hlen. discriminate.
Qed.

(** ** The filter translator: typed values *)

Lemma ParseUint_from_error s n :
  match strconv.ParseUint_from s n with
  | (v, Some strconv.ErrSyntax) => v = 0
  | (v, Some strconv.ErrRange) => v = strconv.maxUint64
  | (_, None) => True
  end.
Proof.
  revert n. induction s as [|ch s IH]; intros n; [done|].
  cbn [strconv.ParseUint_from]. cbv zeta.
  destruct (if _ : bool then _ else _) as [d|]; [|done].
  destruct (10 <=? d); [done|].
  destruct (_ <=? n); [done|].
  destruct (_ || _); [done|]. apply IH.
Qed.

Lemma ParseInt_error s :
  match strconv.ParseInt s with
  | (v, Some strconv.ErrSyntax) => v = 0
  | (v, Some strconv.ErrRange) => v = 2 ^ 63 - 1 ∨ v = - 2 ^ 63
  | (_, None) => True
  end.
Proof.
  unfold strconv.ParseInt. destruct s as [|s0 tl]; [done|]. cbv zeta.
  destruct (strconv.ParseUint _) as [v [[|]|]]; [done| |];
    (destruct (negb _ && _); [by left|]; destruct (_ && _); [by right|]; done).
Qed.

(** Whatever [Atoi] rejects as a syntax error it reads as zero; whatever
    it rejects as out of range it reads as the nearest bound of
    [int64]. *)
Lemma Atoi_error s :
  match strconv.Atoi s with
  | (v, Some strconv.ErrSyntax) => v = 0
  | (v, Some strconv.ErrRange) => v = 2 ^ 63 - 1 ∨ v = - 2 ^ 63
  | (_, None) => True
  end.
Proof.
  unfold strconv.Atoi. cbv zeta.
  destruct (_ && _); [|apply ParseInt_error].
  destruct s as [|s0 tl]; [done|].
  destruct (_ && _); [done|].
  by destruct (strconv.Atoi_digits _ 0).
Qed.

Lemma digit_cases d : 0 ≤ d ≤ 9 →
  d = 0 ∨ d = 1 ∨ d = 2 ∨ d = 3 ∨ d = 4 ∨ d = 5 ∨ d = 6 ∨ d = 7 ∨ d = 8 ∨ d = 9.
Proof. lia. Qed.

Lemma byte_digit_char d : 0 ≤ d ≤ 9 → strconv.byte (digit_char d) = 48 + d.
Proof. intros H. destruct (digit_cases d H) as [->|[->|[->|[->|[->|[->|[->|[->|[->| ->]]]]]]]]]; reflexivity. Qed.

Lemma digit_char_unsigned d :
  0 ≤ d ≤ 9 → Ascii.eqb (digit_char d) "-" = false ∧ Ascii.eqb (digit_char d) "+" = false.
Proof. intros H. destruct (digit_cases d H) as [->|[->|[->|[->|[->|[->|[->|[->|[->| ->]]]]]]]]]; split; reflexivity. Qed.

Lemma decimal_from_ge ds n : Forall (λ d, 0 ≤ d ≤ 9) ds → 0 ≤ n → n ≤ decimal_from ds n.
Proof.
  intros Hd. revert n. induction Hd as [|d ds Hd0 Hds IH]; intros n Hn; [done|].
  cbn [decimal_from fold_left]. specialize (IH (10 * n + d)).
  unfold decimal_from in IH. lia.
Qed.

Lemma length_digits_text ds : String.length (digits_text ds) = length ds.
Proof. induction ds as [|d ds IH]; [done|]. cbn. by rewrite IH. Qed.

Lemma ParseUint_from_digits ds n :
  Forall (λ d, 0 ≤ d ≤ 9) ds → 0 ≤ n → decimal_from ds n ≤ strconv.maxUint64 →
  strconv.ParseUint_from (digits_text ds) n = (decimal_from ds n, None).
Proof.
  intros Hd. revert n. induction Hd as [|d ds Hd0 Hds IH]; intros n Hn Hmax; [done|].
  cbn [digits_text strconv.ParseUint_from]. cbv zeta.
  rewrite (byte_digit_char d Hd0).
  change (decimal_from (d :: ds) n) with (decimal_from ds (10 * n + d)) in *.
  pose proof (decimal_from_ge ds (10 * n + d) Hds ltac:(lia)) as Hge.
  unfold strconv.maxUint64 in *.
  replace ((48 <=? 48 + d) && (48 + d <=? 57)) with true
    by (symmetry; apply andb_true_iff; split; apply Z.leb_le; lia).
  replace (48 + d - 48) with d by lia.
  replace (10 <=? d) with false by (symmetry; apply Z.leb_gt; lia).
  replace ((2 ^ 64 - 1) / 10 + 1 <=? n) with false.
  2: { symmetry. apply Z.leb_gt. change ((2 ^ 64 - 1) / 10 + 1) with 1844674407370955162. lia. }
  unfold strconv.uint64.
  rewrite (Z.mod_small (n * 10)) by lia.
  rewrite (Z.mod_small (n * 10 + d)) by lia.
  replace ((n * 10 + d <? n * 10) || (2 ^ 64 - 1 <? n * 10 + d)) with false.
  2: { symmetry. apply orb_false_iff. split; apply Z.ltb_ge; lia. }
  replace (n * 10 + d) with (10 * n + d) by lia.
  apply IH; lia.
Qed.

Lemma Atoi_digits_digits ds n :
  Forall (λ d, 0 ≤ d ≤ 9) ds → 0 ≤ n → decimal_from ds n < 2 ^ 63 →
  strconv.Atoi_digits (digits_text ds) n = Some (decimal_from ds n).
Proof.
  intros Hd. revert n. induction Hd as [|d ds Hd0 Hds IH]; intros n Hn Hmax; [done|].
  cbn [digits_text strconv.Atoi_digits]. cbv zeta.
  rewrite (byte_digit_char d Hd0).
  change (decimal_from (d :: ds) n) with (decimal_from ds (10 * n + d)) in *.
  pose proof (decimal_from_ge ds (10 * n + d) Hds ltac:(lia)) as Hge.
  replace (48 + d - 48) with d by lia.
  unfold strconv.uint8. rewrite (Z.mod_small d) by lia.
  replace (9 <? d) with false by (symmetry; apply Z.ltb_ge; lia).
  unfold strconv.int64. rewrite (Z.mod_small (n * 10 + d + 2 ^ 63)) by lia.
  replace (n * 10 + d + 2 ^ 63 - 2 ^ 63) with (10 * n + d) by lia.
  apply IH; lia.
Qed.

Lemma int64_small z : - 2 ^ 63 ≤ z < 2 ^ 63 → strconv.int64 z = z.
Proof. intros H. unfold strconv.int64. rewrite Z.mod_small by lia. lia. Qed.

Lemma int64_neg_int64 v : 0 ≤ v ≤ 2 ^ 63 → strconv.int64 (- strconv.int64 v) = - v.
Proof.
  intros H. destruct (Z.eq_dec v (2 ^ 63)) as [->|Hne]; [reflexivity|].
  rewrite (int64_small v) by lia. apply int64_small. lia.
Qed.

Lemma decimal_from_lt ds n :
  Forall (λ d, 0 ≤ d ≤ 9) ds → 0 ≤ n →
  decimal_from ds n < (n + 1) * 10 ^ Z.of_nat (length ds).
Proof.
  intros Hd. revert n. induction Hd as [|d ds Hd0 Hds IH]; intros n Hn.
  - cbn. lia.
  - change (decimal_from (d :: ds) n) with (decimal_from ds (10 * n + d)).
    specialize (IH (10 * n + d) ltac:(lia)).
    cbn [length]. rewrite Nat2Z.inj_succ, Z.pow_succ_r by lia.
    assert (0 < 10 ^ Z.of_nat (length ds)) by (apply Z.pow_pos_nonneg; lia).
    nia.
Qed.

Lemma are_digits_Forall ds : are_digits ds = true → Forall (λ d, 0 ≤ d ≤ 9) ds.
Proof.
  unfold are_digits. rewrite forallb_forall, Forall_forall.
  intros H d Hd. apply list_elem_of_In in Hd.
  specialize (H d Hd). apply andb_true_iff in H as [?%Z.leb_le ?%Z.leb_le]. lia.
Qed.

(** [Atoi] reads a well-formed decimal text as its positional value as
    long as the value fits [int64], on the fast path and on the slow
    one. *)
Lemma Atoi_decimal d ds :
  are_digits (d :: ds) = true →
  (decimal (d :: ds) < 2 ^ 63 →
   strconv.Atoi (digits_text (d :: ds)) = (decimal (d :: ds), None)) ∧
  (decimal (d :: ds) ≤ 2 ^ 63 →
   strconv.Atoi (String "-" (digits_text (d :: ds))) = (- decimal (d :: ds), None)).
Proof.
  intros Hd%are_digits_Forall.
  pose proof (Forall_inv Hd) as Hd0. cbn beta in Hd0.
  destruct (digit_char_unsigned d Hd0) as [Hm Hp].
  split; intros Hv.
  - unfold strconv.Atoi. cbv zeta.
    destruct (_ && _).
    + cbn [digits_text]. rewrite Hm, Hp. cbn [orb andb].
      change (String (digit_char d) (digits_text ds)) with (digits_text (d :: ds)).
      by rewrite (Atoi_digits_digits (d :: ds) 0 Hd ltac:(done) Hv).
    + unfold strconv.ParseInt. cbn [digits_text]. rewrite Hm, Hp. cbn [orb]. cbv zeta.
      change (String (digit_char d) (digits_text ds)) with (digits_text (d :: ds)). unfold strconv.ParseUint.
      cbn [digits_text]. change (String (digit_char d) (digits_text ds)) with (digits_text (d :: ds)).
      rewrite (ParseUint_from_digits (d :: ds) 0 Hd ltac:(done))
        by (unfold strconv.maxUint64; fold (decimal (d :: ds)); lia).
      fold (decimal (d :: ds)).
      pose proof (decimal_from_ge (d :: ds) 0 Hd ltac:(done)) as Hge.
      fold (decimal (d :: ds)) in Hge.
      replace (2 ^ 63 <=? decimal (d :: ds)) with false by (symmetry; apply Z.leb_gt; lia).
      cbn [negb andb]. by rewrite int64_small by lia.
  - pose proof (decimal_from_ge (d :: ds) 0 Hd ltac:(done)) as Hge.
    fold (decimal (d :: ds)) in Hge.
    unfold strconv.Atoi. cbv zeta.
    destruct (_ && _) eqn:Hfast.
    + change (Ascii.eqb "-" "-") with true. cbn [orb andb].
      rewrite length_digits_text. cbn [length].
      replace (Z.of_nat (S (length ds)) <? 1) with false by (symmetry; apply Z.ltb_ge; lia).
      cbn [String.length] in Hfast. rewrite length_digits_text in Hfast.
      apply andb_true_iff in Hfast as [_ Hlen%Z.ltb_lt]. cbn [length] in Hlen.
      pose proof (decimal_from_lt (d :: ds) 0 Hd ltac:(done)) as Hlt.
      fold (decimal (d :: ds)) in Hlt. cbn [length] in Hlt.
      assert (10 ^ Z.of_nat (S (length ds)) ≤ 10 ^ 17) as Hpow
        by (apply Z.pow_le_mono_r; lia).
      assert (decimal (d :: ds) < 2 ^ 63) as Hv' by lia.
      rewrite (Atoi_digits_digits (d :: ds) 0 Hd ltac:(done) Hv').
      fold (decimal (d :: ds)). by rewrite int64_small by lia.
    + unfold strconv.ParseInt. change (Ascii.eqb "-" "-") with true.
      change (Ascii.eqb "-" "+") with false. cbn [orb negb andb]. cbv zeta.
      unfold strconv.ParseUint.
      cbn [digits_text]. change (String (digit_char d) (digits_text ds)) with (digits_text (d :: ds)).
      rewrite (ParseUint_from_digits (d :: ds) 0 Hd ltac:(done))
        by (unfold strconv.maxUint64; fold (decimal (d :: ds)); lia).
      fold (decimal (d :: ds)).
      replace (2 ^ 63 <? decimal (d :: ds)) with false by (symmetry; apply Z.ltb_ge; lia).
      by rewrite int64_neg_int64 by lia.
Qed.

Lemma ParseUint_from_digits_range ds n :
  Forall (λ d, 0 ≤ d ≤ 9) ds → 0 ≤ n ≤ strconv.maxUint64 →
  strconv.maxUint64 < decimal_from ds n →
  strconv.ParseUint_from (digits_text ds) n = (strconv.maxUint64, Some strconv.ErrRange).
Proof.
  intros Hd. revert n. induction Hd as [|d ds Hd0 Hds IH]; intros n Hn Hmax.
  { cbn in Hmax. lia. }
  cbn [digits_text strconv.ParseUint_from]. cbv zeta.
  rewrite (byte_digit_char d Hd0).
  change (decimal_from (d :: ds) n) with (decimal_from ds (10 * n + d)) in *.
  unfold strconv.maxUint64 in *.
  replace ((48 <=? 48 + d) && (48 + d <=? 57)) with true
    by (symmetry; apply andb_true_iff; split; apply Z.leb_le; lia).
  replace (48 + d - 48) with d by lia.
  replace (10 <=? d) with false by (symmetry; apply Z.leb_gt; lia).
  change ((2 ^ 64 - 1) / 10 + 1) with 1844674407370955162.
  destruct (Z.leb_spec 1844674407370955162 n) as [Hc|Hc]; [done|].
  unfold strconv.uint64.
  rewrite (Z.mod_small (n * 10)) by lia.
  destruct (Z_lt_dec (n * 10 + d) (2 ^ 64)) as [Hfit|Hover].
  - rewrite (Z.mod_small (n * 10 + d)) by lia.
    replace ((n * 10 + d <? n * 10) || (2 ^ 64 - 1 <? n * 10 + d)) with false.
    2: { symmetry. apply orb_false_iff. split; apply Z.ltb_ge; lia. }
    replace (n * 10 + d) with (10 * n + d) by lia.
    apply IH; lia.
  - replace ((n * 10 + d) mod 2 ^ 64) with (n * 10 + d - 2 ^ 64).
    2: { apply Z.mod_unique with 1; lia. }
    replace (n * 10 + d - 2 ^ 64 <? n * 10) with true by (symmetry; apply Z.ltb_lt; lia).
    done.
Qed.

(** [ParseUint] on a non-empty digit text: its value, or the largest
    [uint64] with a range error. *)
Lemma ParseUint_digits d ds :
  Forall (λ d, 0 ≤ d ≤ 9) (d :: ds) →
  strconv.ParseUint (digits_text (d :: ds))
  = if decimal (d :: ds) <=? strconv.maxUint64 then (decimal (d :: ds), None)
    else (strconv.maxUint64, Some strconv.ErrRange).
Proof.
  intros Hd. unfold strconv.ParseUint. cbn [digits_text].
  change (String (digit_char d) (digits_text ds)) with (digits_text (d :: ds)).
  destruct (Z.leb_spec (decimal (d :: ds)) strconv.maxUint64) as [Hle|Hgt].
  - by apply ParseUint_from_digits.
  - apply ParseUint_from_digits_range; [done|by unfold strconv.maxUint64|done].
Qed.

Lemma decimal_short ds :
  Forall (λ d, 0 ≤ d ≤ 9) ds → (length ds ≤ 18)%nat → decimal ds < 2 ^ 63.
Proof.
  intros Hd Hlen. pose proof (decimal_from_lt ds 0 Hd ltac:(done)) as Hlt.
  fold (decimal ds) in Hlt.
  assert (10 ^ Z.of_nat (length ds) ≤ 10 ^ 18) as Hpow by (apply Z.pow_le_mono_r; lia).
  lia.
Qed.

(** [ParseInt] on an optional sign followed by a non-empty digit text. *)
Lemma ParseInt_digits d ds :
  Forall (λ d, 0 ≤ d ≤ 9) (d :: ds) →
  let v := decimal (d :: ds) in
  strconv.ParseInt (digits_text (d :: ds))
  = (if v <? 2 ^ 63 then (v, None) else (2 ^ 63 - 1, Some strconv.ErrRange)) ∧
  strconv.ParseInt (String "+" (digits_text (d :: ds)))
  = (if v <? 2 ^ 63 then (v, None) else (2 ^ 63 - 1, Some strconv.ErrRange)) ∧
  strconv.ParseInt (String "-" (digits_text (d :: ds)))
  = (if v <=? 2 ^ 63 then (- v, None) else (- 2 ^ 63, Some strconv.ErrRange)).
Proof.
  intros Hd v.
  pose proof (Forall_inv Hd) as Hd0. cbn beta in Hd0.
  destruct (digit_char_unsigned d Hd0) as [Hm Hp].
  pose proof (decimal_from_ge (d :: ds) 0 Hd ltac:(done)) as Hge.
  fold (decimal (d :: ds)) in Hge. fold v in Hge.
  pose proof (ParseUint_digits d ds Hd) as HU. fold v in HU.
  assert (∀ neg : bool,
            (let '(un, e) := strconv.ParseUint (digits_text (d :: ds)) in
             match e with
             | Some strconv.ErrSyntax => (0, Some strconv.ErrSyntax)
             | _ =>
                 if negb neg && (2 ^ 63 <=? un) then (2 ^ 63 - 1, Some strconv.ErrRange)
                 else if neg && (2 ^ 63 <? un) then (- 2 ^ 63, Some strconv.ErrRange)
                 else (if neg then strconv.int64 (- strconv.int64 un) else strconv.int64 un, None)
             end)
            = if neg then (if v <=? 2 ^ 63 then (- v, None)
                           else (- 2 ^ 63, Some strconv.ErrRange))
              else (if v <? 2 ^ 63 then (v, None)
                    else (2 ^ 63 - 1, Some strconv.ErrRange))) as Hcore.
  { intros neg. rewrite HU. unfold strconv.maxUint64.
    destruct (Z.leb_spec v (2 ^ 64 - 1)) as [Hfit|Hbig].
    - destruct neg; cbn [negb andb].
      + destruct (Z.ltb_spec (2 ^ 63) v), (Z.leb_spec v (2 ^ 63)); try lia; [done|].
        by rewrite int64_neg_int64 by lia.
      + destruct (Z.leb_spec (2 ^ 63) v), (Z.ltb_spec v (2 ^ 63)); try lia; [done|].
        by rewrite int64_small by lia.
    - destruct neg; cbn [negb andb].
      + replace (2 ^ 63 <? 2 ^ 64 - 1) with true by done.
        by replace (v <=? 2 ^ 63) with false by (symmetry; apply Z.leb_gt; lia).
      + replace (2 ^ 63 <=? 2 ^ 64 - 1) with true by done.
        by replace (v <? 2 ^ 63) with false by (symmetry; apply Z.ltb_ge; lia). }
  split; [|split].
  - rewrite <- (Hcore false). unfold strconv.ParseInt. cbn [digits_text].
    rewrite Hm, Hp. cbn [orb]. cbv zeta.
    change (String (digit_char d) (digits_text ds)) with (digits_text (d :: ds)).
    by destruct (strconv.ParseUint _) as [un [[|]|]].
  - rewrite <- (Hcore false). unfold strconv.ParseInt.
    change (Ascii.eqb "+" "-") with false. change (Ascii.eqb "+" "+") with true.
    cbn [orb]. cbv zeta.
    by destruct (strconv.ParseUint _) as [un [[|]|]].
  - rewrite <- (Hcore true). unfold strconv.ParseInt.
    change (Ascii.eqb "-" "-") with true. change (Ascii.eqb "-" "+") with false.
    cbn [orb]. cbv zeta.
    by destruct (strconv.ParseUint _) as [un [[|]|]].
Qed.

(** [Atoi] on an optional sign followed by a non-empty digit text: the
    value when it fits [int64], else the bound of [int64] on the side of
    the sign, with a range error. *)
Lemma Atoi_signed_decimal d ds :
  are_digits (d :: ds) = true →
  let v := decimal (d :: ds) in
  strconv.Atoi (digits_text (d :: ds))
  = (if v <? 2 ^ 63 then (v, None) else (2 ^ 63 - 1, Some strconv.ErrRange)) ∧
  strconv.Atoi (String "+" (digits_text (d :: ds)))
  = (if v <? 2 ^ 63 then (v, None) else (2 ^ 63 - 1, Some strconv.ErrRange)) ∧
  strconv.Atoi (String "-" (digits_text (d :: ds)))
  = (if v <=? 2 ^ 63 then (- v, None) else (- 2 ^ 63, Some strconv.ErrRange)).
Proof.
  intros Hd%are_digits_Forall v.
  pose proof (Forall_inv Hd) as Hd0. cbn beta in Hd0.
  destruct (digit_char_unsigned d Hd0) as [Hm Hp].
  pose proof (decimal_from_ge (d :: ds) 0 Hd ltac:(done)) as Hge.
  fold (decimal (d :: ds)) in Hge. fold v in Hge.
  destruct (ParseInt_digits d ds Hd) as (HP0 & HP1 & HP2). fold v in HP0, HP1, HP2.
  split; [|split].
  - unfold strconv.Atoi. cbv zeta. destruct (_ && _) eqn:Hfast; [|exact HP0].
    rewrite length_digits_text in Hfast.
    apply andb_true_iff in Hfast as [_ Hlen%Z.ltb_lt].
    pose proof (decimal_short (d :: ds) Hd ltac:(lia)) as Hv. fold v in Hv.
    cbn [digits_text]. rewrite Hm, Hp. cbn [orb andb].
    change (String (digit_char d) (digits_text ds)) with (digits_text (d :: ds)).
    rewrite (Atoi_digits_digits (d :: ds) 0 Hd ltac:(done) Hv).
    fold (decimal (d :: ds)). fold v.
    by replace (v <? 2 ^ 63) with true by (symmetry; apply Z.ltb_lt; lia).
  - unfold strconv.Atoi. cbv zeta. destruct (_ && _) eqn:Hfast; [|exact HP1].
    cbn [String.length] in Hfast. rewrite length_digits_text in Hfast.
    apply andb_true_iff in Hfast as [_ Hlen%Z.ltb_lt].
    pose proof (decimal_short (d :: ds) Hd ltac:(lia)) as Hv. fold v in Hv.
    change (Ascii.eqb "+" "-") with false. change (Ascii.eqb "+" "+") with true.
    cbn [orb andb]. rewrite length_digits_text. cbn [length].
    replace (Z.of_nat (S (length ds)) <? 1) with false by (symmetry; apply Z.ltb_ge; lia).
    rewrite (Atoi_digits_digits (d :: ds) 0 Hd ltac:(done) Hv).
    fold (decimal (d :: ds)). fold v.
    by replace (v <? 2 ^ 63) with true by (symmetry; apply Z.ltb_lt; lia).
  - unfold strconv.Atoi. cbv zeta. destruct (_ && _) eqn:Hfast; [|exact HP2].
    cbn [String.length] in Hfast. rewrite length_digits_text in Hfast.
    apply andb_true_iff in Hfast as [_ Hlen%Z.ltb_lt].
    pose proof (decimal_short (d :: ds) Hd ltac:(lia)) as Hv. fold v in Hv.
    change (Ascii.eqb "-" "-") with true. cbn [orb andb].
    rewrite length_digits_text. cbn [length].
    replace (Z.of_nat (S (length ds)) <? 1) with false by (symmetry; apply Z.ltb_ge; lia).
    rewrite (Atoi_digits_digits (d :: ds) 0 Hd ltac:(done) Hv).
    fold (decimal (d :: ds)). fold v.
    replace (v <=? 2 ^ 63) with true by (symmetry; apply Z.leb_le; lia).
    by rewrite int64_small by lia.
Qed.

(** A range error of [ParseInt] comes with the bound of [int64] on the
    side of the sign of the text. *)
Lemma ParseInt_range_bound s :
  (strconv.ParseInt s).2 = Some strconv.ErrRange →
  (strconv.ParseInt s).1 = if negative_text s then - 2 ^ 63 else 2 ^ 63 - 1.
Proof.
  unfold strconv.ParseInt. destruct s as [|s0 tl]; [done|]. cbv zeta.
  cbn [negative_text].
  destruct (strconv.ParseUint _) as [un [[|]|]]; [done| |].
  - destruct (Ascii.eqb s0 "-"); cbn [negb andb].
    + destruct (2 ^ 63 <? un); [done|]. done.
    + destruct (2 ^ 63 <=? un); [done|]. done.
  - destruct (Ascii.eqb s0 "-"); cbn [negb andb].
    + destruct (2 ^ 63 <? un); [done|]. done.
    + destruct (2 ^ 63 <=? un); [done|]. done.
Qed.

Lemma Atoi_range_bound s :
  (strconv.Atoi s).2 = Some strconv.ErrRange →
  (strconv.Atoi s).1 = if negative_text s then - 2 ^ 63 else 2 ^ 63 - 1.
Proof.
  unfold strconv.Atoi. cbv zeta.
  destruct (_ && _); [|apply ParseInt_range_bound].
  destruct s as [|s0 tl]; [done|].
  destruct (_ && _); [done|].
  by destruct (strconv.Atoi_digits _ 0).
Qed.

(** C9, as amended: the conversion never fails and goes by the declared
    type.  [int] yields what [strconv.Atoi] returns with the error
    dropped: for an optional sign and decimal digits the value when it
    fits [int64], else the bound of [int64] on the side of the sign (not
    zero); zero for what [Atoi] rejects as a syntax error; and whenever
    [Atoi] reports a range error, the bound on the side of the sign.
    [float]/[double] yield what [strconv.ParseFloat] returns with the
    error dropped, which for a [ParseFloat] that reports as the library
    does is zero for a malformed text and the infinity of the sign of the
    text for a text out of range; [boolean] is true exactly for the text
    ["true"]; [string] and every other type pass the text through.  With
    [{"age":"int"}], ["age > 30"] is translated with 30 and
    ["age > abc"] with 0. *)
Theorem parseTypedValueForFilters_by_type
    (ParseFloat : string → float64 * option strconv.NumError)
    (FormatFloat : float64 → string) (raw : string) :
  (∃ i, parseTypedValueForFilters ParseFloat "int" raw = AInt i ∧
        i = (strconv.Atoi raw).1 ∧
        ((strconv.Atoi raw).2 = Some strconv.ErrSyntax → i = 0) ∧
        ((strconv.Atoi raw).2 = Some strconv.ErrRange →
         i = if negative_text raw then - 2 ^ 63 else 2 ^ 63 - 1)) ∧
  (∀ d ds,
     are_digits (d :: ds) = true →
     parseTypedValueForFilters ParseFloat "int" (digits_text (d :: ds))
     = AInt (if decimal (d :: ds) <? 2 ^ 63 then decimal (d :: ds) else 2 ^ 63 - 1) ∧
     parseTypedValueForFilters ParseFloat "int" (String "+" (digits_text (d :: ds)))
     = AInt (if decimal (d :: ds) <? 2 ^ 63 then decimal (d :: ds) else 2 ^ 63 - 1) ∧
     parseTypedValueForFilters ParseFloat "int" (String "-" (digits_text (d :: ds)))
     = AInt (if decimal (d :: ds) <=? 2 ^ 63 then - decimal (d :: ds) else - 2 ^ 63)) ∧
  (∀ valueType,
     valueType = "float" ∨ valueType = "double" →
     parseTypedValueForFilters ParseFloat valueType raw = AFloat (ParseFloat raw).1 ∧
     (ParseFloat_reports ParseFloat →
      ((ParseFloat raw).2 = Some strconv.ErrSyntax →
       parseTypedValueForFilters ParseFloat valueType raw = AFloat (Float64frombits 0)) ∧
      ((ParseFloat raw).2 = Some strconv.ErrRange →
       parseTypedValueForFilters ParseFloat valueType raw
       = AFloat (Inf (negative_text raw))))) ∧
  (∃ b, parseTypedValueForFilters ParseFloat "boolean" raw = ABool b ∧
        (b = true ↔ raw = "true")) ∧
  parseTypedValueForFilters ParseFloat "string" raw = AString raw ∧
  (∀ valueType,
     valueType ≠ "int" → valueType ≠ "float" → valueType ≠ "double" →
     valueType ≠ "boolean" →
     parseTypedValueForFilters ParseFloat valueType raw = AString raw) ∧
  rewriteFilter ParseFloat FormatFloat
    (buildPropertyTypeMap [ {| PropertyName := "age"; ValueType := "int" |} ])
    "age > 30" = Some "age > 30" ∧
  rewriteFilter ParseFloat FormatFloat
    (buildPropertyTypeMap [ {| PropertyName := "age"; ValueType := "int" |} ])
    "age > abc" = Some "age > 0".
Proof.
  split; [|split; [|split; [|split; [|split; [|split; [|split]]]]]].
  - exists (strconv.Atoi raw).1.
    pose proof (Atoi_error raw) as He. pose proof (Atoi_range_bound raw) as Hr.
    unfold parseTypedValueForFilters. cbn [String.eqb Ascii.eqb Bool.eqb].
    destruct (strconv.Atoi raw) as [v [[|]|]]; cbn [fst snd] in *;
      repeat split; try done; by intros _.
  - intros d ds Hd. destruct (Atoi_signed_decimal d ds Hd) as (H0 & H1 & H2).
    unfold parseTypedValueForFilters. cbn [String.eqb Ascii.eqb Bool.eqb].
    rewrite H0, H1, H2.
    by destruct (_ <? _), (_ <=? _).
  - intros valueType Hty.
    assert (parseTypedValueForFilters ParseFloat valueType raw
            = AFloat (ParseFloat raw).1) as Hpass.
    { unfold parseTypedValueForFilters.
      destruct Hty as [-> | ->]; cbn; by destruct (ParseFloat raw). }
    split; [exact Hpass|]. intros Hlib. specialize (Hlib raw). rewrite Hpass.
    destruct (ParseFloat raw) as [f [[|]|]]; cbn [fst snd]; split; intros He;
      try done; by rewrite Hlib.
  - exists (String.eqb raw "true"). split; [done|]. apply String.eqb_eq.
  - done.
  - intros valueType Hi Hf Hd Hb. unfold parseTypedValueForFilters.
    destruct (String.eqb_spec valueType "int"); [done|].
    destruct (String.eqb_spec valueType "float"); [done|].
    destruct (String.eqb_spec valueType "double"); [done|].
    destruct (String.eqb_spec valueType "boolean"); [done|].
    by destruct (String.eqb valueType "string").
  - vm_compute. reflexivity.
  - vm_compute. reflexivity.
Qed.

Lemma ParseFloat_sample_reports : ParseFloat_reports ParseFloat_sample.
Proof.
  intros s. unfold ParseFloat_sample.
  destruct (String.eqb s "1.5"); [done|].
  destruct (String.eqb_spec s "1e999") as [->|]; [done|].
  by destruct (String.eqb_spec s "-1e999") as [->|].
Qed.

Lemma parseTypedValueForFilters_by_type_witness :
  ParseFloat_reports ParseFloat_sample ∧
  are_digits [3; 0] = true ∧
  digits_text [3; 0] = "30" ∧
  parseTypedValueForFilters ParseFloat_sample "int" "30" = AInt 30 ∧
  parseTypedValueForFilters ParseFloat_sample "int" "+30" = AInt 30 ∧
  parseTypedValueForFilters ParseFloat_sample "int" "-30" = AInt (- 30) ∧
  (ParseFloat_sample "1e999").2 = Some strconv.ErrRange ∧
  parseTypedValueForFilters ParseFloat_sample "float" "1e999" = AFloat (Inf false).
Proof.
  split; [exact ParseFloat_sample_reports|].
  split; [reflexivity|]. split; [reflexivity|].
  destruct (parseTypedValueForFilters_by_type ParseFloat_sample (λ _, "0") "1e999")
    as (_ & Hint & Hfloat & _).
  destruct (Hint 3 [0] eq_refl) as (H0 & H1 & H2).
  split; [exact H0|]. split; [exact H1|]. split; [exact H2|].
  split; [reflexivity|].
  destruct (Hfloat "float" (or_introl eq_refl)) as [_ Hlib].
  exact (proj2 (Hlib ParseFloat_sample_reports) eq_refl).
Defined.

(** C9, as stated, fails: ["9223372036854775808"] is rejected by [Atoi]
    and yet the [int] conversion yields 9223372036854775807, not
    zero. *)
Lemma parseTypedValueForFilters_int_out_of_range :
  ¬ (∀ (ParseFloat : string → float64 * option strconv.NumError) (raw : string),
       (strconv.Atoi raw).2 ≠ None →
       parseTypedValueForFilters ParseFloat "int" raw = AInt 0).
Proof.
  intros H.
  specialize (H (λ _, (Float64frombits 0, None)) "9223372036854775808").
  assert (AInt 9223372036854775807 = AInt 0) as Habs.
  { rewrite <- H; [reflexivity | by vm_compute]. }
  discriminate.
Qed.



(** * Further properties of the code *)

(** ** [GetProfile]: a parent *)

(** X2: a stored parent profile is returned as the first fetch gives
    it, with that one read: [GetProfile] fetches neither the application
    data nor the child list of a parent. *)
Theorem GetProfile_parent_single_read (id : string) (w : World)
    (row : Profile) (h : ProfileHierarchy) :
  next_fault w = false →
  row_of id (profiles (db w)) = Some row →
  Hierarchy row = Some h →
  IsParent h = true →
  GetProfile id w = (Ret (Some row, None), logged (CGetProfile id) true w).
Proof.
  intros Hf Hrow Hh Hp.
  unfold GetProfile. rewrite run_bind, repo_GetProfile_run, Hf, Hrow.
  cbn beta iota zeta. rewrite Hh, run_bind. cbn [deref]. rewrite run_ret, Hp.
  reflexivity.
Qed.

Lemma GetProfile_parent_single_read_witness :
  next_fault family = false ∧
  row_of "P" (profiles (db family)) = Some parent_row ∧
  Hierarchy parent_row
  = Some {| IsParent := true; ParentProfileID := ""; ListProfile := true;
            ChildProfiles := [] |} ∧
  GetProfile "P" family
  = (Ret (Some parent_row, None), logged (CGetProfile "P") true family).
Proof.
  split; [reflexivity|]. split; [reflexivity|]. split; [reflexivity|].
  apply (GetProfile_parent_single_read "P" family parent_row
           {| IsParent := true; ParentProfileID := ""; ListProfile := true;
              ChildProfiles := [] |}); reflexivity.
Defined.

(** ** Runs by the position of the failing call *)

Lemma next_fault_fault_at w : next_fault w = fault_at 0 w.
Proof. unfold next_fault, fault_at. by destruct (faults w). Qed.

Lemma fault_at_logged k c b w : fault_at k (logged c b w) = fault_at (S k) w.
Proof. unfold fault_at. simpl. destruct (faults w); [by destruct k|done]. Qed.

Lemma fault_at_with_db k d w : fault_at k (with_db d w) = fault_at k w.
Proof. done. Qed.

Lemma healthy_fault_at k w : healthy w = true → fault_at k w = false.
Proof.
  unfold healthy, fault_at. generalize (faults w). intros l. revert k.
  induction l as [|b l IH]; intros k H; [by destruct k|].
  simpl in H. apply andb_true_iff in H as [Hb Hl]. destruct k; simpl.
  - by destruct b.
  - by apply IH.
Qed.

Lemma repo_DeleteProfile_run id w :
  repo.DeleteProfile id w =
  if next_fault w then (Ret (Some CollaboratorError), logged (CDeleteProfile id) false w)
  else (Ret None,
        with_db {| profiles := filter (λ p, ProfileId p ≠ id) (profiles (db w));
                   application_data := application_data (db w);
                   child_profiles := child_profiles (db w);
                   events := events (db w) |}
                (logged (CDeleteProfile id) true w)).
Proof.
  unfold repo.DeleteProfile. rewrite run_bind. unfold tick.
  by destruct (next_fault w).
Qed.

Lemma repo_DeleteEventsByProfileId_run id w :
  repo.DeleteEventsByProfileId id w =
  if next_fault w
  then (Ret (Some CollaboratorError), logged (CDeleteEventsByProfileId id) false w)
  else (Ret None,
        with_db {| profiles := profiles (db w);
                   application_data := application_data (db w);
                   child_profiles := child_profiles (db w);
                   events := filter (λ e, Event.ProfileId e ≠ id) (events (db w)) |}
                (logged (CDeleteEventsByProfileId id) true w)).
Proof.
  unfold repo.DeleteEventsByProfileId. rewrite run_bind. unfold tick.
  by destruct (next_fault w).
Qed.

Lemma repo_FetchChildProfiles_run id w :
  repo.FetchChildProfiles id w =
  (Ret (if next_fault w then ([], Some CollaboratorError)
        else (children_of id (db w), None)),
   logged (CFetchChildProfiles id) (negb (next_fault w)) w).
Proof.
  unfold repo.FetchChildProfiles. rewrite run_bind. unfold tick.
  by destruct (next_fault w).
Qed.

Lemma repo_FetchApplicationData_run id w :
  repo.FetchApplicationData id w =
  (Ret (if next_fault w then ([], Some CollaboratorError)
        else (application_data_of id (db w), None)),
   logged (CFetchApplicationData id) (negb (next_fault w)) w).
Proof.
  unfold repo.FetchApplicationData. rewrite run_bind. unfold tick.
  by destruct (next_fault w).
Qed.

Lemma repo_DetachChildProfileFromParent_run parent child w :
  repo.DetachChildProfileFromParent parent child w =
  if next_fault w
  then (Ret (Some CollaboratorError),
        logged (CDetachChildProfileFromParent parent child) false w)
  else (Ret None,
        with_db {| profiles := profiles (db w);
                   application_data := application_data (db w);
                   child_profiles :=
                     filter (λ r, ¬ (r.1 = parent ∧ ChildProfileId r.2 = child))
                            (child_profiles (db w));
                   events := events (db w) |}
                (logged (CDetachChildProfileFromParent parent child) true w)).
Proof.
  unfold repo.DetachChildProfileFromParent. rewrite run_bind. unfold tick.
  by destruct (next_fault w).
Qed.

(** Symbolic execution of a run whose fault flags are known by
    position. *)
Ltac sim :=
  repeat first
    [ rewrite run_ret
    | rewrite run_bind
    | rewrite repo_GetProfile_run
    | rewrite repo_DeleteProfile_run
    | rewrite repo_DeleteEventsByProfileId_run
    | rewrite repo_FetchChildProfiles_run
    | rewrite repo_FetchApplicationData_run
    | rewrite repo_DetachChildProfileFromParent_run
    | rewrite next_fault_fault_at
    | rewrite fault_at_logged
    | rewrite fault_at_with_db
    | rewrite healthy_fault_at by eassumption
    | match goal with H : fault_at _ _ = _ |- _ => rewrite H end
    | rewrite db_logged
    | rewrite db_with_db
    | progress cbn [deref set_ApplicationData set_ProfileId set_Hierarchy
                    set_ChildProfiles set_ParentProfileID
                    ProfileId Hierarchy IdentityAttributes Traits ApplicationDataOf
                    IsParent ParentProfileID ListProfile ChildProfiles
                    profiles application_data child_profiles events fst snd negb]
    | progress cbn beta iota zeta ].

Lemma is_stored_true d id : is_stored d id = true ↔ is_Some (row_of id (profiles d)).
Proof. unfold is_stored. destruct (row_of id (profiles d)); split; intros H; try done; by destruct H. Qed.

Lemma row_of_filter_other id id' rows :
  id ≠ id' →
  row_of id (filter (λ p, ProfileId p ≠ id') rows) = row_of id rows.
Proof.
  intros Hne. unfold row_of. induction rows as [|p rows IH]; [done|].
  rewrite filter_cons. case_decide as Hp; simpl.
  - by rewrite IH.
  - destruct (String.eqb_spec (ProfileId p) id) as [Heq|]; [|done].
    destruct Hp. congruence.
Qed.

(** X3: when the first fetch fails, [DeleteProfile] returns nil
    after that one call: the nil test on the profile comes before the
    test on the error, so the storage failure is reported as a successful
    deletion and nothing is deleted. *)
Theorem DeleteProfile_masks_fetch_failure (id : string) (w : World) :
  next_fault w = true →
  DeleteProfile id w = (Ret None, logged (CGetProfile id) false w).
Proof.
  intros Hf. unfold DeleteProfile. rewrite run_bind, repo_GetProfile_run, Hf. done.
Qed.

Lemma DeleteProfile_masks_fetch_failure_witness :
  next_fault (world_of family_db [true] []) = true ∧
  DeleteProfile "C" (world_of family_db [true] [])
  = (Ret None, logged (CGetProfile "C") false (world_of family_db [true] [])).
Proof.
  split; [reflexivity|].
  apply (DeleteProfile_masks_fetch_failure "C" (world_of family_db [true] [])).
  reflexivity.
Defined.

(** X4: when the deletion of the events fails, [DeleteProfile]
    stops with the server error [ErrWhileDeletingProfile] wrapping the
    cause; the tables are unchanged and no call follows the failed one. *)
Theorem DeleteProfile_events_failure (id : string) (w : World) :
  fault_at 0 w = false → fault_at 1 w = true →
  is_stored (db w) id = true →
  ∃ w', DeleteProfile id w
        = (Ret (Some (ServerError ErrWhileDeletingProfile (Some CollaboratorError))), w') ∧
        db w' = db w ∧
        grows (λ e, call e = CGetProfile id ∨
                    (call e = CDeleteEventsByProfileId id ∧ ok e = false)) w w'.
Proof.
  intros H0 H1 (row & Hrow)%is_stored_true.
  unfold DeleteProfile. sim. rewrite Hrow. sim.
  eexists. split; [reflexivity|]. split; [done|].
  eexists. split; [cbn; rewrite <- app_assoc; reflexivity|].
  constructor; [by left|]. constructor; [by right|]. constructor.
Qed.

Lemma DeleteProfile_events_failure_witness :
  fault_at 0 (world_of family_db [false; true] []) = false ∧
  fault_at 1 (world_of family_db [false; true] []) = true ∧
  is_stored (db (world_of family_db [false; true] [])) "C" = true ∧
  ∃ w', DeleteProfile "C" (world_of family_db [false; true] [])
        = (Ret (Some (ServerError ErrWhileDeletingProfile (Some CollaboratorError))), w') ∧
        db w' = db (world_of family_db [false; true] []) ∧
        grows (λ e, call e = CGetProfile "C" ∨
                    (call e = CDeleteEventsByProfileId "C" ∧ ok e = false))
              (world_of family_db [false; true] []) w'.
Proof.
  split; [reflexivity|]. split; [reflexivity|]. split; [reflexivity|].
  apply (DeleteProfile_events_failure "C" (world_of family_db [false; true] []));
    reflexivity.
Defined.

(** X5: deleting a stored parent without children removes its row
    and its events and nothing else. *)
Theorem DeleteProfile_solo_parent (w : World) (P : string) :
  healthy w = true →
  is_stored_parent (db w) P = true →
  children_of P (db w) = [] →
  ∃ w', DeleteProfile P w = (Ret None, w') ∧
        profiles (db w') = filter (λ p, ProfileId p ≠ P) (profiles (db w)) ∧
        events (db w') = filter (λ e, Event.ProfileId e ≠ P) (events (db w)) ∧
        application_data (db w') = application_data (db w) ∧
        child_profiles (db w') = child_profiles (db w).
Proof.
  intros Hw (prow & ph & Hp & Hph & Hpar)%is_stored_parent_true Hkids.
  pose proof (row_of_ProfileId _ _ _ Hp) as HpId.
  unfold DeleteProfile. sim. rewrite Hp. sim.
  rewrite Hph. sim. rewrite Hpar. sim.
  unfold children_of at 1 2. cbn [child_profiles]. fold (children_of (ProfileId prow) (db w)).
  rewrite HpId, Hkids. cbn [length Nat.eqb andb]. rewrite Hpar. cbn [andb]. sim.
  eexists. split; [reflexivity|]. done.
Qed.

Lemma DeleteProfile_solo_parent_witness :
  healthy (world_of solo_db [] []) = true ∧
  is_stored_parent (db (world_of solo_db [] [])) "P" = true ∧
  children_of "P" (db (world_of solo_db [] [])) = [] ∧
  ∃ w', DeleteProfile "P" (world_of solo_db [] []) = (Ret None, w') ∧
        profiles (db w')
        = filter (λ p, ProfileId p ≠ "P") (profiles (db (world_of solo_db [] []))) ∧
        events (db w')
        = filter (λ e, Event.ProfileId e ≠ "P") (events (db (world_of solo_db [] []))) ∧
        application_data (db w') = application_data (db (world_of solo_db [] [])) ∧
        child_profiles (db w') = child_profiles (db (world_of solo_db [] [])).
Proof.
  split; [reflexivity|]. split; [reflexivity|]. split; [reflexivity|].
  apply (DeleteProfile_solo_parent (world_of solo_db [] []) "P"); reflexivity.
Defined.

Lemma healthy_next_fault' w : healthy w = true → fault_at 0 w = false.
Proof. apply healthy_fault_at. Qed.

Lemma filter_all {A} (P : A → Prop) `{∀ x, Decision (P x)} (l : list A) :
  (∀ x, P x) → filter P l = l.
Proof.
  intros HP. induction l as [|x l IH]; [done|].
  rewrite filter_cons. destruct (decide (P x)) as [|Hn]; [|by destruct Hn].
  by rewrite IH.
Qed.

(** Without faults, the child loop removes every listed child that is
    stored, as long as no child is listed twice. *)
Lemma deleteChildProfiles_all_stored children w :
  healthy w = true →
  NoDup (ids_of children) →
  forallb (is_stored (db w)) (ids_of children) = true →
  ∃ w', deleteChildProfiles children w = (Ret None, w') ∧
        healthy w' = true ∧
        profiles (db w')
        = filter (λ p, ProfileId p ∉ ids_of children) (profiles (db w)) ∧
        application_data (db w') = application_data (db w) ∧
        child_profiles (db w') = child_profiles (db w) ∧
        events (db w') = events (db w).
Proof.
  revert w. induction children as [|c rest IH]; intros w Hw Hnd Hall.
  - exists w. split; [reflexivity|]. split; [assumption|]. split; [|repeat split].
    cbn [ids_of map]. symmetry. apply filter_all. intros p. apply not_elem_of_nil.
  - cbn [ids_of map] in Hnd, Hall. apply NoDup_cons in Hnd as [Hnotin Hnd].
    cbn [forallb] in Hall. apply andb_true_iff in Hall as [Hc Hall].
    apply is_stored_true in Hc as [crow Hc].
    cbn [deleteChildProfiles]. sim. rewrite Hc. sim.
    match goal with |- context [deleteChildProfiles rest ?w0] =>
      destruct (IH w0) as (w' & Hrun & Hw' & Hrows & Happ & Hkids & Hev) end.
    + eauto 10 with world.
    + done.
    + rewrite db_with_db. apply forallb_forall. intros id Hin.
      rewrite forallb_forall in Hall. specialize (Hall id Hin).
      unfold is_stored in *. cbn [profiles].
      rewrite row_of_filter_other; [done|].
      intros ->. apply Hnotin. by apply list_elem_of_In.
    + exists w'. split; [done|]. split; [done|].
      rewrite Hrows, Happ, Hkids, Hev, db_with_db. cbn [profiles application_data child_profiles events].
      split; [|done]. rewrite list_filter_filter. apply list_filter_iff.
      intros p. cbn [ids_of map]. rewrite not_elem_of_cons. tauto.
Qed.

(** X6: deleting a stored parent whose children are all stored
    removes the parent row and every child row, and no other row; the
    child references themselves are left in place. *)
Theorem DeleteProfile_cascade (w : World) (P : string) :
  healthy w = true →
  is_stored_parent (db w) P = true →
  children_of P (db w) ≠ [] →
  NoDup (ids_of (children_of P (db w))) →
  forallb (is_stored (db w)) (ids_of (children_of P (db w))) = true →
  ∃ w', DeleteProfile P w = (Ret None, w') ∧
        profiles (db w')
        = filter (λ p, ProfileId p ≠ P ∧ ProfileId p ∉ ids_of (children_of P (db w)))
                 (profiles (db w)) ∧
        child_profiles (db w') = child_profiles (db w).
Proof.
  intros Hw (prow & ph & Hp & Hph & Hpar)%is_stored_parent_true Hne Hnd Hall.
  pose proof (row_of_ProfileId _ _ _ Hp) as HpId.
  unfold DeleteProfile. sim. rewrite Hp. sim.
  rewrite Hph. sim. rewrite Hpar. sim.
  unfold children_of at 1 2 3. cbn [child_profiles]. fold (children_of (ProfileId prow) (db w)).
  rewrite HpId. rewrite Hpar.
  destruct (children_of P (db w)) as [|c cs] eqn:Hkids; [done|].
  cbn [length Nat.eqb Nat.ltb Nat.leb andb]. sim.
  match goal with |- context [deleteChildProfiles (c :: cs) ?w0] =>
    destruct (deleteChildProfiles_all_stored (c :: cs) w0)
      as (w' & Hrun & Hw' & Hrows & Happ & Hk & Hev) end.
  - eauto 10 with world.
  - done.
  - assumption.
  - rewrite Hrun. sim.
    eexists. split; [reflexivity|]. rewrite ?db_with_db. cbn [profiles child_profiles].
    rewrite Hrows, Hk, ?db_with_db. cbn [profiles child_profiles]. split; [|reflexivity].
    by rewrite list_filter_filter.
Qed.

Lemma DeleteProfile_cascade_witness :
  healthy (world_of siblings_db [] []) = true ∧
  is_stored_parent (db (world_of siblings_db [] [])) "P" = true ∧
  children_of "P" (db (world_of siblings_db [] [])) ≠ [] ∧
  NoDup (ids_of (children_of "P" (db (world_of siblings_db [] [])))) ∧
  forallb (is_stored (db (world_of siblings_db [] [])))
          (ids_of (children_of "P" (db (world_of siblings_db [] [])))) = true ∧
  ∃ w', DeleteProfile "P" (world_of siblings_db [] []) = (Ret None, w') ∧
        profiles (db w')
        = filter (λ p, ProfileId p ≠ "P" ∧
                       ProfileId p ∉ ids_of (children_of "P" (db (world_of siblings_db [] []))))
                 (profiles (db (world_of siblings_db [] []))) ∧
        child_profiles (db w') = child_profiles (db (world_of siblings_db [] [])).
Proof.
  assert (children_of "P" (db (world_of siblings_db [] [])) ≠ []) as Hne
    by (vm_compute; discriminate).
  assert (NoDup (ids_of (children_of "P" (db (world_of siblings_db [] []))))) as Hnd
    by (refine (bool_decide_unpack _ _); vm_compute; exact I).
  split; [reflexivity|]. split; [reflexivity|]. split; [exact Hne|].
  split; [exact Hnd|]. split; [reflexivity|].
  apply (DeleteProfile_cascade (world_of siblings_db [] []) "P");
    [reflexivity|reflexivity|exact Hne|exact Hnd|reflexivity].
Defined.

(** Without faults, a listed child that is not stored stops the child
    loop with a server error that wraps no cause; rows whose identifier is
    not listed are kept. *)
Lemma deleteChildProfiles_dangling children w :
  healthy w = true →
  existsb (λ id, negb (is_stored (db w) id)) (ids_of children) = true →
  ∃ w', deleteChildProfiles children w
        = (Ret (Some (ServerError ErrWhileDeletingProfile None)), w') ∧
        healthy w' = true ∧
        events (db w') = events (db w) ∧
        ∀ id, id ∉ ids_of children →
              row_of id (profiles (db w')) = row_of id (profiles (db w)).
Proof.
  revert w. induction children as [|c rest IH]; intros w Hw Hex; [done|].
  cbn [ids_of map existsb] in Hex. cbn [deleteChildProfiles]. sim.
  destruct (row_of (ChildProfileId c) (profiles (db w))) as [crow|] eqn:Hc; sim.
  - unfold is_stored at 1 in Hex. rewrite Hc in Hex. cbn [negb orb] in Hex.
    match goal with |- context [deleteChildProfiles rest ?w0] =>
      destruct (IH w0) as (w' & Hrun & Hw' & Hev & Hrows) end.
    + eauto 10 with world.
    + rewrite ?db_with_db.
      rewrite existsb_exists in Hex. destruct Hex as (id & Hin & Hid).
      apply existsb_exists. exists id. split; [done|].
      unfold is_stored in *. cbn [profiles].
      destruct (row_of id (profiles (db w))) eqn:Hrow; [done|].
      by rewrite row_of_filter_None.
    + exists w'. split; [assumption|]. split; [assumption|].
      rewrite Hev, ?db_with_db. split; [reflexivity|].
      intros id Hid. cbn [ids_of map] in Hid. apply not_elem_of_cons in Hid as [Hne Hid].
      rewrite (Hrows id Hid), ?db_with_db. cbn [profiles].
      by apply row_of_filter_other.
  - eexists. split; [reflexivity|]. split; [eauto with world|]. done.
Qed.

(** X7: when the child list of a parent, in which the parent itself
    is not listed, names an identifier without a row, the cascade stops
    there with [ErrWhileDeletingProfile] and a nil cause; the parent row is
    still stored although its events are already deleted. *)
Theorem DeleteProfile_dangling_child (w : World) (P : string) :
  healthy w = true →
  is_stored_parent (db w) P = true →
  P ∉ ids_of (children_of P (db w)) →
  existsb (λ id, negb (is_stored (db w) id)) (ids_of (children_of P (db w))) = true →
  ∃ w', DeleteProfile P w
        = (Ret (Some (ServerError ErrWhileDeletingProfile None)), w') ∧
        is_stored (db w') P = true ∧
        events_of P (db w') = [].
Proof.
  intros Hw (prow & ph & Hp & Hph & Hpar)%is_stored_parent_true Hself Hex.
  pose proof (row_of_ProfileId _ _ _ Hp) as HpId.
  unfold DeleteProfile. sim. rewrite Hp. sim.
  rewrite Hph. sim. rewrite Hpar. sim.
  unfold children_of at 1 2 3. cbn [child_profiles]. fold (children_of (ProfileId prow) (db w)).
  rewrite HpId. rewrite Hpar.
  destruct (children_of P (db w)) as [|c cs] eqn:Hkids; [done|].
  cbn [length Nat.eqb Nat.ltb Nat.leb andb]. sim.
  match goal with |- context [deleteChildProfiles (c :: cs) ?w0] =>
    destruct (deleteChildProfiles_dangling (c :: cs) w0)
      as (w' & Hrun & Hw' & Hev & Hrows) end.
  - eauto 10 with world.
  - assumption.
  - rewrite Hrun. sim. eexists. split; [reflexivity|]. split.
    + unfold is_stored. rewrite (Hrows P Hself). cbn [db with_db logged profiles].
      by rewrite Hp.
    + unfold events_of. rewrite Hev. apply (events_of_purged P (db w)).
Qed.

Lemma DeleteProfile_dangling_child_witness :
  healthy (world_of dangling_db [] []) = true ∧
  is_stored_parent (db (world_of dangling_db [] [])) "P" = true ∧
  ("P" ∉ ids_of (children_of "P" (db (world_of dangling_db [] [])))) ∧
  existsb (λ id, negb (is_stored (db (world_of dangling_db [] [])) id))
          (ids_of (children_of "P" (db (world_of dangling_db [] [])))) = true ∧
  ∃ w', DeleteProfile "P" (world_of dangling_db [] [])
        = (Ret (Some (ServerError ErrWhileDeletingProfile None)), w') ∧
        is_stored (db w') "P" = true ∧
        events_of "P" (db w') = [].
Proof.
  assert ("P" ∉ ids_of (children_of "P" (db (world_of dangling_db [] [])))) as Hni
    by (refine (bool_decide_unpack _ _); vm_compute; exact I).
  split; [reflexivity|]. split; [reflexivity|]. split; [exact Hni|].
  split; [reflexivity|].
  apply (DeleteProfile_dangling_child (world_of dangling_db [] []) "P");
    [reflexivity|reflexivity|exact Hni|reflexivity].
Defined.

Lemma children_of_detached P C d :
  children_of P
    {| profiles := profiles d; application_data := application_data d;
       child_profiles :=
         filter (λ r, ¬ (r.1 = P ∧ ChildProfileId r.2 = C)) (child_profiles d);
       events := events d |}
  = filter (λ c, ChildProfileId c ≠ C) (children_of P d).
Proof.
  unfold children_of. cbn [child_profiles].
  induction (child_profiles d) as [|[p c] rows IH]; [done|].
  rewrite !filter_cons. cbn [fst snd].
  destruct (decide (p = P)) as [->|Hp].
  - destruct (decide (ChildProfileId c = C)) as [Hc|Hc].
    + rewrite decide_False by tauto. cbn [map]. rewrite filter_cons, decide_False by tauto. done.
    + rewrite decide_True by tauto. rewrite filter_cons, decide_True by done.
      cbn [map fst]. rewrite filter_cons, decide_True by done. by rewrite IH.
  - rewrite decide_True by tauto. rewrite filter_cons, decide_False by done. done.
Qed.

(** X8: deleting a child whose parent does not have exactly one
    child reference removes the row of the child and its reference in the
    child list of the parent, and keeps the parent. *)
Theorem DeleteProfile_sibling_detach (w : World) (C P : string) :
  healthy w = true →
  parent_of (db w) C = Some P →
  is_stored_parent (db w) P = true →
  length (children_of P (db w)) ≠ 1%nat →
  ∃ w', DeleteProfile C w = (Ret None, w') ∧
        profiles (db w') = filter (λ p, ProfileId p ≠ C) (profiles (db w)) ∧
        is_stored (db w') C = false ∧
        is_stored_parent (db w') P = true ∧
        children_of P (db w')
        = filter (λ c, ChildProfileId c ≠ C) (children_of P (db w)).
Proof.
  intros Hw (crow & ch & Hc & Hch & Hnp & Hpp)%parent_of_Some Hsp Hlen.
  destruct (is_stored_parent_true _ _ Hsp) as (prow & ph & Hp & Hph & Hpar).
  pose proof (row_of_ProfileId _ _ _ Hp) as HpId.
  assert (P ≠ C) as Hne.
  { intros ->. rewrite Hc in Hp. simplify_eq. congruence. }
  unfold DeleteProfile. sim. rewrite Hc. sim. rewrite Hch. sim.
  rewrite Hnp. sim. rewrite Hnp. cbn [andb negb]. sim.
  rewrite Hpp, Hp. sim. rewrite Hph. sim.
  unfold children_of at 1. cbn [child_profiles]. fold (children_of (ProfileId prow) (db w)).
  rewrite HpId.
  destruct (Nat.eqb_spec (length (children_of P (db w))) 1) as [|_]; [done|]. sim.
  eexists. split; [reflexivity|]. rewrite ?db_with_db. cbn [profiles].
  split; [reflexivity|]. split.
  { unfold is_stored. cbn [profiles]. by rewrite row_of_filter_self. }
  split.
  { unfold is_stored_parent. cbn [profiles].
    rewrite row_of_filter_other by done. by rewrite Hp, Hph. }
  apply (children_of_detached P C (db w)).
Qed.

Lemma DeleteProfile_sibling_detach_witness :
  healthy (world_of siblings_db [] []) = true ∧
  parent_of (db (world_of siblings_db [] [])) "C" = Some "P" ∧
  is_stored_parent (db (world_of siblings_db [] [])) "P" = true ∧
  length (children_of "P" (db (world_of siblings_db [] []))) ≠ 1%nat ∧
  ∃ w', DeleteProfile "C" (world_of siblings_db [] []) = (Ret None, w') ∧
        profiles (db w')
        = filter (λ p, ProfileId p ≠ "C") (profiles (db (world_of siblings_db [] []))) ∧
        is_stored (db w') "C" = false ∧
        is_stored_parent (db w') "P" = true ∧
        children_of "P" (db w')
        = filter (λ c, ChildProfileId c ≠ "C")
                 (children_of "P" (db (world_of siblings_db [] []))).
Proof.
  assert (length (children_of "P" (db (world_of siblings_db [] []))) ≠ 1%nat) as Hlen
    by (vm_compute; lia).
  split; [reflexivity|]. split; [reflexivity|]. split; [reflexivity|].
  split; [exact Hlen|].
  apply (DeleteProfile_sibling_detach (world_of siblings_db [] []) "C" "P");
    [reflexivity|reflexivity|reflexivity|exact Hlen].
Defined.

(** X9: in the only-child branch the error of the parent deletion
    is overwritten by the result of the child deletion: when the deletion of
    the parent fails and that of the child succeeds, [DeleteProfile]
    returns nil and the parent row is still stored. *)
Theorem DeleteProfile_only_child_parent_delete_fails
    (w : World) (C P : string) :
  fault_at 0 w = false → fault_at 1 w = false → fault_at 2 w = false →
  fault_at 3 w = false → fault_at 4 w = true → fault_at 5 w = false →
  parent_of (db w) C = Some P →
  is_stored_parent (db w) P = true →
  length (children_of P (db w)) = 1%nat →
  ∃ w', DeleteProfile C w = (Ret None, w') ∧
        is_stored (db w') C = false ∧
        is_stored_parent (db w') P = true.
Proof.
  intros H0 H1 H2 H3 H4 H5 (crow & ch & Hc & Hch & Hnp & Hpp)%parent_of_Some Hsp Hlen.
  destruct (is_stored_parent_true _ _ Hsp) as (prow & ph & Hp & Hph & Hpar).
  pose proof (row_of_ProfileId _ _ _ Hp) as HpId.
  assert (P ≠ C) as Hne.
  { intros ->. rewrite Hc in Hp. simplify_eq. congruence. }
  unfold DeleteProfile. sim. rewrite Hc. sim. rewrite Hch. sim.
  rewrite Hnp. sim. rewrite Hnp. cbn [andb negb]. sim.
  rewrite Hpp, Hp. sim. rewrite Hph. sim.
  unfold children_of at 1. cbn [child_profiles]. fold (children_of (ProfileId prow) (db w)).
  rewrite HpId, Hlen. cbn [Nat.eqb]. sim.
  eexists. split; [reflexivity|]. rewrite ?db_with_db. split.
  { unfold is_stored. cbn [profiles]. by rewrite row_of_filter_self. }
  unfold is_stored_parent. cbn [profiles].
  rewrite row_of_filter_other by done. by rewrite Hp, Hph.
Qed.

Lemma DeleteProfile_only_child_parent_delete_fails_witness :
  fault_at 4 (world_of family_db [false; false; false; false; true] []) = true ∧
  parent_of (db (world_of family_db [false; false; false; false; true] [])) "C" = Some "P" ∧
  is_stored_parent (db (world_of family_db [false; false; false; false; true] [])) "P" = true ∧
  length (children_of "P" (db (world_of family_db [false; false; false; false; true] [])))
  = 1%nat ∧
  ∃ w', DeleteProfile "C" (world_of family_db [false; false; false; false; true] [])
        = (Ret None, w') ∧
        is_stored (db w') "C" = false ∧
        is_stored_parent (db w') "P" = true.
Proof.
  split; [reflexivity|]. split; [reflexivity|]. split; [reflexivity|].
  split; [reflexivity|].
  apply (DeleteProfile_only_child_parent_delete_fails
           (world_of family_db [false; false; false; false; true] []) "C" "P");
    reflexivity.
Defined.

(** X10: deleting a child whose parent has no row ends in a
    nil-pointer panic; by then the events of the child are deleted and no
    profile row is. *)
Theorem DeleteProfile_orphan_child_panics (w : World) (C P : string) :
  healthy w = true →
  parent_of (db w) C = Some P →
  is_stored (db w) P = false →
  ∃ w', DeleteProfile C w = (Panic nil_dereference, w') ∧
        profiles (db w') = profiles (db w) ∧
        events (db w') = filter (λ e, Event.ProfileId e ≠ C) (events (db w)).
Proof.
  intros Hw (crow & ch & Hc & Hch & Hnp & Hpp)%parent_of_Some Hns.
  unfold is_stored in Hns.
  destruct (row_of P (profiles (db w))) eqn:Hp; [done|].
  unfold DeleteProfile. sim. rewrite Hc. sim. rewrite Hch. sim.
  rewrite Hnp. sim. rewrite Hnp. cbn [andb negb]. sim.
  rewrite Hpp, Hp. sim. eexists. split; [reflexivity|]. done.
Qed.

Lemma DeleteProfile_orphan_child_panics_witness :
  healthy (world_of orphan_db [] []) = true ∧
  parent_of (db (world_of orphan_db [] [])) "C" = Some "P" ∧
  is_stored (db (world_of orphan_db [] [])) "P" = false ∧
  ∃ w', DeleteProfile "C" (world_of orphan_db [] []) = (Panic nil_dereference, w') ∧
        profiles (db w') = profiles (db (world_of orphan_db [] [])) ∧
        events (db w')
        = filter (λ e, Event.ProfileId e ≠ "C") (events (db (world_of orphan_db [] []))).
Proof.
  split; [reflexivity|]. split; [reflexivity|]. split; [reflexivity|].
  apply (DeleteProfile_orphan_child_panics (world_of orphan_db [] []) "C" "P");
    reflexivity.
Defined.

(** ** [waitForProfile] and [CreateOrUpdateProfile] *)

Lemma faults_from_S from n w :
  faults_from from (S n) w = fault_at from w && faults_from (S from) n w.
Proof. done. Qed.

Lemma faults_from_ext from n w w' :
  (∀ j, fault_at j w' = fault_at j w) →
  faults_from from n w' = faults_from from n w.
Proof.
  intros H. revert from. induction n as [|n IH]; intros from; [done|].
  cbn [faults_from]. by rewrite H, IH.
Qed.

Lemma faults_from_logged from n c b w :
  faults_from from n (logged c b w) = faults_from (S from) n w.
Proof.
  revert from. induction n as [|n IH]; intros from; [done|].
  cbn [faults_from]. by rewrite fault_at_logged, IH.
Qed.

Lemma Sleep_run w :
  Sleep w = (Ret tt, snd (Sleep w)) ∧ db (snd (Sleep w)) = db w.
Proof. done. Qed.

Lemma fault_at_Sleep k w : fault_at k (Sleep w).2 = fault_at k w.
Proof. done. Qed.

Lemma trace_Sleep w :
  trace (Sleep w).2 = trace w ++ [ {| call := CSleep; ok := true; before := db w |} ].
Proof. done. Qed.

(** [waitForProfile] returns at the first read that the collaborator
    answers, after sleeping once between two reads. *)
Lemma waitForProfile_from_visible k : ∀ n i id maxRetries lastErr w row,
  (k < n)%nat → 0 ≤ i →
  first_success_at 0 k w = true →
  row_of id (profiles (db w)) = Some row →
  ∃ w', waitForProfile_from n i id maxRetries lastErr w = (Ret (Some row, None), w') ∧
        db w' = db w ∧
        (∀ j, fault_at j w' = fault_at (S k + j) w) ∧
        held w' = held w ∧
        ∃ new, trace w' = trace w ++ new ∧
               map call new
               = (if 0 <? i then [CSleep] else []) ++ polling_calls id k.
Proof.
  induction k as [|k IH]; intros n i id maxRetries lastErr w row Hk Hi Hf Hrow;
    (destruct n as [|n]; [lia|]); cbn [waitForProfile_from].
  - unfold first_success_at in Hf. cbn in Hf.
    apply negb_true_iff in Hf.
    destruct (0 <? i) eqn:Hi0.
    + rewrite run_bind. cbn [Sleep]. rewrite run_bind, repo_GetProfile_run.
      rewrite next_fault_fault_at. change (fault_at 0 _) with (fault_at 0 w) at 1.
      rewrite Hf. cbn [db]. rewrite Hrow. cbn beta iota zeta.
      eexists. split; [reflexivity|]. split; [done|]. split.
      { intros j. rewrite fault_at_logged. done. }
      split; [done|].
      eexists. split; [cbn; rewrite <- app_assoc; reflexivity|]. done.
    + rewrite run_bind, run_ret, run_bind, repo_GetProfile_run.
      rewrite next_fault_fault_at, Hf, Hrow. cbn beta iota zeta.
      eexists. split; [reflexivity|]. split; [done|]. split.
      { intros j. by rewrite fault_at_logged. }
      split; [done|].
      eexists. split; [reflexivity|]. done.
  - unfold first_success_at in Hf. rewrite faults_from_S in Hf.
    apply andb_true_iff in Hf as [[Hf0 Hfk]%andb_true_iff Hfn].
    set (w1 := if 0 <? i then (Sleep w).2 else w).
    assert (db w1 = db w ∧ (∀ j, fault_at j w1 = fault_at j w) ∧ held w1 = held w ∧
            ∃ new, trace w1 = trace w ++ new ∧
                   map call new = if 0 <? i then [CSleep] else []) as (Hdb1 & Hfa1 & Hh1 & new1 & Ht1 & Hc1).
    { unfold w1. destruct (0 <? i).
      - split; [done|]. split; [done|]. split; [done|]. eexists. split; [reflexivity|]. done.
      - split; [done|]. split; [done|]. split; [done|]. exists []. by rewrite app_nil_r. }
    assert (((if 0 <? i then Sleep else mret tt) ≫= λ _ : (),
             repo.GetProfile id ≫= λ '(profile, lastErr0),
               match profile with
               | Some p => mret (Some p, None)
               | None => waitForProfile_from n (i + 1) id maxRetries lastErr0
               end) w
            = waitForProfile_from n (i + 1) id maxRetries (Some CollaboratorError)
                (logged (CGetProfile id) false w1)) as ->.
    { rewrite run_bind.
      replace ((if 0 <? i then Sleep else mret tt) w) with (Ret tt, w1)
        by (unfold w1; by destruct (0 <? i)).
      rewrite run_bind, repo_GetProfile_run, next_fault_fault_at, Hfa1, Hf0. done. }
    destruct (IH n (i + 1) id maxRetries (Some CollaboratorError)
                (logged (CGetProfile id) false w1) row)
      as (w' & Hrun & Hdb & Hfa & Hh & new & Ht & Hc).
    + lia.
    + lia.
    + unfold first_success_at. rewrite faults_from_logged, fault_at_logged.
      rewrite (faults_from_ext _ _ w w1 Hfa1), Hfa1, Hfk. done.
    + by rewrite db_logged, Hdb1.
    + exists w'. split; [done|]. split; [by rewrite Hdb, db_logged|].
      split. { intros j. rewrite Hfa, fault_at_logged, Hfa1. f_equal. }
      split. { by rewrite Hh. }
      exists (new1 ++ {| call := CGetProfile id; ok := false; before := db w1 |} :: new).
      split.
      * rewrite Ht. cbn [trace logged]. rewrite Ht1. rewrite <- ?app_assoc. reflexivity.
      * rewrite map_app, Hc1. cbn [map call]. rewrite Hc.
        replace (0 <? i + 1) with true by (symmetry; apply Z.ltb_lt; lia).
        unfold polling_calls. reflexivity.
Qed.

Lemma waitForProfile_from_exhausted n : ∀ i id maxRetries lastErr w,
  0 ≤ i →
  is_stored (db w) id = false ∨ faults_from 0 n w = true →
  ∃ w' e,
    waitForProfile_from n i id maxRetries lastErr w = (Ret (None, Some e), w') ∧
    not_visible id maxRetries
      (match n with O => lastErr | S _ => last_read_error n w end) e ∧
    db w' = db w ∧
    held w' = held w ∧
    (∀ j, fault_at j w' = fault_at (n + j) w) ∧
    ∃ new, trace w' = trace w ++ new ∧
           map call new
           = match n with
             | O => []
             | S _ => (if 0 <? i then [CSleep] else []) ++ exhausted_calls id n
             end.
Proof.
  induction n as [|n IH]; intros i id maxRetries lastErr w Hi Hno;
    cbn [waitForProfile_from].
  - destruct lastErr as [e|]; eexists _, _; (split; [reflexivity|]);
      (split; [reflexivity|]); repeat split; exists []; by rewrite app_nil_r.
  - set (w1 := if 0 <? i then (Sleep w).2 else w).
    assert (db w1 = db w ∧ (∀ j, fault_at j w1 = fault_at j w) ∧ held w1 = held w ∧
            ∃ new, trace w1 = trace w ++ new ∧
                   map call new = if 0 <? i then [CSleep] else [])
      as (Hdb1 & Hfa1 & Hh1 & new1 & Ht1 & Hc1).
    { unfold w1. destruct (0 <? i).
      - split; [done|]. split; [done|]. split; [done|]. eexists. split; [reflexivity|]. done.
      - split; [done|]. split; [done|]. split; [done|]. exists []. by rewrite app_nil_r. }
    set (err0 := if fault_at 0 w then Some CollaboratorError else None).
    assert (((if 0 <? i then Sleep else mret tt) ≫= λ _ : (),
             repo.GetProfile id ≫= λ '(profile, lastErr0),
               match profile with
               | Some p => mret (Some p, None)
               | None => waitForProfile_from n (i + 1) id maxRetries lastErr0
               end) w
            = waitForProfile_from n (i + 1) id maxRetries err0
                (logged (CGetProfile id) (negb (fault_at 0 w)) w1)) as ->.
    { rewrite run_bind.
      replace ((if 0 <? i then Sleep else mret tt) w) with (Ret tt, w1)
        by (unfold w1; by destruct (0 <? i)).
      rewrite run_bind, repo_GetProfile_run, next_fault_fault_at, Hfa1, Hdb1.
      unfold err0. destruct (fault_at 0 w) eqn:Hf0; [done|].
      destruct Hno as [Hno|Hno]; [|by rewrite faults_from_S, Hf0 in Hno].
      unfold is_stored in Hno. by destruct (row_of id (profiles (db w))). }
    destruct (IH (i + 1) id maxRetries err0
                 (logged (CGetProfile id) (negb (fault_at 0 w)) w1))
      as (w' & e & Hrun & He & Hdb & Hh & Hfa & new & Ht & Hc).
    + lia.
    + destruct Hno as [Hno|Hno]; [left; by rewrite db_logged, Hdb1|right].
      rewrite faults_from_S in Hno. apply andb_true_iff in Hno as [_ Hno].
      by rewrite faults_from_logged, (faults_from_ext _ _ w w1 Hfa1).
    + exists w', e. split; [done|]. split.
      { destruct n as [|n]; [exact He|].
        cbn [last_read_error] in *. by rewrite fault_at_logged, Hfa1 in He. }
      split; [by rewrite Hdb, db_logged|]. split; [by rewrite Hh|].
      split. { intros j. by rewrite Hfa, fault_at_logged, Hfa1. }
      exists (new1 ++ {| call := CGetProfile id; ok := negb (fault_at 0 w);
                         before := db w1 |} :: new).
      split.
      * rewrite Ht. cbn [trace logged]. rewrite Ht1. rewrite <- ?app_assoc. reflexivity.
      * rewrite map_app, Hc1. cbn [map call]. rewrite Hc.
        destruct n as [|n]; [done|].
        replace (0 <? i + 1) with true by (symmetry; apply Z.ltb_lt; lia).
        reflexivity.
Qed.

(** In every run [waitForProfile] returns either a profile that carries
    the requested identifier or an error, never both and never neither;
    it does not panic and does not write. *)
Lemma waitForProfile_from_outcome n : ∀ i id maxRetries lastErr w,
  ∃ r w', waitForProfile_from n i id maxRetries lastErr w = (Ret r, w') ∧
          db w' = db w ∧
          match r with
          | (Some p, None) => row_of id (profiles (db w)) = Some p
          | (None, Some _) => True
          | _ => False
          end.
Proof.
  induction n as [|n IH]; intros i id maxRetries lastErr w; cbn [waitForProfile_from].
  - destruct lastErr; by eexists _, _.
  - rewrite run_bind.
    destruct (0 <? i).
    + cbn [Sleep]. rewrite run_bind, repo_GetProfile_run.
      destruct (next_fault _); cbn beta iota zeta.
      * edestruct IH as (r & w' & -> & Hdb & Hr). by exists r, w'.
      * cbn [db]. destruct (row_of id (profiles (db w))) eqn:Hrow.
        -- by eexists _, _.
        -- edestruct IH as (r & w' & -> & Hdb & Hr). exists r, w'.
           split; [done|]. split; [done|]. cbn [db logged] in Hr. by rewrite Hrow in Hr.
    + rewrite run_ret, run_bind, repo_GetProfile_run.
      destruct (next_fault _); cbn beta iota zeta.
      * edestruct IH as (r & w' & -> & Hdb & Hr). by exists r, w'.
      * destruct (row_of id (profiles (db w))) eqn:Hrow.
        -- by eexists _, _.
        -- edestruct IH as (r & w' & -> & Hdb & Hr). exists r, w'.
           split; [done|]. split; [done|]. cbn [db logged] in Hr. by rewrite Hrow in Hr.
Qed.

Lemma acquireWithRetry_granted k : ∀ n event w,
  (k < n)%nat →
  granted_after k (lock_answers w) = true →
  ∃ w', acquireWithRetry n event w = (Ret (true, None), w') ∧
        db w' = db w ∧
        faults w' = faults w ∧
        held w' = Event.ProfileId event :: held w ∧
        ∃ new, trace w' = trace w ++ new ∧
               map call new
               = concat (replicate k [CAcquire (Event.ProfileId event); CSleep])
                 ++ [CAcquire (Event.ProfileId event)].
Proof.
  induction k as [|k IH]; intros n event w Hk Hg;
    (destruct n as [|n]; [lia|]); cbn [acquireWithRetry];
    rewrite run_bind; unfold lock.Acquire; cbn [granted_after] in Hg.
  - destruct (lock_answers w) as [|[| |] rest] eqn:Ha; try done;
      (eexists; split; [reflexivity|]); repeat split;
      (eexists; split; [reflexivity|]); done.
  - destruct (lock_answers w) as [|[| |] rest] eqn:Ha; try done.
    cbn beta iota zeta. rewrite run_bind. cbn [Sleep].
    match goal with |- context [acquireWithRetry n event ?w0] =>
      destruct (IH n event w0) as (w' & Hrun & Hdb & Hfa & Hh & new & Ht & Hc);
      [lia | exact Hg | rewrite Hrun] end.
    exists w'. split; [reflexivity|]. split; [done|]. split; [done|]. split; [done|].
    eexists. split.
    + rewrite Ht. cbn [trace]. rewrite <- !app_assoc. reflexivity.
    + cbn [map call app]. by rewrite Hc.
Qed.

Lemma repo_InsertProfile_run p w :
  repo.InsertProfile p w =
  if next_fault w then (Ret (Some CollaboratorError), logged (CInsertProfile p) false w)
  else (Ret None,
        match row_of (ProfileId p) (profiles (db w)) with
        | Some _ => logged (CInsertProfile p) true w
        | None =>
            with_db {| profiles := profiles (db w) ++ [p];
                       application_data := application_data (db w);
                       child_profiles := child_profiles (db w);
                       events := events (db w) |}
                    (logged (CInsertProfile p) true w)
        end).
Proof.
  unfold repo.InsertProfile. rewrite run_bind. unfold tick.
  destruct (next_fault w); [done|]. cbn [negb]. rewrite run_bind. cbn [get_db].
  rewrite db_logged. by destruct (row_of (ProfileId p) (profiles (db w))).
Qed.

Lemma row_of_app_new id rows p :
  row_of id rows = None → ProfileId p = id → row_of id (rows ++ [p]) = Some p.
Proof.
  intros Hn Hp. unfold row_of in *. induction rows as [|q rows IH]; simpl in *.
  - by rewrite Hp, String.eqb_refl.
  - destruct (String.eqb (ProfileId q) id); [done|]. by apply IH.
Qed.

Lemma fault_at_same_faults k w w' : faults w' = faults w → fault_at k w' = fault_at k w.
Proof. unfold fault_at. by intros ->. Qed.

Lemma lock_Release_run key w :
  lock.Release key w =
  if next_fault w then (Ret (Some CollaboratorError), logged (CRelease key) false w)
  else (Ret None, (lock.drop_held key (logged (CRelease key) true w)).2).
Proof.
  unfold lock.Release. rewrite run_bind. unfold tick. by destruct (next_fault w).
Qed.



Lemma count_calls_app p es1 es2 :
  count_calls p (es1 ++ es2) = (count_calls p es1 + count_calls p es2)%nat.
Proof. unfold count_calls. by rewrite map_app, List.filter_app, length_app. Qed.

Lemma faults_from_shift a from n w w' :
  (∀ j, fault_at j w' = fault_at (a + j) w) →
  faults_from from n w' = faults_from (a + from) n w.
Proof.
  intros H. revert from. induction n as [|n IH]; intros from; [done|].
  cbn [faults_from]. by rewrite H, IH, Nat.add_succ_r.
Qed.

Lemma faults_from_last from n w :
  faults_from from (S n) w = true → fault_at (from + n) w = true.
Proof.
  revert from. induction n as [|n IH]; intros from H.
  - rewrite Nat.add_0_r. cbn in H. by apply andb_true_iff in H as [? _].
  - rewrite faults_from_S in H. apply andb_true_iff in H as [_ H].
    rewrite Nat.add_succ_r. by apply (IH (S from)).
Qed.

(** X16: when the upsert succeeds and every read after it fails,
    [CreateOrUpdateProfile] returns the not-visible error wrapping the
    error of the last read, after exactly [MaxRetryAttempts] reads; the
    row it inserted stays stored. *)
Theorem CreateOrUpdateProfile_not_visible
    (MaxRetryAttempts : Z) (event : Event.t) (k : nat) (w : World) :
  fault_at 0 w = false →
  (k < Z.to_nat MaxRetryAttempts)%nat →
  granted_after k (lock_answers w) = true →
  fault_at 1 w = false →
  faults_from 2 (Z.to_nat MaxRetryAttempts) w = true →
  ∃ w',
    CreateOrUpdateProfile MaxRetryAttempts event w
    = (Ret (None,
            Some (Errorf "profile %s not visible after insert/update: %w"
                    [Event.ProfileId event]
                    (Some (Errorf "profile %s not visible after %d retries, last error: %w"
                             [Event.ProfileId event; Itoa MaxRetryAttempts]
                             (Some CollaboratorError))))), w') ∧
    is_stored (db w') (Event.ProfileId event) = true ∧
    count_calls is_GetProfile (drop (length (trace w)) (trace w'))
    = Z.to_nat MaxRetryAttempts.
Proof.
  intros H0 Hk Hg H1 Hreads. set (id := Event.ProfileId event).
  set (n := Z.to_nat MaxRetryAttempts) in *.
  unfold CreateOrUpdateProfile. fold n. rewrite run_bind. unfold tick at 1.
  rewrite next_fault_fault_at, H0. cbn [negb]. unfold defer at 1.
  destruct (acquireWithRetry_granted k n event (logged CConn true w) Hk Hg)
    as (w1 & Hrun & Hdb1 & Hfa1 & Hh1 & new1 & Ht1 & Hc1).
  rewrite run_bind, Hrun. cbn beta iota zeta. cbn [negb]. unfold defer.
  fold id. fold (skeleton id).
  assert (∀ j, fault_at j w1 = fault_at (S j) w) as Hf1.
  { intros j. by rewrite (fault_at_same_faults j _ _ Hfa1), fault_at_logged. }
  rewrite run_bind, repo_InsertProfile_run, next_fault_fault_at, Hf1, H1.
  cbn [skeleton ProfileId]. fold (skeleton id). rewrite Hdb1, db_logged.
  set (w2 := match row_of id (profiles (db w)) with
             | Some _ => logged (CInsertProfile (skeleton id)) true w1
             | None => with_db _ (logged (CInsertProfile (skeleton id)) true w1)
             end).
  assert (∀ j, fault_at j w2 = fault_at (2 + j) w) as Hf2.
  { intros j. unfold w2. destruct (row_of id (profiles (db w)));
      by rewrite ?fault_at_with_db, fault_at_logged, Hf1. }
  assert (is_stored (db w2) id = true) as Hst2.
  { unfold w2, is_stored. destruct (row_of id (profiles (db w))) eqn:Hrow.
    - by rewrite db_logged, Hdb1, db_logged, Hrow.
    - rewrite db_with_db. cbn [profiles]. by rewrite (row_of_app_new _ _ (skeleton id)). }
  assert (∃ d, trace w2 = trace w1 ++ [ {| call := CInsertProfile (skeleton id); ok := true; before := d |} ])
    as [d2 Ht2].
  { unfold w2. destruct (row_of id (profiles (db w))); eexists; reflexivity. }
  cbn beta iota zeta. unfold waitForProfile. fold n.
  destruct (waitForProfile_from_exhausted n 0 id MaxRetryAttempts None w2)
    as (w3 & e & Hrun3 & He & Hdb3 & Hh3 & Hfa3 & new3 & Ht3 & Hc3).
  { lia. }
  { right. by rewrite (faults_from_shift 2 0 n w w2 Hf2). }
  rewrite run_bind, Hrun3. cbn beta iota zeta. rewrite run_ret. cbn [fst snd].
  destruct n as [|n'] eqn:Hn; [lia|].
  cbn [last_read_error] in He.
  rewrite Hf2, (faults_from_last 2 n' w Hreads) in He. cbn [not_visible] in He. subst e.
  eexists. split; [reflexivity|]. split.
  - assert (∀ w0, db (tick CConnClose (lock.Release id w0).2).2 = db w0) as Hdbs.
    { intros w0. rewrite lock_Release_run. by destruct (next_fault w0). }
    by rewrite Hdbs, Hdb3.
  - assert (∀ w0, ∃ b d b' d', trace (tick CConnClose (lock.Release id w0).2).2
              = trace w0 ++ [ {| call := CRelease id; ok := b; before := d |};
                              {| call := CConnClose; ok := b'; before := d' |} ])
      as Htr.
    { intros w0. rewrite lock_Release_run. destruct (next_fault w0);
        eexists _, _, _, _; cbn; rewrite <- app_assoc; reflexivity. }
    destruct (Htr w3) as (b & d & b' & d' & ->).
    rewrite Ht3, Ht2, Ht1. cbn [trace logged]. rewrite <- !app_assoc.
    rewrite drop_app_length. rewrite !count_calls_app.
    unfold count_calls at 1 2 3 4 5.
    rewrite Hc1, Hc3. cbn [map call List.filter is_GetProfile length Z.ltb Z.compare app].
    assert (∀ m, length (List.filter is_GetProfile
                   (concat (replicate m [CAcquire id; CSleep]) ++ [CAcquire id])) = O) as ->.
    { induction m as [|m IHm]; [done|]. cbn. apply IHm. }
    assert (∀ m, length (List.filter is_GetProfile (exhausted_calls id (S m))) = S m) as ->.
    { induction m as [|m IHm]; [done|].
      unfold exhausted_calls, polling_calls in *. cbn [replicate concat app List.filter is_GetProfile length] in *.
      by rewrite IHm. }
    lia.
Qed.

Lemma CreateOrUpdateProfile_not_visible_witness :
  fault_at 0 (world_of family_db [false; false; true; true] [Granted]) = false ∧
  (0 < Z.to_nat 2)%nat ∧
  granted_after 0 (lock_answers (world_of family_db [false; false; true; true] [Granted]))
  = true ∧
  fault_at 1 (world_of family_db [false; false; true; true] [Granted]) = false ∧
  faults_from 2 (Z.to_nat 2) (world_of family_db [false; false; true; true] [Granted])
  = true ∧
  ∃ w',
    CreateOrUpdateProfile 2 (Event.mk "N" "identify")
      (world_of family_db [false; false; true; true] [Granted])
    = (Ret (None,
            Some (Errorf "profile %s not visible after insert/update: %w" ["N"]
                    (Some (Errorf "profile %s not visible after %d retries, last error: %w"
                             ["N"; Itoa 2] (Some CollaboratorError))))), w') ∧
    is_stored (db w') "N" = true ∧
    count_calls is_GetProfile
      (drop (length (trace (world_of family_db [false; false; true; true] [Granted])))
            (trace w'))
    = Z.to_nat 2.
Proof.
  split; [reflexivity|]. split; [vm_compute; lia|]. split; [reflexivity|].
  split; [reflexivity|]. split; [reflexivity|].
  apply (CreateOrUpdateProfile_not_visible 2 (Event.mk "N" "identify") 0
           (world_of family_db [false; false; true; true] [Granted]));
    [reflexivity|vm_compute; lia|reflexivity|reflexivity|reflexivity].
Defined.

Lemma lock_script n : ∀ answers,
  lock_denied n answers = true ∨
  ∃ k, (k < n)%nat ∧ granted_after k answers = true.
Proof.
  induction n as [|n IH]; intros answers; [by left|].
  destruct answers as [|[| |] rest]; cbn [lock_denied].
  - right. exists 0%nat. split; [lia|done].
  - right. exists 0%nat. split; [lia|done].
  - destruct (IH rest) as [Hd|(k & Hk & Hg)]; [by left|].
    right. exists (S k). split; [lia|done].
  - by left.
Qed.

Lemma read_script n : ∀ from w,
  faults_from from n w = true ∨
  ∃ j, (j < n)%nat ∧ first_success_at from j w = true.
Proof.
  induction n as [|n IH]; intros from w; [by left|].
  cbn [faults_from]. destruct (fault_at from w) eqn:Hf.
  - destruct (IH (S from) w) as [Hall|(j & Hj & Hs)]; [by left|].
    right. exists (S j). split; [lia|].
    unfold first_success_at in *. cbn [faults_from]. rewrite Hf.
    by rewrite Nat.add_succ_r.
  - right. exists 0%nat. split; [lia|].
    unfold first_success_at. cbn [faults_from]. by rewrite Nat.add_0_r, Hf.
Qed.

Lemma acquireWithRetry_denied_run n : ∀ event w,
  lock_denied n (lock_answers w) = true →
  ∃ oe w',
    acquireWithRetry n event w = (Ret (false, oe), w') ∧
    db w' = db w ∧ faults w' = faults w ∧ held w' = held w ∧
    ∃ new, trace w' = trace w ++ new ∧
           map call new = denied_attempts (Event.ProfileId event) n (lock_answers w).
Proof.
  induction n as [|n IH]; intros event w Hd; cbn [acquireWithRetry].
  - eexists _, _. split; [reflexivity|]. repeat split.
    exists []. by rewrite app_nil_r.
  - cbn [lock_denied] in Hd. rewrite run_bind. unfold lock.Acquire.
    destruct (lock_answers w) as [|[| |] rest] eqn:Ha; try done.
    + cbn beta iota zeta. rewrite run_bind. cbn [Sleep].
      match goal with |- context [acquireWithRetry n event ?w0] =>
        destruct (IH event w0) as (oe & w' & Hrun & Hdb & Hfa & Hh & new & Ht & Hc);
        [exact Hd | rewrite Hrun] end.
      exists oe, w'. split; [reflexivity|]. split; [done|]. split; [done|].
      split; [done|]. eexists. split.
      * rewrite Ht. cbn [trace]. rewrite <- !app_assoc. reflexivity.
      * cbn [map call app denied_attempts]. by rewrite Hc.
    + eexists _, _. split; [reflexivity|]. repeat split.
      eexists. split; [reflexivity|]. done.
Qed.

Lemma release_then_close id w0 :
  ∃ rel cls,
    trace (tick CConnClose (lock.Release id w0).2).2 = trace w0 ++ [rel; cls] ∧
    call rel = CRelease id ∧ call cls = CConnClose ∧
    held (tick CConnClose (lock.Release id w0).2).2
    = (if ok rel then filter (λ key, key ≠ id) (held w0) else held w0).
Proof.
  rewrite lock_Release_run. destruct (next_fault w0) eqn:Hf.
  - exists {| call := CRelease id; ok := false; before := db w0 |},
           {| call := CConnClose;
              ok := negb (next_fault (logged (CRelease id) false w0));
              before := db w0 |}.
    split; [|done]. cbn. by rewrite <- app_assoc.
  - exists {| call := CRelease id; ok := true; before := db w0 |},
           {| call := CConnClose;
              ok := negb (next_fault (logged (CRelease id) true w0));
              before := db w0 |}.
    split; [|done]. cbn. by rewrite <- app_assoc.
Qed.

Lemma CreateOrUpdateProfile_run_shape
    (MaxRetryAttempts : Z) (event : Event.t) (w : World) :
  ∃ r w' new,
    CreateOrUpdateProfile MaxRetryAttempts event w = (r, w') ∧
    trace w' = trace w ++ new ∧
    resolver_run (Z.to_nat MaxRetryAttempts) (Event.ProfileId event) w w' new.
Proof.
  set (id := Event.ProfileId event). set (n := Z.to_nat MaxRetryAttempts).
  unfold CreateOrUpdateProfile. fold n. rewrite run_bind. unfold tick at 1.
  destruct (next_fault w) eqn:Hconn; cbn [negb].
  { rewrite run_ret. eexists _, _, [ {| call := CConn; ok := false; before := db w |} ].
    split; [reflexivity|]. split; [reflexivity|]. left. by rewrite Hconn. }
  unfold defer at 1.
  destruct (lock_script n (lock_answers w)) as [Hden|(k & Hk & Hg)].
  - (* the lock is not obtained *)
    destruct (acquireWithRetry_denied_run n event (logged CConn true w) Hden)
      as (oe & w1 & Hrun & Hdb1 & Hfa1 & Hh1 & new1 & Ht1 & Hc1).
    rewrite run_bind, Hrun. cbn beta iota zeta.
    assert (∀ r : Res (option Profile * option error),
              ∃ r' w' new, (r, (tick CConnClose w1).2) = (r', w') ∧
                           trace w' = trace w ++ new ∧
                           resolver_run n id w w' new) as Hend.
    { intros r. eexists _, _, _. split; [reflexivity|]. split.
      - cbn [snd tick trace logged]. rewrite Ht1. cbn [trace logged].
        rewrite <- !app_assoc. reflexivity.
      - right. left. split; [done|]. split; [done|]. split.
        + rewrite !map_app. cbn [map call app]. by rewrite Hc1.
        + cbn [snd tick held logged]. by rewrite Hh1. }
    destruct oe as [e|]; [rewrite run_ret; apply Hend|].
    cbn [negb]. rewrite run_ret. apply Hend.
  - (* the lock is granted at attempt k + 1 *)
    destruct (acquireWithRetry_granted k n event (logged CConn true w) Hk Hg)
      as (w1 & Hrun & Hdb1 & Hfa1 & Hh1 & new1 & Ht1 & Hc1).
    rewrite run_bind, Hrun. cbn beta iota zeta. cbn [negb]. unfold defer.
    fold id. fold (skeleton id).
    assert (∀ j, fault_at j w1 = fault_at (S j) w) as Hf1.
    { intros j. by rewrite (fault_at_same_faults j _ _ Hfa1), fault_at_logged. }
    (* what is left once the body of the locked region has run *)
    assert (∀ (r : Res (option Profile * option error)) w3 b d l3,
              trace w3 = trace w1 ++ {| call := CInsertProfile (skeleton id);
                                        ok := b; before := d |} :: l3 →
              held w3 = held w1 →
              (if fault_at 1 w then map call l3 = []
               else read_calls id n w (map call l3)) →
              ∃ r' w' new,
                (r, (tick CConnClose (lock.Release id w3).2).2) = (r', w') ∧
                trace w' = trace w ++ new ∧
                resolver_run n id w w' new)
      as Hend.
    { intros r w3 b d l3 Ht3 Hh3 Hl3.
      destruct (release_then_close id w3) as (rel & cls & Ht & Hrel & Hcls & Hheld).
      eexists _, _, _. split; [reflexivity|]. split.
      - rewrite Ht, Ht3, Ht1. cbn [trace logged]. rewrite <- !app_assoc. reflexivity.
      - right. right. split; [done|].
        exists k, (map call l3), ([ {| call := CConn; ok := true; before := db w |} ]
                  ++ new1 ++ {| call := CInsertProfile (skeleton id); ok := b; before := d |} :: l3),
               rel, cls.
        split; [done|]. split; [done|]. split.
        { rewrite <- !app_assoc. reflexivity. }
        split.
        { rewrite !map_app. cbn [map call app]. rewrite Hc1.
          rewrite <- !app_assoc. reflexivity. }
        split; [done|]. split; [done|]. split; [exact Hl3|].
        intros Hok. rewrite Hheld, Hok, Hh3, Hh1. cbn [held logged].
        rewrite filter_cons, decide_False by (intros H; by apply H). done. }
    rewrite run_bind, repo_InsertProfile_run, next_fault_fault_at, Hf1.
    destruct (fault_at 1 w) eqn:Hins.
    { cbn beta iota zeta. rewrite run_ret. cbn [fst snd].
      eapply Hend with (l3 := []); [reflexivity|done|done]. }
    cbn [skeleton ProfileId]. fold (skeleton id). rewrite Hdb1, db_logged.
    set (w2 := match row_of id (profiles (db w)) with
               | Some _ => logged (CInsertProfile (skeleton id)) true w1
               | None => with_db _ (logged (CInsertProfile (skeleton id)) true w1)
               end).
    assert (∀ j, fault_at j w2 = fault_at (2 + j) w) as Hf2.
    { intros j. unfold w2. destruct (row_of id (profiles (db w)));
        by rewrite ?fault_at_with_db, fault_at_logged, Hf1. }
    assert (∃ p, row_of id (profiles (db w2)) = Some p) as [p Hrow2].
    { unfold w2. destruct (row_of id (profiles (db w))) as [row|] eqn:Hrow.
      - exists row. by rewrite db_logged, Hdb1, db_logged.
      - exists (skeleton id). rewrite db_with_db. cbn [profiles].
        by apply row_of_app_new. }
    assert (∃ d, trace w2 = trace w1 ++ [ {| call := CInsertProfile (skeleton id);
                                             ok := true; before := d |} ])
      as [d2 Ht2].
    { unfold w2. destruct (row_of id (profiles (db w))); eexists; reflexivity. }
    assert (held w2 = held w1) as Hh2.
    { unfold w2. by destruct (row_of id (profiles (db w))). }
    cbn beta iota zeta. unfold waitForProfile. fold n.
    destruct (read_script n 0%nat w2) as [Hall|(j & Hj & Hs)].
    + (* every read fails *)
      destruct (waitForProfile_from_exhausted n 0 id MaxRetryAttempts None w2)
        as (w3 & e & Hrun3 & He & Hdb3 & Hh3 & Hfa3 & new3 & Ht3 & Hc3).
      { lia. } { by right. }
      rewrite run_bind, Hrun3. cbn beta iota zeta. rewrite run_ret. cbn [fst snd].
      eapply Hend with (l3 := new3).
      * rewrite Ht3, Ht2, <- app_assoc. reflexivity.
      * by rewrite Hh3.
      * right. split.
        -- by rewrite (faults_from_shift 2 0 n w w2 Hf2) in Hall.
        -- rewrite Hc3. destruct n; [lia|done].
    + (* the read j + 1 is answered *)
      destruct (waitForProfile_from_visible j n 0 id MaxRetryAttempts None w2 p)
        as (w3 & Hrun3 & Hdb3 & Hfa3 & Hh3 & new3 & Ht3 & Hc3);
        [lia|lia|exact Hs|exact Hrow2|].
      rewrite run_bind, Hrun3. cbn beta iota zeta. rewrite run_ret. cbn [fst snd].
      eapply Hend with (l3 := new3).
      * rewrite Ht3, Ht2, <- app_assoc. reflexivity.
      * by rewrite Hh3.
      * left. exists j. split; [done|]. split; [|by rewrite Hc3].
        unfold first_success_at in *.
        by rewrite (faults_from_shift 2 0 j w w2 Hf2), (Hf2 (0 + j)%nat) in Hs.
Qed.


(** ** The list operations *)

Section ListFacts.
Context (ParseFloat : string → float64 * option strconv.NumError)
        (FormatFloat : float64 → string)
        (selects : list string → Profile → bool).

Lemma hoare_mergeRows P E rows acc :
  (∀ id, admits P E (CGetProfile id)) →
  (∀ id, admits P E (CFetchApplicationData id)) →
  (∀ id, admits P E (CFetchChildProfiles id)) →
  hoare P E (mergeRows rows acc) (λ _, P).
Proof.
  intros H1 H2 H3. revert acc. induction rows as [|row rows IH]; intros acc;
    cbn [mergeRows].
  - by apply hoare_ret.
  - repeat (hoare_step; side; try apply H1; try apply H2; try apply H3).
    all: try apply IH. all: side.
Qed.

(** X18: in every run, faults included, [GetAllProfiles] and
    [GetAllProfilesWithFilter] leave the tables as they are and issue read
    calls only. *)
Theorem list_variants_never_write (filters : list string) (w : World) :
  (db (GetAllProfiles w).2 = db w ∧
   grows (λ e, is_read (call e) = true) w (GetAllProfiles w).2) ∧
  (db (GetAllProfilesWithFilter ParseFloat FormatFloat selects filters w).2 = db w ∧
   grows (λ e, is_read (call e) = true) w
         (GetAllProfilesWithFilter ParseFloat FormatFloat selects filters w).2).
Proof.
  split.
  - cut (hoare (λ d, d = db w) (λ e, is_read (call e) = true) GetAllProfiles
               (λ _ d, d = db w)).
    { intros H. by apply H. }
    unfold GetAllProfiles.
    eapply hoare_bind; [apply hoare_GetAllProfiles; side | intros [rows err] | side].
    destruct err; [by apply hoare_ret|]. destruct rows; [by apply hoare_ret|].
    eapply hoare_bind; [apply hoare_mergeRows; side | intros ? | side].
    by apply hoare_ret.
  - cut (hoare (λ d, d = db w) (λ e, is_read (call e) = true)
               (GetAllProfilesWithFilter ParseFloat FormatFloat selects filters)
               (λ _ d, d = db w)).
    { intros H. by apply H. }
    unfold GetAllProfilesWithFilter.
    eapply hoare_bind with (Q1 := λ _ d, d = db w); [| intros [rs err] | side].
    { unfold schemaRepo_GetProfileEnrichmentRules.
      eapply hoare_bind; [apply hoare_tick; side | intros [|] | side].
      - eapply hoare_bind with (Q1 := λ _ d, d = db w); [| intros ? | side].
        + intros w0 Hw0. split; [done|]. apply grows_refl.
        + by apply hoare_ret.
      - by apply hoare_ret. }
    destruct err; [by apply hoare_ret|]. cbv zeta.
    eapply hoare_bind with (Q1 := λ _ d, d = db w); [| intros [rows err] | side].
    { unfold repo_GetAllProfilesWithFilter.
      eapply hoare_bind; [apply hoare_tick; side | intros [|] | side].
      - eapply hoare_bind with (Q1 := λ _ d, d = db w); [| intros ? | side].
        + intros w0 Hw0. split; [done|]. apply grows_refl.
        + by apply hoare_ret.
      - by apply hoare_ret. }
    destruct err; [by apply hoare_ret|].
    eapply hoare_bind; [apply hoare_mergeRows; side | intros ? | side].
    by apply hoare_ret.
Qed.

(** Whatever the loop appends carries, in order, identifiers of the rows
    it was given. *)
Lemma mergeRows_ids rows : ∀ acc w res w',
  mergeRows rows acc w = (Ret res, w') →
  ∃ kept, res = acc ++ kept ∧
          sublist (map ProfileId kept) (map ProfileId rows).
Proof.
  induction rows as [|row rows IH]; intros acc w res w'; cbn [mergeRows].
  - rewrite run_ret. intros ?; simplify_eq. exists []. by rewrite app_nil_r.
  - rewrite run_bind. destruct (Hierarchy row) as [h|]; cbn [deref]; [|done].
    rewrite run_ret. destruct (IsParent h).
    + intros Hrun. destruct (IH _ _ _ _ Hrun) as (kept & -> & Hsub).
      exists (row :: kept). rewrite <- app_assoc. split; [done|].
      cbn [map]. by apply sublist_skip.
    + rewrite run_bind, repo_GetProfile_run.
      assert (∀ w0, mergeRows rows acc w0 = (Ret res, w') →
                ∃ kept, res = acc ++ kept ∧
                        sublist (map ProfileId kept) (map ProfileId (row :: rows)))
        as Hskip.
      { intros w0 Hrun. destruct (IH _ _ _ _ Hrun) as (kept & -> & Hsub).
        exists kept. split; [done|]. cbn [map]. by apply sublist_cons. }
      destruct (next_fault w); cbn beta iota zeta; [apply Hskip|].
      destruct (row_of (ParentProfileID h) (profiles (db w))) as [master|];
        [|apply Hskip].
      rewrite run_bind, repo_FetchApplicationData_run. cbn beta iota zeta.
      destruct (if next_fault _ then _ else _) as [appData ?].
      rewrite run_bind, repo_FetchChildProfiles_run. cbn beta iota zeta.
      destruct (if next_fault _ then _ else _) as [children ?].
      rewrite run_bind. cbn [set_ApplicationData Hierarchy].
      destruct (Hierarchy master) as [mh|]; cbn [deref]; [|done].
      rewrite run_ret. intros Hrun.
      destruct (IH _ _ _ _ Hrun) as (kept & -> & Hsub).
      eexists (_ :: kept). rewrite <- app_assoc. split; [reflexivity|].
      cbn [map set_Hierarchy set_ProfileId ProfileId]. by apply sublist_skip.
Qed.

(** X19: the identifiers of the profiles [GetAllProfiles] returns
    are, in order, identifiers of stored rows (a sublist: rows are skipped,
    never invented, repeated or reordered), and with an error the list is
    empty. *)
Theorem GetAllProfiles_ids (w : World) (res : list Profile)
    (err : option error) (w' : World) :
  GetAllProfiles w = (Ret (res, err), w') →
  sublist (map ProfileId res) (map ProfileId (profiles (db w))) ∧
  (err ≠ None → res = []).
Proof.
  unfold GetAllProfiles. rewrite run_bind. unfold repo.GetAllProfiles.
  rewrite run_bind. unfold tick. destruct (next_fault w); cbn [negb].
  - rewrite run_ret. cbn beta iota zeta. rewrite run_ret.
    intros ?; simplify_eq. split; [apply sublist_nil_l|done].
  - rewrite run_bind. cbn [get_db]. rewrite run_ret. cbn beta iota zeta.
    rewrite db_logged.
    destruct (profiles (db w)) as [|row rows] eqn:Hrows.
    + rewrite run_ret. intros ?; simplify_eq. split; [done|done].
    + rewrite run_bind.
      destruct (mergeRows (row :: rows) [] _) as [[r|s] w1] eqn:Hrun; [|done].
      rewrite run_ret. intros ?; simplify_eq.
      destruct (mergeRows_ids _ _ _ _ _ Hrun) as (kept & -> & Hsub).
      split; [done|done].
Qed.

End ListFacts.

Lemma GetAllProfiles_ids_witness :
  ∃ res err w',
    GetAllProfiles family = (Ret (res, err), w') ∧
    sublist (map ProfileId res) (map ProfileId (profiles (db family))) ∧
    (err ≠ None → res = []).
Proof.
  exists (match (GetAllProfiles family).1 with Ret r => r.1 | Panic _ => [] end),
         (match (GetAllProfiles family).1 with Ret r => r.2 | Panic _ => None end),
         (GetAllProfiles family).2.
  split; [reflexivity|].
  apply (GetAllProfiles_ids family _ _ (GetAllProfiles family).2). reflexivity.
Defined.

Lemma mergeRows_complete rows : ∀ acc w,
  healthy w = true →
  forallb (resolvable (db w)) rows = true →
  ∃ vs w', mergeRows rows acc w = (Ret (acc ++ vs), w') ∧
           db w' = db w ∧
           Forall2 (listed_as (db w)) rows vs.
Proof.
  induction rows as [|row rows IH]; intros acc w Hw Hall.
  - exists [], w. rewrite app_nil_r. by repeat split.
  - cbn [forallb] in Hall. apply andb_true_iff in Hall as [Hrow Hall].
    unfold resolvable in Hrow. cbn [mergeRows].
    destruct (Hierarchy row) as [h|] eqn:Hh; [|done]. sim.
    destruct (IsParent h) eqn:Hp.
    + destruct (IH (acc ++ [row]) w Hw Hall) as (vs & w' & Hrun & Hdb & HF).
      exists (row :: vs), w'. rewrite Hrun, <- app_assoc. split; [done|]. split; [done|].
      constructor; [|done]. split; [done|]. by rewrite Hh, Hp.
    + cbn [orb] in Hrow. sim.
      destruct (row_of (ParentProfileID h) (profiles (db w))) as [master|] eqn:Hm; [|done].
      destruct (Hierarchy master) as [mh|] eqn:Hmh; [|done]. sim. rewrite ?Hmh. sim.
      match goal with |- context [mergeRows rows (acc ++ [?v]) ?w0] =>
        destruct (IH (acc ++ [v]) w0) as (vs & w' & Hrun & Hdb & HF);
        [eauto 10 with world | done | exists (v :: vs), w'] end.
      rewrite Hrun, <- app_assoc. split; [done|]. split; [done|].
      constructor; [|done]. split; [done|]. rewrite Hh, Hp.
      exists master. by repeat split.
Qed.

Section FilterRows.
Context (ParseFloat : string → float64 * option strconv.NumError)
        (FormatFloat : float64 → string)
        (selects : list string → Profile → bool).

(** X20: without faults, when every row the filtered query returns has
    a hierarchy and every returned child has a stored parent with a
    hierarchy, [GetAllProfilesWithFilter] returns one profile per returned
    row, in order: a parent row as it is, a child as the data of its
    parent under the child's identifier.  The flag [ListProfile] of a row
    plays no part: the service does not test it. *)
Theorem GetAllProfilesWithFilter_complete (filters : list string) (w : World) :
  healthy w = true →
  forallb (resolvable (db w))
    (List.filter
       (selects (omap (rewriteFilter ParseFloat FormatFloat
                         (buildPropertyTypeMap (rules w))) filters))
       (profiles (db w))) = true →
  ∃ res w',
    GetAllProfilesWithFilter ParseFloat FormatFloat selects filters w
    = (Ret (res, None), w') ∧
    Forall2 (listed_as (db w))
      (List.filter
         (selects (omap (rewriteFilter ParseFloat FormatFloat
                           (buildPropertyTypeMap (rules w))) filters))
         (profiles (db w)))
      res.
Proof.
  intros Hw Hall. set (translated := omap _ filters) in *.
  unfold GetAllProfilesWithFilter, schemaRepo_GetProfileEnrichmentRules.
  rewrite !run_bind, (tick_healthy _ _ Hw).
  rewrite run_bind. cbn [get_rules]. rewrite run_ret. cbn beta iota zeta.
  change (rules (logged CGetProfileEnrichmentRules true w)) with (rules w).
  rewrite (rewriteFilters_omap ParseFloat FormatFloat). cbn [app].
  fold translated.
  unfold repo_GetAllProfilesWithFilter. rewrite !run_bind.
  rewrite tick_healthy by eauto with world.
  rewrite run_bind. cbn [get_db]. rewrite run_ret. cbn beta iota zeta.
  rewrite !db_logged. rewrite run_bind.
  match goal with |- context [mergeRows ?rows [] ?w2] =>
    destruct (mergeRows_complete rows [] w2) as (vs & w' & Hrun & Hdb & HF);
    [eauto with world | by rewrite !db_logged | rewrite Hrun] end.
  exists vs, w'. split; [reflexivity|]. by rewrite !db_logged in HF.
Qed.

End FilterRows.

Lemma GetAllProfilesWithFilter_complete_witness :
  healthy (world_of hidden_db [] []) = true ∧
  forallb (resolvable (db (world_of hidden_db [] [])))
    (List.filter
       ((λ _ _, true)
          (omap (rewriteFilter (λ _, (Float64frombits 0, Some strconv.ErrSyntax))
                   (λ _, "0") (buildPropertyTypeMap (rules (world_of hidden_db [] []))))
                []))
       (profiles (db (world_of hidden_db [] [])))) = true ∧
  ∃ res w',
    GetAllProfilesWithFilter (λ _, (Float64frombits 0, Some strconv.ErrSyntax))
      (λ _, "0") (λ _ _, true) [] (world_of hidden_db [] [])
    = (Ret (res, None), w') ∧
    Forall2 (listed_as (db (world_of hidden_db [] [])))
      (List.filter
         ((λ _ _, true)
            (omap (rewriteFilter (λ _, (Float64frombits 0, Some strconv.ErrSyntax))
                     (λ _, "0") (buildPropertyTypeMap (rules (world_of hidden_db [] []))))
                  []))
         (profiles (db (world_of hidden_db [] []))))
      res.
Proof.
  split; [reflexivity|]. split; [reflexivity|].
  apply (GetAllProfilesWithFilter_complete
           (λ _, (Float64frombits 0, Some strconv.ErrSyntax)) (λ _, "0")
           (λ _ _, true) [] (world_of hidden_db [] [])); reflexivity.
Defined.

(** ** [strconv.Itoa] against [strconv.Atoi] *)

Lemma string_of_uint_digits u :
  NilEmpty.string_of_uint u = digits_text (uint_digits u).
Proof. induction u; cbn [NilEmpty.string_of_uint uint_digits digits_text]; by rewrite ?IHu. Qed.

Lemma are_digits_uint u : are_digits (uint_digits u) = true.
Proof. induction u; cbn [uint_digits are_digits forallb]; [done|..]; exact IHu. Qed.

Lemma of_uint_acc_decimal u : ∀ acc,
  Z.pos (Pos.of_uint_acc u acc) = decimal_from (uint_digits u) (Z.pos acc).
Proof.
  induction u; intros acc; cbn [Pos.of_uint_acc uint_digits]; [done|..];
    change (decimal_from (?d :: ?ds) ?n) with (decimal_from ds (10 * n + d));
    rewrite IHu; f_equal; lia.
Qed.

Lemma of_uint_decimal u : Z.of_N (Pos.of_uint u) = decimal (uint_digits u).
Proof.
  induction u; cbn [Pos.of_uint uint_digits]; [done|exact IHu|..];
    cbn [Z.of_N]; rewrite of_uint_acc_decimal; reflexivity.
Qed.

Lemma decimal_to_uint p : decimal (uint_digits (Pos.to_uint p)) = Z.pos p.
Proof. by rewrite <- of_uint_decimal, DecimalPos.Unsigned.of_to. Qed.

Lemma Itoa_pos p : Itoa (Z.pos p) = digits_text (uint_digits (Pos.to_uint p)).
Proof.
  unfold Itoa. cbn [Z.to_int NilZero.string_of_int]. unfold NilZero.string_of_uint.
  pose proof (DecimalPos.Unsigned.to_uint_nonnil p) as Hnn.
  rewrite <- string_of_uint_digits. by destruct (Pos.to_uint p).
Qed.

Lemma Itoa_neg p :
  Itoa (Z.neg p) = String "-" (digits_text (uint_digits (Pos.to_uint p))).
Proof.
  unfold Itoa. cbn [Z.to_int NilZero.string_of_int]. unfold NilZero.string_of_uint.
  pose proof (DecimalPos.Unsigned.to_uint_nonnil p) as Hnn.
  rewrite <- string_of_uint_digits. by destruct (Pos.to_uint p).
Qed.

(** The decimal text of an [int64] is read back as it was written. *)
Lemma Atoi_reads_Itoa (z : Z) :
  - 2 ^ 63 ≤ z < 2 ^ 63 → strconv.Atoi (Itoa z) = (z, None).
Proof.
  intros Hz. destruct z as [|p|p].
  - reflexivity.
  - rewrite Itoa_pos.
    pose proof (decimal_to_uint p) as Hd. pose proof (are_digits_uint (Pos.to_uint p)) as Ha.
    pose proof (DecimalPos.Unsigned.to_uint_nonnil p) as Hnn.
    destruct (uint_digits (Pos.to_uint p)) as [|d ds] eqn:Hu.
    { by destruct (Pos.to_uint p). }
    destruct (Atoi_decimal d ds Ha) as [Hpos _]. rewrite Hpos; [by rewrite Hd|lia].
  - rewrite Itoa_neg.
    pose proof (decimal_to_uint p) as Hd. pose proof (are_digits_uint (Pos.to_uint p)) as Ha.
    pose proof (DecimalPos.Unsigned.to_uint_nonnil p) as Hnn.
    destruct (uint_digits (Pos.to_uint p)) as [|d ds] eqn:Hu.
    { by destruct (Pos.to_uint p). }
    destruct (Atoi_decimal d ds Ha) as [_ Hneg]. rewrite Hneg; [by rewrite Hd|lia].
Qed.

(** X25: [strconv.Atoi] reads back what [strconv.Itoa] writes, for
    every 64-bit integer, the smallest one included; so
    [parseTypedValueForFilters] gives for the type [int] and the decimal
    text of an integer that integer. *)
Theorem Atoi_Itoa (ParseFloat : string → float64 * option strconv.NumError) (z : Z) :
  - 2 ^ 63 ≤ z < 2 ^ 63 →
  strconv.Atoi (Itoa z) = (z, None) ∧
  parseTypedValueForFilters ParseFloat "int" (Itoa z) = AInt z.
Proof.
  intros Hz. pose proof (Atoi_reads_Itoa z Hz) as Hread. split; [exact Hread|].
  unfold parseTypedValueForFilters.
  change (String.eqb "int" "int") with true. cbn iota. by rewrite Hread.
Qed.

Lemma Atoi_Itoa_witness :
  - 2 ^ 63 ≤ -42 < 2 ^ 63 ∧
  strconv.Atoi (Itoa (-42)) = (-42, None) ∧
  parseTypedValueForFilters (λ _, (Float64frombits 0, Some strconv.ErrSyntax))
    "int" (Itoa (-42)) = AInt (-42).
Proof.
  split; [lia|].
  apply (Atoi_Itoa (λ _, (Float64frombits 0, Some strconv.ErrSyntax)) (-42)). lia.
Defined.

(** Whatever the text, the integer [Atoi] returns is an [int64]. *)
Lemma Atoi_digits_range s : ∀ n v,
  - 2 ^ 63 ≤ n < 2 ^ 63 →
  strconv.Atoi_digits s n = Some v → - 2 ^ 63 ≤ v < 2 ^ 63.
Proof.
  induction s as [|c s IH]; intros n v Hn; cbn [strconv.Atoi_digits].
  - intros ?; simplify_eq. done.
  - cbv zeta. destruct (9 <? _); [done|]. apply IH.
    unfold strconv.int64. pose proof (Z.mod_pos_bound (n * 10 + strconv.uint8 (strconv.byte c - 48) + 2 ^ 63) (2 ^ 64)). lia.
Qed.

Lemma int64_range z : - 2 ^ 63 ≤ strconv.int64 z < 2 ^ 63.
Proof. unfold strconv.int64. pose proof (Z.mod_pos_bound (z + 2 ^ 63) (2 ^ 64)). lia. Qed.

Lemma Atoi_range s : - 2 ^ 63 ≤ (strconv.Atoi s).1 < 2 ^ 63.
Proof.
  unfold strconv.Atoi. cbv zeta. destruct (_ && _).
  - destruct s as [|s0 tl]; [cbn; lia|].
    destruct (_ && _); [cbn; lia|].
    destruct (strconv.Atoi_digits _ 0) as [v|] eqn:Hd; [|cbn; lia].
    apply Atoi_digits_range in Hd; [|lia].
    destruct (Ascii.eqb s0 "-"); cbn [fst]; [apply int64_range|done].
  - unfold strconv.ParseInt. destruct s as [|s0 tl]; [cbn; lia|]. cbv zeta.
    destruct (strconv.ParseUint _) as [v [[|]|]]; [cbn; lia| |];
      (destruct (negb _ && _); [cbn; lia|]; destruct (_ && _); [cbn; lia|];
       destruct (Ascii.eqb s0 "-"); cbn [fst]; apply int64_range).
Qed.

(** ** The filter translation *)

(** X22: [strings.SplitN(s, " ", n)] with [n > 0] loses nothing:
    joining the parts with a space gives [s] back; there are at most [n]
    parts and only the last can hold a space. *)
Theorem SplitN_join (s : string) (n : nat) :
  (0 < n)%nat →
  String.concat " " (SplitN s n) = s ∧
  (length (SplitN s n) ≤ n)%nat ∧
  ∀ i part, (S i < length (SplitN s n))%nat →
            SplitN s n !! i = Some part → spaces part = O.
Proof.
  intros Hn. split; [by apply SplitN_concat|]. split.
  - rewrite length_SplitN. lia.
  - apply SplitN_inner_parts.
Qed.

Lemma SplitN_join_witness :
  (0 < 3)%nat ∧
  String.concat " " (SplitN "age > 30 40" 3) = "age > 30 40" ∧
  (length (SplitN "age > 30 40" 3) ≤ 3)%nat ∧
  ∀ i part, (S i < length (SplitN "age > 30 40" 3))%nat →
            SplitN "age > 30 40" 3 !! i = Some part → spaces part = O.
Proof.
  split; [lia|]. apply (SplitN_join "age > 30 40" 3). lia.
Defined.

Lemma SplitN_3_spaces f a b c :
  SplitN f 3 = [a; b; c] → spaces a = O ∧ spaces b = O.
Proof.
  intros H. pose proof (SplitN_inner_parts 3 f) as Hsp.
  rewrite H in Hsp. split.
  - apply (Hsp 0%nat a); [cbn; lia|done].
  - apply (Hsp 1%nat b); [cbn; lia|done].
Qed.

Section FilterRoundTrip.
Context (ParseFloat : string → float64 * option strconv.NumError)
        (FormatFloat : float64 → string).

(** X23: the translation of a filter is stable: for a field that is
    not declared float or double, translating a translated filter gives it
    back unchanged. *)
Theorem rewriteFilter_idempotent
    (propertyTypeMap : gmap string string) (f g : string) :
  is_float_type (declared_type propertyTypeMap f) = false →
  rewriteFilter ParseFloat FormatFloat propertyTypeMap f = Some g →
  rewriteFilter ParseFloat FormatFloat propertyTypeMap g = Some g.
Proof.
  unfold declared_type, rewriteFilter.
  destruct (SplitN f 3) as [|field [|operator [|rawValue [|x l]]]] eqn:Hsplit; try done.
  destruct (SplitN_3_spaces _ _ _ _ Hsplit) as [Hf Ho].
  set (t := default "" (propertyTypeMap !! field)). cbv zeta.
  intros Hfloat Hg.
  assert (∃ v, g = field +:+ " " +:+ operator +:+ " " +:+ v ∧
               match parseTypedValueForFilters ParseFloat t v with
               | AString v' => v'
               | _ => Sprintf_v FormatFloat (parseTypedValueForFilters ParseFloat t v)
               end = v) as (v & -> & Hv).
  { eexists. split; [by simplify_eq|].
    unfold parseTypedValueForFilters in *. unfold is_float_type in Hfloat.
    destruct (String.eqb t "int").
    - destruct (strconv.Atoi rawValue) as [i e] eqn:Hi. cbn [Sprintf_v].
      pose proof (Atoi_range rawValue) as Hr. rewrite Hi in Hr. cbn [fst] in Hr.
      by rewrite (Atoi_reads_Itoa i Hr).
    - rewrite Hfloat. destruct (String.eqb t "boolean").
      + by destruct (String.eqb rawValue "true").
      + by destruct (String.eqb t "string"). }
  rewrite (SplitN_three field operator v Hf Ho). cbv zeta. fold t. by rewrite Hv.
Qed.

End FilterRoundTrip.

Lemma rewriteFilter_idempotent_witness :
  is_float_type (declared_type {[ "age" := "int" ]} "age > 007") = false ∧
  rewriteFilter (λ _, (Float64frombits 0, Some strconv.ErrSyntax)) (λ _, "0")
    {[ "age" := "int" ]} "age > 007" = Some "age > 7" ∧
  rewriteFilter (λ _, (Float64frombits 0, Some strconv.ErrSyntax)) (λ _, "0")
    {[ "age" := "int" ]} "age > 7" = Some "age > 7".
Proof.
  split; [reflexivity|]. split; [reflexivity|].
  apply (rewriteFilter_idempotent
           (λ _, (Float64frombits 0, Some strconv.ErrSyntax)) (λ _, "0")
           {[ "age" := "int" ]} "age > 007" "age > 7"); reflexivity.
Defined.

(** X24: the property type map gives for a name the value type of
    the last rule with that property name, and nothing for a name no rule
    has. *)
Theorem buildPropertyTypeMap_lookup
    (rs : list ProfileEnrichmentRule) (name : string) :
  buildPropertyTypeMap rs !! name
  = ValueType <$> last (filter (λ r, PropertyName r = name) rs).
Proof.
  unfold buildPropertyTypeMap.
  assert (∀ m : gmap string string,
            fold_left (λ m rule, <[PropertyName rule := ValueType rule]> m) rs m !! name
            = match last (filter (λ r, PropertyName r = name) rs) with
              | Some r => Some (ValueType r)
              | None => m !! name
              end) as H.
  { induction rs as [|r rs IH]; intros m; [done|].
    cbn [fold_left]. rewrite IH, filter_cons.
    destruct (decide (PropertyName r = name)) as [Heq|Hne].
    - destruct (filter _ rs) as [|r' l] eqn:Hfl.
      + cbn. by rewrite <- Heq, lookup_insert_eq.
      + change (last (r :: r' :: l)) with (last (r' :: l)).
        destruct (last (r' :: l)) eqn:Hl; [done|]. by apply last_None in Hl.
    - destruct (last (filter _ rs)); [done|]. by rewrite lookup_insert_ne. }
  rewrite H. by destruct (last _).
Qed.

(** X12: [waitForProfile] returns the stored profile at the first
    read the collaborator answers: after [k] failed reads it has read
    [k + 1] times and slept [k] times, once between two reads. *)
Theorem waitForProfile_returns_first_visible
    (profileID : string) (maxRetries : Z) (k : nat) (w : World) (row : Profile) :
  (k < Z.to_nat maxRetries)%nat →
  first_success_at 0 k w = true →
  row_of profileID (profiles (db w)) = Some row →
  ∃ w', waitForProfile profileID maxRetries w = (Ret (Some row, None), w') ∧
        db w' = db w ∧
        ∃ new, trace w' = trace w ++ new ∧
               map call new = polling_calls profileID k.
Proof.
  intros Hk Hf Hrow. unfold waitForProfile.
  destruct (waitForProfile_from_visible k (Z.to_nat maxRetries) 0 profileID
              maxRetries None w row Hk ltac:(lia) Hf Hrow)
    as (w' & Hrun & Hdb & _ & _ & new & Ht & Hc).
  exists w'. split; [done|]. split; [done|]. by exists new.
Qed.

Lemma waitForProfile_returns_first_visible_witness :
  (1 < Z.to_nat 3)%nat ∧
  first_success_at 0 1 (world_of family_db [true; false] []) = true ∧
  row_of "C" (profiles (db (world_of family_db [true; false] []))) = Some child_row ∧
  ∃ w', waitForProfile "C" 3 (world_of family_db [true; false] [])
        = (Ret (Some child_row, None), w') ∧
        db w' = db (world_of family_db [true; false] []) ∧
        ∃ new, trace w' = trace (world_of family_db [true; false] []) ++ new ∧
               map call new = polling_calls "C" 1.
Proof.
  split; [vm_compute; lia|]. split; [reflexivity|]. split; [reflexivity|].
  apply (waitForProfile_returns_first_visible "C" 3 1
           (world_of family_db [true; false] []) child_row);
    [vm_compute; lia|reflexivity|reflexivity].
Defined.

(** X13: when the profile is not stored, or every read fails,
    [waitForProfile] reads [maxRetries] times, sleeping between two reads,
    and returns the not-visible error; the error wraps the error of the
    last read, if that read failed.  For [maxRetries <= 0] no read is
    made. *)
Theorem waitForProfile_gives_up
    (profileID : string) (maxRetries : Z) (w : World) :
  is_stored (db w) profileID = false ∨
  faults_from 0 (Z.to_nat maxRetries) w = true →
  ∃ w' e,
    waitForProfile profileID maxRetries w = (Ret (None, Some e), w') ∧
    not_visible profileID maxRetries (last_read_error (Z.to_nat maxRetries) w) e ∧
    db w' = db w ∧
    ∃ new, trace w' = trace w ++ new ∧
           map call new = exhausted_calls profileID (Z.to_nat maxRetries).
Proof.
  intros Hno. unfold waitForProfile.
  destruct (waitForProfile_from_exhausted (Z.to_nat maxRetries) 0 profileID
              maxRetries None w ltac:(lia) Hno)
    as (w' & e & Hrun & He & Hdb & _ & _ & new & Ht & Hc).
  exists w', e. split; [done|]. split; [by destruct (Z.to_nat maxRetries)|].
  split; [done|]. exists new. split; [done|]. by destruct (Z.to_nat maxRetries).
Qed.

Lemma waitForProfile_gives_up_witness :
  is_stored (db family) "N" = false ∧
  ∃ w' e,
    waitForProfile "N" 2 family = (Ret (None, Some e), w') ∧
    not_visible "N" 2 (last_read_error (Z.to_nat 2) family) e ∧
    db w' = db family ∧
    ∃ new, trace w' = trace family ++ new ∧
           map call new = exhausted_calls "N" (Z.to_nat 2).
Proof.
  split; [reflexivity|].
  apply (waitForProfile_gives_up "N" 2 family). left. reflexivity.
Defined.

(** X14: every run of [waitForProfile] returns, leaves the tables as
    they are, and yields either the stored row of the identifier without
    error, or no profile with an error; never both, never neither. *)
Theorem waitForProfile_outcome (profileID : string) (maxRetries : Z) (w : World) :
  ∃ r w', waitForProfile profileID maxRetries w = (Ret r, w') ∧
          db w' = db w ∧
          match r with
          | (Some p, None) => row_of profileID (profiles (db w)) = Some p
          | (None, Some _) => True
          | _ => False
          end.
Proof. apply waitForProfile_from_outcome. Qed.

Section FilterQuery.
Context (ParseFloat : string → float64 * option strconv.NumError)
        (FormatFloat : float64 → string)
        (selects : list string → Profile → bool).

(** X21: [GetAllProfilesWithFilter] first fetches the enrichment
    rules; when that fails it returns the server error
    [ErrWhileFetchingProfileEnrichmentRules] without querying the profiles.
    Otherwise the next call is the filtered query, with the kept filters
    translated one by one in input order, and the identifiers returned are
    a sublist of the identifiers the query selects. *)
Theorem GetAllProfilesWithFilter_query (filters : list string) (w : World) :
  (next_fault w = true →
   GetAllProfilesWithFilter ParseFloat FormatFloat selects filters w
   = (Ret ([], Some (ServerError ErrWhileFetchingProfileEnrichmentRules
                                (Some CollaboratorError))),
      logged CGetProfileEnrichmentRules false w)) ∧
  (next_fault w = false →
   ∃ new,
     trace (GetAllProfilesWithFilter ParseFloat FormatFloat selects filters w).2
     = trace w ++ {| call := CGetProfileEnrichmentRules; ok := true; before := db w |}
               :: new ∧
     call <$> head new
     = Some (CGetAllProfilesWithFilter
               (omap (rewriteFilter ParseFloat FormatFloat
                        (buildPropertyTypeMap (rules w))) filters)) ∧
     ∀ res err w',
       GetAllProfilesWithFilter ParseFloat FormatFloat selects filters w
       = (Ret (res, err), w') →
       sublist (map ProfileId res)
               (map ProfileId
                  (List.filter
                     (selects (omap (rewriteFilter ParseFloat FormatFloat
                                       (buildPropertyTypeMap (rules w))) filters))
                     (profiles (db w))))).
Proof.
  split; intros Hf.
  - unfold GetAllProfilesWithFilter, schemaRepo_GetProfileEnrichmentRules.
    rewrite !run_bind. unfold tick at 1. by rewrite Hf.
  - set (translated := omap _ filters).
    set (w1 := logged CGetProfileEnrichmentRules true w).
    set (w2 := logged (CGetAllProfilesWithFilter translated) true w1).
    assert (GetAllProfilesWithFilter ParseFloat FormatFloat selects filters w
            = if next_fault w1
              then (Ret ([], Some (ServerError ErrWhileFetchingProfile
                                      (Some CollaboratorError))),
                    logged (CGetAllProfilesWithFilter translated) false w1)
              else match mergeRows (List.filter (selects translated) (profiles (db w)))
                                   [] w2 with
                   | (Ret r, w3) => (Ret (r, None), w3)
                   | (Panic s, w3) => (Panic s, w3)
                   end) as ->.
    { unfold GetAllProfilesWithFilter, schemaRepo_GetProfileEnrichmentRules.
      rewrite !run_bind. unfold tick at 1. rewrite Hf. cbn [negb].
      rewrite run_bind. cbn [get_rules]. rewrite run_ret. cbn beta iota zeta.
      change (rules (logged CGetProfileEnrichmentRules true w)) with (rules w).
      rewrite (rewriteFilters_omap ParseFloat FormatFloat). cbn [app].
      fold translated. fold w1.
      unfold repo_GetAllProfilesWithFilter. rewrite !run_bind. unfold tick.
      destruct (next_fault w1); cbn [negb]; [done|].
      rewrite run_bind. cbn [get_db]. rewrite run_ret. cbn beta iota zeta.
      rewrite !db_logged. rewrite run_bind. fold w2.
      by destruct (mergeRows _ [] w2) as [[r|s] w3]. }
    destruct (next_fault w1).
    + eexists. split; [cbn; rewrite <- app_assoc; reflexivity|]. split; [done|].
      intros res err w' ?; simplify_eq. apply sublist_nil_l.
    + destruct (hoare_mergeRows (λ _, True) (λ _, True)
                  (List.filter (selects translated) (profiles (db w))) []
                  ltac:(done) ltac:(done) ltac:(done) w2 I) as [_ (new & Ht & _)].
      destruct (mergeRows _ [] w2) as [[r|s] w3] eqn:Hrun; cbn [snd] in Ht |- *.
      * eexists. split.
        { rewrite Ht. cbn [trace logged w2 w1]. rewrite <- !app_assoc. reflexivity. }
        split; [done|].
        intros res err w' ?; simplify_eq.
        by destruct (mergeRows_ids _ _ _ _ _ Hrun) as (kept & -> & Hsub).
      * eexists. split.
        { rewrite Ht. cbn [trace logged w2 w1]. rewrite <- !app_assoc. reflexivity. }
        split; [done|]. intros res err w' ?; simplify_eq.
Qed.

End FilterQuery.

Lemma GetAllProfilesWithFilter_query_witness :
  next_fault family = false ∧
  ∃ new,
    trace (GetAllProfilesWithFilter
             (λ _, (Float64frombits 0, Some strconv.ErrSyntax)) (λ _, "0")
             (λ _ _, true) ["age > 007"; "age"] family).2
    = trace family ++ {| call := CGetProfileEnrichmentRules; ok := true;
                         before := db family |} :: new ∧
    call <$> head new
    = Some (CGetAllProfilesWithFilter
              (omap (rewriteFilter (λ _, (Float64frombits 0, Some strconv.ErrSyntax))
                       (λ _, "0") (buildPropertyTypeMap (rules family)))
                    ["age > 007"; "age"])) ∧
    omap (rewriteFilter (λ _, (Float64frombits 0, Some strconv.ErrSyntax))
            (λ _, "0") (buildPropertyTypeMap (rules family)))
         ["age > 007"; "age"] = ["age > 7"].
Proof.
  split; [reflexivity|].
  destruct (proj2 (GetAllProfilesWithFilter_query
                     (λ _, (Float64frombits 0, Some strconv.ErrSyntax)) (λ _, "0")
                     (λ _ _, true) ["age > 007"; "age"] family) eq_refl)
    as (new & Htrace & Hcall & _).
  exists new. split; [exact Htrace|]. split; [exact Hcall|reflexivity].
Defined.

Lemma shrinks_refl d : shrinks d d.
Proof. by repeat split. Qed.

Lemma sublist_filter_trans {A} (P : A → Prop) `{∀ x, Decision (P x)} (l l0 : list A) :
  sublist l l0 → sublist (filter P l) l0.
Proof. intros Hsub. etrans; [apply sublist_filter|done]. Qed.

Lemma hoare_DeleteEventsByProfileId_inv P E id :
  admits P E (CDeleteEventsByProfileId id) →
  (∀ d, P d → P {| profiles := profiles d;
                   application_data := application_data d;
                   child_profiles := child_profiles d;
                   events := filter (λ e, Event.ProfileId e ≠ id) (events d) |}) →
  hoare P E (repo.DeleteEventsByProfileId id) (λ _, P).
Proof.
  intros H HP w Hw. unfold repo.DeleteEventsByProfileId. rewrite run_bind. unfold tick.
  destruct (negb (next_fault w)); (split; [|by apply grows_logged, H]); [|done].
  by apply HP.
Qed.

Lemma deleteChildProfiles_shrinks d0 children :
  hoare (shrinks d0) (λ _, True) (deleteChildProfiles children) (λ _, shrinks d0).
Proof.
  induction children as [|c rest IH]; cbn [deleteChildProfiles].
  - by apply hoare_ret.
  - repeat (hoare_step; side). all: try apply IH. all: side.
    all: intros d (Hp & He & Hc & Ha); repeat split; try done;
      by apply sublist_filter_trans.
Qed.

(** X11: [DeleteProfile] only removes: in every run, faults and
    panics included, the profile, event and child tables after the call
    are sublists of what they were, and the application data table is
    untouched, also for the rows that are deleted. *)
Theorem DeleteProfile_only_removes (id : string) (w : World) :
  shrinks (db w) (db (DeleteProfile id w).2).
Proof.
  cut (hoare (shrinks (db w)) (λ _, True) (DeleteProfile id) (λ _, shrinks (db w))).
  { intros H. apply H. apply shrinks_refl. }
  unfold DeleteProfile.
  eapply hoare_bind; [apply hoare_GetProfile; side | intros [profile err] | side].
  destruct profile as [profile|]; [|by apply hoare_ret].
  destruct err; [by apply hoare_ret|].
  eapply hoare_bind; [apply hoare_DeleteEventsByProfileId_inv; side | intros err | side].
  { intros d (Hp & He & Hc & Ha); repeat split; try done. by apply sublist_filter_trans. }
  destruct err; [by apply hoare_ret|].
  eapply hoare_bind; [apply hoare_deref| intros h | side].
  eapply hoare_bind with (Q1 := λ _, shrinks (db w)); [| intros h' | side].
  { destruct (IsParent h); [|by apply hoare_ret]. repeat (hoare_step; side). }
  repeat (hoare_step; side).
  all: try (eapply hoare_bind; [apply deleteChildProfiles_shrinks| intros ? | side]).
  all: repeat (hoare_step; side).
  all: intros d (Hp & He & Hc & Ha); repeat split; try done;
    by apply sublist_filter_trans.
Qed.

(** ** The database client and the rule store *)

Section DBClientFacts.
Context {V : Type} (nilV : V) (ToLower : string → string).

Lemma fill_other columns : ∀ i row result key,
  (∀ j col, columns !! j = Some col → ToLower col ≠ key) →
  client.fill V nilV ToLower columns i row result !! key = result !! key.
Proof.
  induction columns as [|c rest IH]; intros i row result key Hno; [done|].
  cbn [client.fill]. rewrite IH.
  - apply lookup_insert_ne. exact (Hno 0%nat c eq_refl).
  - intros j col Hj. exact (Hno (S j) col Hj).
Qed.

Lemma fill_last columns : ∀ i row result j col,
  columns !! j = Some col →
  (∀ j' col', (j < j')%nat → columns !! j' = Some col' → ToLower col' ≠ ToLower col) →
  client.fill V nilV ToLower columns i row result !! ToLower col
  = Some (default nilV (row !! (i + j)%nat)).
Proof.
  induction columns as [|c rest IH]; intros i row result j col Hj Hlast; [done|].
  cbn [client.fill]. destruct j as [|j].
  - cbn in Hj. simplify_eq. rewrite fill_other.
    + by rewrite lookup_insert_eq, Nat.add_0_r.
    + intros j' col' Hj'. apply (Hlast (S j') col'); [lia|done].
  - cbn in Hj. rewrite (IH (S i) row _ j col Hj).
    + do 3 f_equal. lia.
    + intros j' col' Hlt Hj'. apply (Hlast (S j') col'); [lia|done].
Qed.

Lemma scanAll_ok columns scans : ∀ results rows,
  scans = map inl rows →
  client.scanAll V nilV ToLower columns scans results
  = (results ++ map (λ row, client.fill V nilV ToLower columns 0 row ∅) rows, None).
Proof.
  induction scans as [|s scans IH]; intros results rows Hs.
  - destruct rows; [|done]. by rewrite app_nil_r.
  - destruct rows as [|row rows]; [done|]. cbn [map] in Hs. simplify_eq.
    cbn [client.scanAll]. rewrite (IH _ rows eq_refl). cbn [map].
    by rewrite <- app_assoc.
Qed.

Lemma scanAll_error columns scans : ∀ results err,
  head (omap (λ s, match s with inr e => Some e | inl _ => None end) scans) = Some err →
  client.scanAll V nilV ToLower columns scans results = ([], Some err).
Proof.
  induction scans as [|s scans IH]; intros results err Hs; [done|].
  cbn [client.scanAll]. destruct s as [row|e].
  - cbn in Hs. by apply IH.
  - cbn in Hs. by simplify_eq.
Qed.

(** X26: [ExecuteQuery] is all or nothing: a failing [Query],
    [Columns] or [Scan] gives that error and no row at all, also when rows
    before the failing one were scanned. *)
Theorem ExecuteQuery_error (queried : client.Rows V + error) (err : error) :
  match queried with
  | inr e => e = err
  | inl rows =>
      match client.Columns V rows with
      | inr e => e = err
      | inl _ =>
          head (omap (λ s, match s with inr e => Some e | inl _ => None end)
                     (client.Scans V rows)) = Some err
      end
  end →
  client.ExecuteQuery V nilV ToLower queried = ([], Some err).
Proof.
  unfold client.ExecuteQuery. destruct queried as [rows|e]; [|by intros ->].
  destruct (client.Columns V rows) as [columns|e]; [|by intros ->].
  apply scanAll_error.
Qed.

(** X27: when every scan succeeds, [ExecuteQuery] returns one map
    per row, in order, without error, and the map of a row gives under a
    lower-cased column name the value of the last column with that
    lower-cased name.  The error is nil also when the iteration was ended
    by an error: [rows.Err()] is not consulted. *)
Theorem ExecuteQuery_rows
    (columns : list string) (rows : list (list V)) (iterErr : option error) :
  ∃ results,
    client.ExecuteQuery V nilV ToLower
      (inl {| client.Columns := inl columns; client.Scans := map inl rows;
              client.Err := iterErr |})
    = (results, None) ∧
    length results = length rows ∧
    ∀ i row m j col,
      rows !! i = Some row → results !! i = Some m →
      columns !! j = Some col →
      (∀ j' col', (j < j')%nat → columns !! j' = Some col' → ToLower col' ≠ ToLower col) →
      m !! ToLower col = Some (default nilV (row !! j)).
Proof.
  eexists. unfold client.ExecuteQuery. cbn [client.Columns client.Scans].
  rewrite (scanAll_ok columns _ [] rows eq_refl). cbn [app].
  split; [reflexivity|]. split; [by rewrite length_map|].
  intros i row m j col Hrow Hm Hcol Hlast.
  rewrite list_lookup_fmap, Hrow in Hm. cbn in Hm. simplify_eq.
  by rewrite (fill_last columns 0 row ∅ j col Hcol Hlast).
Qed.

End DBClientFacts.

Lemma ExecuteQuery_error_witness :
  head (omap (λ s, match s with inr e => Some e | inl _ => None end)
             [inl [1]; inr CollaboratorError; inl [2]]) = Some CollaboratorError ∧
  client.ExecuteQuery Z 0 (λ s, s)
    (inl {| client.Columns := inl ["ID"];
            client.Scans := [inl [1]; inr CollaboratorError; inl [2]];
            client.Err := None |})
  = ([], Some CollaboratorError).
Proof.
  split; [reflexivity|].
  apply (ExecuteQuery_error 0 (λ s, s)
           (inl {| client.Columns := inl ["ID"];
                   client.Scans := [inl [1]; inr CollaboratorError; inl [2]];
                   client.Err := None |})
           CollaboratorError).
  reflexivity.
Defined.

Section StoreFacts.
Context (now : Z).

Lemma setClausesFrom_run updates : ∀ setClauses args argIndex,
  store.setClausesFrom updates setClauses args argIndex
  = (setClauses ++ imap (λ i kv, kv.1 +:+ " = $" +:+ Itoa (argIndex + Z.of_nat i)) updates,
     args ++ map snd updates,
     argIndex + Z.of_nat (length updates)).
Proof.
  induction updates as [|[key value] rest IH]; intros setClauses args argIndex.
  - cbn. by rewrite !app_nil_r, Z.add_0_r.
  - cbn [store.setClausesFrom]. rewrite IH. cbn [imap map length fst snd].
    rewrite <- !app_assoc. cbn [app]. rewrite Z.add_0_r. f_equal; [f_equal|lia].
    do 2 f_equal. apply imap_ext. intros i kv _. cbn. do 3 f_equal. lia.
Qed.

(** X28: when the client is obtained, [PatchUnificationRule] runs one
    statement and answers by its outcome.  The statement keeps
    placeholders and arguments in step, whatever the order in which the
    loop meets the entries of [updates]: the entry at index [i] is set
    through placeholder [i + 1] and its value is the argument at index
    [i]; the time stamp goes with the next placeholder and the rule id
    with the one after it.  For an empty [updates] the list of SET
    clauses is empty, so the statement reads [SET , updated_at = $1]. *)
Theorem PatchUnificationRule_statement
    (names : string * string) (ExecuteQuery : string → list any → option error)
    (ruleId : string) (updates : list (string * any)) :
  ∃ setClauses args,
    store.PatchUnificationRule now names None ExecuteQuery ruleId updates
    = match ExecuteQuery
              ("UPDATE unification_rules SET " +:+ String.concat ", " setClauses
               +:+ ", updated_at = $" +:+ Itoa (Z.of_nat (length updates) + 1)
               +:+ " WHERE rule_id = $" +:+ Itoa (Z.of_nat (length updates) + 2))
              args with
      | Some err =>
          Some {| store.Code := names.1; store.Message := names.2;
                  store.Description :=
                    "Error occurred while updating unification rule for rule_id: "
                    +:+ ruleId;
                  store.Err := err |}
      | None => None
      end ∧
    length setClauses = length updates ∧
    length args = (length updates + 2)%nat ∧
    (∀ i key value,
       updates !! i = Some (key, value) →
       setClauses !! i = Some (key +:+ " = $" +:+ Itoa (Z.of_nat i + 1)) ∧
       args !! i = Some value) ∧
    args !! length updates = Some (AInt now) ∧
    args !! S (length updates) = Some (AString ruleId) ∧
    (updates = [] → String.concat ", " setClauses = "").
Proof.
  unfold store.PatchUnificationRule, store.patchStatement.
  rewrite setClausesFrom_run. cbn [app].
  replace (1 + Z.of_nat (length updates)) with (Z.of_nat (length updates) + 1) by lia.
  replace (Z.of_nat (length updates) + 1 + 1) with (Z.of_nat (length updates) + 2) by lia.
  eexists _, _. split; [|split; [|split; [|split; [|split; [|split]]]]].
  - reflexivity.
  - by rewrite length_imap.
  - rewrite length_app, length_map. cbn. lia.
  - intros i key value Hi. split.
    + rewrite list_lookup_imap, Hi. cbn. do 4 f_equal. lia.
    + rewrite lookup_app_l by (rewrite length_map; by eapply lookup_lt_Some).
      by rewrite list_lookup_fmap, Hi.
  - rewrite lookup_app_r by (rewrite length_map; lia).
    rewrite length_map, Nat.sub_diag. done.
  - rewrite lookup_app_r by (rewrite length_map; lia).
    rewrite length_map. by replace (S (length updates) - length updates)%nat with 1%nat by lia.
  - by intros ->.
Qed.

End StoreFacts.
